(** * schema-builder: the schema algebra and the defaults resolver

    A shallow embedding of [src/Default.ts], [src/utils.ts]
    (ThroughJsonSchema, CloneJSON, SetRequired) and of
    [src/SchemaBuilder.ts] (the property operations and the [Object],
    [Enum], [Array] and combination factories), followed by the
    properties of the specification stated and settled against it
    (Part II) and by further properties of the code (Part III).

    Conventions of the embedding.
    - A JavaScript value occurring in a schema document is a [value]:
      the JSON constructors plus [JUndef] for [undefined].  Numbers are
      integers ([Z]); a schema never computes with fractions here.
    - An object is the list of its own enumerable properties in
      enumeration order; the keys of one object are pairwise distinct.
      A new key is appended at the end.  JavaScript enumerates array
      indices first: the keywords written here are no such names, and a
      statement about the position of a new property name excludes them
      ([index_name]).
    - The operations of the builder clone before they change anything,
      so they are functions of the document's content.  The two
      accessors that hand out a nested node are modelled over a store
      ([Heap]), where the identity of the node can be stated.
    - [k in o] and [o[k]] are answered from the own properties of [o].
      They differ from JavaScript only on a name that [o] does not own
      and that every object inherits from its prototype ([toString],
      [constructor], ...): a statement about a name that may be
      undeclared excludes those names ([inherited_name]).
    - A call either returns, throws, or (for the recursive resolver,
      which can chase a cyclic [$ref]) exhausts its fuel: [outcome].
      [Unmodelled] marks the few coercions of ill-typed documents that
      the embedding does not follow. *)

From Stdlib Require Import List String Ascii ZArith Bool Arith Lia DecimalString.
Import ListNotations.
Open Scope string_scope.

(* ================================================================== *)
(** * Part I: the embedding *)
(* ================================================================== *)

(** ** JavaScript values and outcomes *)

#[local] Unset Elimination Schemes.

Inductive value : Type :=
| JUndef
| JNull
| JBool (b : bool)
| JNum (n : Z)
| JStr (s : string)
| JArr (elems : list value)
| JObj (fields : list (string * value)).

#[local] Set Elimination Schemes.

Inductive error : Type :=
| VError (message : string)
| TypeError
| SyntaxError
| Unmodelled.

Inductive outcome (A : Type) : Type :=
| Ret (a : A)
| Throw (e : error)
| OutOfFuel.

Arguments Ret {A} a.
Arguments Throw {A} e.
Arguments OutOfFuel {A}.

Definition bind {A B : Type} (c : outcome A) (k : A -> outcome B) : outcome B :=
  match c with
  | Ret a => k a
  | Throw e => Throw e
  | OutOfFuel => OutOfFuel
  end.

Notation "x <- c ;; k" := (bind c (fun x => k))
  (at level 61, c at next level, right associativity).

(** [list.forEach(f)] for a callback that can throw. *)
Fixpoint forEach {A : Type} (l : list A) (f : A -> outcome unit) : outcome unit :=
  match l with
  | [] => Ret tt
  | x :: rest => _ <- f x ;; forEach rest f
  end.

(** [list.map(f)] for a callback that can throw. *)
Fixpoint mapM {A B : Type} (f : A -> outcome B) (l : list A) : outcome (list B) :=
  match l with
  | [] => Ret []
  | x :: rest => y <- f x ;; ys <- mapM f rest ;; Ret (y :: ys)
  end.

(** A loop [for (x of l) { state = f(state, x) }] whose body can throw. *)
Section Loops.

Context {A S : Type} (f : S -> A -> outcome S).

Fixpoint foldM (l : list A) (s : S) : outcome S :=
  match l with
  | [] => Ret s
  | x :: rest => s' <- f s x ;; foldM rest s'
  end.

End Loops.

(** Truthiness, as tested by [if (v)], [!v] and [v || w]. *)
Definition truthy (v : value) : bool :=
  match v with
  | JUndef | JNull => false
  | JBool b => b
  | JNum n => negb (n =? 0)%Z
  | JStr s => negb (s =? "")
  | JArr _ | JObj _ => true
  end.

(** [typeof v === 'undefined'] *)
Definition is_undefined (v : value) : bool :=
  match v with JUndef => true | _ => false end.

(** [v === s] for a string literal [s]. *)
Definition is_string (v : value) (s : string) : bool :=
  match v with JStr t => t =? s | _ => false end.

(** [v === null] *)
Definition is_null (v : value) : bool :=
  match v with JNull => true | _ => false end.

(** [v === false] *)
Definition is_false (v : value) : bool :=
  match v with JBool false => true | _ => false end.

(** [typeof v === "boolean"] *)
Definition is_boolean (v : value) : bool :=
  match v with JBool _ => true | _ => false end.

(** Own property lookup in an object. *)
Fixpoint lookup (k : string) (fs : list (string * value)) : option value :=
  match fs with
  | [] => None
  | (k', v) :: rest => if k' =? k then Some v else lookup k rest
  end.

Definition has_key (k : string) (fs : list (string * value)) : bool :=
  match lookup k fs with Some _ => true | None => false end.

(** [o[k] = v] on an object: overwrite in place, or append a new key
    (the place of a new key that is no array index). *)
Fixpoint assoc_set (k : string) (v : value) (fs : list (string * value))
  : list (string * value) :=
  match fs with
  | [] => [(k, v)]
  | (k', v') :: rest =>
      if k' =? k then (k', v) :: rest else (k', v') :: assoc_set k v rest
  end.

(** [delete o[k]] on an object. *)
Fixpoint assoc_remove (k : string) (fs : list (string * value))
  : list (string * value) :=
  match fs with
  | [] => []
  | (k', v') :: rest =>
      if k' =? k then assoc_remove k rest else (k', v') :: assoc_remove k rest
  end.

(** The property name of array index [i]: its decimal numeral. *)
Definition index_key (i : nat) : string :=
  NilEmpty.string_of_uint (Nat.to_uint i).

(** Element of [l] stored under the property name [k], scanning from index [i]. *)
Fixpoint lookup_index (k : string) (i : nat) (l : list value) : option value :=
  match l with
  | [] => None
  | x :: rest => if index_key i =? k then Some x else lookup_index k (S i) rest
  end.

(** The characters of a string, each as a one-character string. *)
Definition string_chars (s : string) : list value :=
  map (fun c => JStr (String c EmptyString)) (list_ascii_of_string s).

(** The own indexed elements of an array or string, with ["length"]. *)
Definition indexed_get (k : string) (l : list value) : value :=
  match lookup_index k 0 l with
  | Some v => v
  | None => if k =? "length" then JNum (Z.of_nat (List.length l)) else JUndef
  end.

(** [o[k]] (also written [o.k]), read from the own properties.  Reading
    through [null] or [undefined] throws. *)
Definition get_prop (o : value) (k : string) : outcome value :=
  match o with
  | JObj fs => Ret (match lookup k fs with Some v => v | None => JUndef end)
  | JArr l => Ret (indexed_get k l)
  | JStr s => Ret (indexed_get k (string_chars s))
  | JNum _ | JBool _ => Ret JUndef
  | JUndef | JNull => Throw TypeError
  end.

(** [k in o], answered from the own properties.  The operator throws on
    a primitive right operand. *)
Definition has_prop (k : string) (o : value) : outcome bool :=
  match o with
  | JObj fs => Ret (has_key k fs)
  | JArr l =>
      Ret ((k =? "length") || match lookup_index k 0 l with Some _ => true | None => false end)
  | _ => Throw TypeError
  end.

(** The string-keyed members of [Object.prototype].  For these names
    [k in o] holds and [o[k]] is the inherited member on every plain
    object, whether or not [o] has an own property [k]; writing
    [o["__proto__"]] sets the prototype and creates no property.
    [get_prop] and [has_prop] answer for own properties: they agree with
    JavaScript on every own property and on every name that is not
    inherited.  A statement about a name that may be undeclared says so
    with [inherited_name]. *)
Definition inherited_names : list string :=
  ["constructor"; "hasOwnProperty"; "isPrototypeOf"; "propertyIsEnumerable";
   "toLocaleString"; "toString"; "valueOf"; "__proto__";
   "__defineGetter__"; "__defineSetter__"; "__lookupGetter__"; "__lookupSetter__"].

Definition inherited_name (k : string) : bool :=
  existsb (String.eqb k) inherited_names.

Definition is_digit (c : ascii) : bool :=
  (48 <=? nat_of_ascii c)%nat && (nat_of_ascii c <=? 57)%nat.

(** A canonical decimal numeral: ["0"], or digits that do not start with
    [0].  Every array index has this form.  An object enumerates its
    array-index keys first, in ascending order, and its other keys in the
    order of their creation: a new key that is no numeral comes last, as
    [assoc_set] puts it, while a new array index does not.  A statement
    about the position of a new name says so with [index_name]. *)
Definition index_name (k : string) : bool :=
  match k with
  | EmptyString => false
  | String c rest =>
      if Ascii.eqb c "0"%char then rest =? ""
      else forallb is_digit (c :: list_ascii_of_string rest)
  end.

(** Replace element [i] of [l], or append when [i] is the length. *)
Fixpoint set_index (k : string) (i : nat) (v : value) (l : list value)
  : option (list value) :=
  match l with
  | [] => if index_key i =? k then Some [v] else None
  | x :: rest =>
      if index_key i =? k then Some (v :: rest)
      else match set_index k (S i) v rest with
           | Some rest' => Some (x :: rest')
           | None => None
           end
  end.

(** [o[k] = v] in strict mode. Writing a named property or a hole into an
    array is outside the embedding; writing to a primitive throws. *)
Definition set_prop (o : value) (k : string) (v : value) : outcome value :=
  match o with
  | JObj fs => Ret (JObj (assoc_set k v fs))
  | JArr l =>
      match set_index k 0 v l with
      | Some l' => Ret (JArr l')
      | None => Throw Unmodelled
      end
  | _ => Throw TypeError
  end.

(** [delete o[k]] on an object. *)
Definition delete_prop (o : value) (k : string) : outcome value :=
  match o with
  | JObj fs => Ret (JObj (assoc_remove k fs))
  | JUndef | JNull => Throw TypeError
  | _ => Throw Unmodelled
  end.

(** The names visited by [for (key in o)] (own, enumerable). *)
Definition own_keys (o : value) : list string :=
  match o with
  | JObj fs => map fst fs
  | JArr l => map index_key (seq 0 (List.length l))
  | JStr s => map index_key (seq 0 (String.length s))
  | _ => []
  end.

(** The values [o[key]] met by [for (key in o)], in order. *)
Definition own_values (o : value) : list value :=
  match o with
  | JObj fs => map snd fs
  | JArr l => l
  | JStr s => string_chars s
  | _ => []
  end.

(** [arr.indexOf(s) !== -1] for a string [s]: strict equality on the
    elements.  A non-array receiver has no (or another) [indexOf]. *)
Definition includes_string (arr : value) (s : string) : outcome bool :=
  match arr with
  | JArr l => Ret (existsb (fun x => is_string x s) l)
  | JStr _ => Throw Unmodelled
  | _ => Throw TypeError
  end.

(** [arr.indexOf(null) !== -1] *)
Definition includes_null (arr : value) : outcome bool :=
  match arr with
  | JArr l => Ret (existsb is_null l)
  | JStr _ => Throw Unmodelled
  | _ => Throw TypeError
  end.

(** The decimal numeral of an integer, as [String(n)] prints it. *)
Definition number_to_string (n : Z) : string :=
  match n with
  | Z0 => "0"
  | Zpos p => NilEmpty.string_of_uint (Pos.to_uint p)
  | Zneg p => "-" ++ NilEmpty.string_of_uint (Pos.to_uint p)
  end.

(** [v.toString()] for the values that have one; inside [Array.join],
    [null] and [undefined] print as the empty string. *)
Fixpoint to_string (v : value) : string :=
  match v with
  | JUndef | JNull => ""
  | JBool true => "true"
  | JBool false => "false"
  | JNum n => number_to_string n
  | JStr s => s
  | JArr l =>
      (fix join (xs : list value) : string :=
         match xs with
         | [] => ""
         | [x] => to_string x
         | x :: rest => to_string x ++ "," ++ join rest
         end) l
  | JObj _ => "[object Object]"
  end.

(** ** [src/utils.ts] *)

(** [CloneJSON]: a fresh copy, primitives returned as they are. *)
Fixpoint CloneJSON (o : value) : value :=
  match o with
  | JArr l => JArr (map CloneJSON l)
  | JObj fs => JObj (map (fun kv => (fst kv, CloneJSON (snd kv))) fs)
  | _ => o
  end.

(** Nesting depth of a value: the recursion bound of a traversal. *)
Fixpoint depth (v : value) : nat :=
  match v with
  | JArr l => S (fold_right (fun x acc => Nat.max (depth x) acc) 0 l)
  | JObj fs => S (fold_right (fun kv acc => Nat.max (depth (snd kv)) acc) 0 fs)
  | _ => 0
  end.

(** [schema.k.forEach(f)]: only an array has a [forEach]. *)
Definition array_forEach (arr : value) (f : value -> outcome unit) : outcome unit :=
  match arr with
  | JArr l => forEach l f
  | _ => Throw TypeError
  end.

(** The statements of [ThroughJsonSchema] after [action(schema)], one
    definition per [if]; [through] is the recursive call. *)
Definition visit_properties (through : value -> outcome unit) (schema : value)
  : outcome unit :=
  properties <- get_prop schema "properties" ;;
  if truthy properties then forEach (own_values properties) through else Ret tt.

Definition visit_branches (through : value -> outcome unit) (schema : value)
  (keyword : string) : outcome unit :=
  branches <- get_prop schema keyword ;;
  if truthy branches then array_forEach branches through else Ret tt.

Definition visit_node (through : value -> outcome unit) (schema : value)
  (keyword : string) : outcome unit :=
  node <- get_prop schema keyword ;;
  if truthy node then through node else Ret tt.

Definition visit_additional (through : value -> outcome unit) (schema : value)
  : outcome unit :=
  additionalProperties <- get_prop schema "additionalProperties" ;;
  if truthy additionalProperties && negb (is_boolean additionalProperties)
  then through additionalProperties else Ret tt.

(** The body of [ThroughJsonSchema(schema, action)] for an action that
    reads the node and may throw. *)
Definition through_step (through : value -> outcome unit) (schema : value)
  (action : value -> outcome unit) : outcome unit :=
  match schema with
  | JArr l => forEach l through
  | JObj _ =>
      _ <- action schema ;;
      _ <- visit_properties through schema ;;
      _ <- visit_branches through schema "oneOf" ;;
      _ <- visit_branches through schema "allOf" ;;
      _ <- visit_branches through schema "anyOf" ;;
      _ <- visit_node through schema "items" ;;
      _ <- visit_node through schema "not" ;;
      visit_additional through schema
  | _ => Ret tt
  end.

(** The calls descend into the document, so [fuel] above the depth of
    [schema] is never exhausted. *)
Fixpoint ThroughJsonSchema_fuel (fuel : nat) (schema : value)
  (action : value -> outcome unit) : outcome unit :=
  match fuel with
  | O => OutOfFuel
  | S fuel' =>
      through_step (fun s => ThroughJsonSchema_fuel fuel' s action) schema action
  end.

Definition ThroughJsonSchema (schema : value) (action : value -> outcome unit)
  : outcome unit :=
  ThroughJsonSchema_fuel (S (depth schema)) schema action.

(** ** [src/Default.ts] *)

(** [isObject(item)]: an object that prints as a plain object does.  An
    array prints as the join of its elements. *)
Definition isObject (item : value) : bool :=
  match item with
  | JObj _ | JArr _ => to_string item =? "[object Object]"
  | _ => false
  end.

(** [JSON.parse(JSON.stringify(v))] for a defined [v]: an [undefined]
    property is dropped, an [undefined] element becomes [null]. *)
Fixpoint json_roundtrip (v : value) : value :=
  match v with
  | JArr l =>
      JArr (map (fun x => match x with
                          | JUndef => JNull
                          | _ => json_roundtrip x
                          end) l)
  | JObj fs =>
      JObj ((fix fields (fs : list (string * value)) : list (string * value) :=
               match fs with
               | [] => []
               | (k, x) :: rest =>
                   match x with
                   | JUndef => fields rest
                   | _ => (k, json_roundtrip x) :: fields rest
                   end
               end) fs)
  | _ => v
  end.

(** [cloneJSON(source)]; [JSON.parse(undefined)] is a syntax error. *)
Definition cloneJSON (source : value) : outcome value :=
  match source with
  | JUndef => Throw SyntaxError
  | _ => Ret (json_roundtrip source)
  end.

(** The body of the loop of [merge] for one key of [source]. *)
Definition merge_entry (merge : value -> value -> outcome value)
  (target : value) (key : string) (source_key : value) : outcome value :=
  target_key <- get_prop target key ;;
  v <- (if isObject target_key && isObject source_key
        then merge target_key source_key
        else Ret source_key) ;;
  set_prop target key v.

(** [merge(target, source)].  The loop [for (key in source)] runs over the
    own properties of [source]; [source[key]] is the value met there.  The
    characters of a string are no objects, so no nested merge starts from
    them. *)
Fixpoint merge (target source : value) {struct source} : outcome value :=
  target <- cloneJSON target ;;
  match source with
  | JObj fs =>
      foldM (fun target kv => merge_entry merge target (fst kv) (snd kv)) fs target
  | JArr l =>
      r <- foldM (fun st source_key =>
                    target <- merge_entry merge (snd st) (index_key (fst st)) source_key ;;
                    Ret (S (fst st), target))
             l (0, target) ;;
      Ret (snd r)
  | JStr s =>
      r <- foldM (fun st source_key =>
                    target <- merge_entry (fun _ c => Ret c) (snd st)
                                (index_key (fst st)) source_key ;;
                    Ret (S (fst st), target))
             (string_chars s) (0, target) ;;
      Ret (snd r)
  | _ => Ret target
  end.

(** [path.replace(/^#\/definitions\//, '')] *)
Definition strip_definitions (path : string) : string :=
  let p := "#/definitions/" in
  if prefix p path
  then substring (String.length p) (String.length path - String.length p) path
  else path.

(** [s.split('/')] *)
Fixpoint split_slash (s : string) : list string :=
  match s with
  | EmptyString => [""]
  | String c rest =>
      if Ascii.eqb c "/"%char then "" :: split_slash rest
      else match split_slash rest with
           | [] => [String c ""]
           | seg :: segs => String c seg :: segs
           end
  end.

(** The inner [find(path, root)] of [getLocalRef]; [path.shift()] of an
    empty path is [undefined], which reads the property "undefined". *)
Fixpoint find (path : list string) (root : value) : outcome value :=
  match path with
  | [] =>
      v <- get_prop root "undefined" ;;
      if negb (truthy v) then Ret (JObj []) else Ret v
  | key :: path' =>
      v <- get_prop root key ;;
      if negb (truthy v) then Ret (JObj [])
      else match path' with
           | [] => Ret v
           | _ => find path' v
           end
  end.

(** [getLocalRef(path, definitions)]; only a string has [replace]. *)
Definition getLocalRef (path definitions : value) : outcome value :=
  match path with
  | JStr p =>
      result <- find (split_slash (strip_definitions p)) definitions ;;
      if negb (isObject result) then Ret result else cloneJSON result
  | _ => Throw TypeError
  end.

(** [mergeAllOf(allOfList, definitions)].  A list without a numeric
    [length] is not iterated. *)
Definition mergeAllOf (allOfList definitions : value) : outcome value :=
  match allOfList with
  | JArr l =>
      (fix loop (l : list value) (result : value) : outcome value :=
         match l with
         | [] => Ret result
         | item :: rest =>
             ref <- get_prop item "$ref" ;;
             item <- (if negb (is_undefined ref)
                      then getLocalRef ref definitions else Ret item) ;;
             result <- merge result item ;;
             loop rest result
         end) l (JObj [])
  | JUndef | JNull => Throw TypeError
  | JStr _ => Throw Unmodelled
  | JObj fs => if has_key "length" fs then Throw Unmodelled else Ret (JObj [])
  | JNum _ | JBool _ => Ret (JObj [])
  end.

(** The loop that removes [undefined] items at the end of a tuple
    default; [n] is [i + 1] and [values.pop()] drops the last element. *)
Fixpoint trim_loop (n : nat) (ct : Z) (values : list value) : list value :=
  match n with
  | O => values
  | S i =>
      if negb (is_undefined (nth i values JUndef)) then values
      else trim_loop i ct
             (if (Z.of_nat i + 1 >? ct)%Z then removelast values else values)
  end.

Definition trim_undefined (ct : Z) (values : list value) : list value :=
  trim_loop (List.length values) ct values.

(** [schema.minItems || 0], when it is a number. *)
Definition minimum_count (minItems : value) : outcome Z :=
  match (if truthy minItems then minItems else JNum 0) with
  | JNum ct => Ret ct
  | _ => Throw Unmodelled
  end.

(** [defaults(schema, definitions)].  A reference can lead back to
    itself, so the recursion is bounded by [fuel]. *)
Fixpoint defaults (fuel : nat) (schema definitions : value) : outcome value :=
  match fuel with
  | O => OutOfFuel
  | S fuel' =>
      default <- get_prop schema "default" ;;
      if negb (is_undefined default) then Ret default else
      allOf <- get_prop schema "allOf" ;;
      if negb (is_undefined allOf) then
        mergedItem <- mergeAllOf allOf definitions ;;
        defaults fuel' mergedItem definitions
      else
      ref <- get_prop schema "$ref" ;;
      if negb (is_undefined ref) then
        reference <- getLocalRef ref definitions ;;
        defaults fuel' reference definitions
      else
      type <- get_prop schema "type" ;;
      if is_string type "object" then
        properties <- get_prop schema "properties" ;;
        if negb (truthy properties) then Ret (JObj []) else
        match properties with
        | JObj pfs =>
            fields <-
              (fix loop (pfs : list (string * value))
                 : outcome (list (string * value)) :=
                 match pfs with
                 | [] => Ret []
                 | (key, property) :: rest =>
                     d <- defaults fuel' property definitions ;;
                     rest' <- loop rest ;;
                     Ret (if is_undefined d then rest' else (key, d) :: rest')
                 end) pfs ;;
            Ret (JObj fields)
        | JArr _ => Throw Unmodelled
        | JStr _ => Throw TypeError
        | _ => Ret properties
        end
      else if is_string type "array" then
        items <- get_prop schema "items" ;;
        if negb (truthy items) then Ret (JArr []) else
        minItems <- get_prop schema "minItems" ;;
        ct <- minimum_count minItems ;;
        match items with
        | JArr l =>
            values <- mapM (fun item => defaults fuel' item definitions) l ;;
            Ret (JArr (trim_undefined ct values))
        | _ =>
            v <- defaults fuel' items definitions ;;
            if is_undefined v then Ret (JArr []) else
            values <- mapM (fun _ => cloneJSON v)
                        (seq 0 (Z.to_nat (Z.max 1 ct))) ;;
            Ret (JArr values)
        end
      else Ret JUndef
  end.

(** The first half of [DefaultObject]: the definitions the resolver runs with. *)
Definition effectiveDefinitions (schema definitions : value) : outcome value :=
  if is_undefined definitions then
    own <- get_prop schema "definitions" ;;
    Ret (if truthy own then own else JObj [])
  else
    own <- get_prop schema "definitions" ;;
    if isObject own then merge definitions own else Ret definitions.

(** [DefaultObject(schema, definitions)] *)
Definition DefaultObject (fuel : nat) (schema definitions : value) : outcome value :=
  definitions <- effectiveDefinitions schema definitions ;;
  schema <- cloneJSON schema ;;
  defaults fuel schema definitions.

(** ** [src/SchemaBuilder.ts] *)

(** Array methods used by the builder; only an array has them. *)
Definition array_filter (arr : value) (f : value -> bool) : outcome value :=
  match arr with
  | JArr l => Ret (JArr (filter f l))
  | _ => Throw TypeError
  end.

Definition array_push (arr : value) (v : value) : outcome value :=
  match arr with
  | JArr l => Ret (JArr (l ++ [v]))
  | _ => Throw TypeError
  end.

(** [arr.splice(arr.indexOf(s), 1)]: drop the first element equal to [s]. *)
Fixpoint remove_first (s : string) (l : list value) : list value :=
  match l with
  | [] => []
  | x :: rest => if is_string x s then rest else x :: remove_first s rest
  end.

Definition array_splice_string (arr : value) (s : string) : outcome value :=
  match arr with
  | JArr l => Ret (JArr (remove_first s l))
  | _ => Throw TypeError
  end.

(** [o.k1[k2] = v]: the nested object is updated in place. *)
Definition set_prop2 (o : value) (k1 k2 : string) (v : value) : outcome value :=
  inner <- get_prop o k1 ;;
  inner <- set_prop inner k2 v ;;
  set_prop o k1 inner.

(** [o.k = o.k || dflt] *)
Definition default_prop (o : value) (k : string) (dflt : value) : outcome value :=
  v <- get_prop o k ;;
  set_prop o k (if truthy v then v else dflt).

(** A builder: the schema it wraps and an optional validation configuration. *)
Record SchemaBuilder : Type := {
  schemaObject : value;
  validationConfig : option value
}.

Definition ref_error : string :=
  "Schema Builder Error: $ref can't be used to initialize a SchemaBuilder. Dereferenced the schema first.".

(** The action of the constructor: [if ("$ref" in s) throw ...]. *)
Definition reject_ref (s : value) : outcome unit :=
  r <- has_prop "$ref" s ;;
  if r then Throw (VError ref_error) else Ret tt.

(** [new SchemaBuilder(schemaObject, validationConfig)] *)
Definition new_SchemaBuilder (schemaObject : value) (validationConfig : option value)
  : outcome SchemaBuilder :=
  _ <- ThroughJsonSchema schemaObject reject_ref ;;
  Ret {| schemaObject := schemaObject; validationConfig := validationConfig |}.

(** [get IsObjectSchema] *)
Definition IsObjectSchema (this : SchemaBuilder) : outcome bool :=
  type <- get_prop (schemaObject this) "type" ;;
  if is_string type "object" then Ret true else
  hasType <- has_prop "type" (schemaObject this) ;;
  if negb hasType then has_prop "properties" (schemaObject this) else Ret false.

(** [get HasAdditionalProperties] *)
Definition HasAdditionalProperties (this : SchemaBuilder) : outcome bool :=
  isObj <- IsObjectSchema this ;;
  if isObj then
    additionalProperties <- get_prop (schemaObject this) "additionalProperties" ;;
    Ret (negb (is_false additionalProperties))
  else Ret false.

(** [get HasSchemasCombinationKeywords] *)
Definition HasSchemasCombinationKeywords (this : SchemaBuilder) : outcome bool :=
  oneOf <- has_prop "oneOf" (schemaObject this) ;;
  if oneOf then Ret true else
  allOf <- has_prop "allOf" (schemaObject this) ;;
  if allOf then Ret true else
  anyOf <- has_prop "anyOf" (schemaObject this) ;;
  if anyOf then Ret true else
  has_prop "not" (schemaObject this).

(** [get IsSimpleObjectSchema] *)
Definition IsSimpleObjectSchema (this : SchemaBuilder) : outcome bool :=
  isObj <- IsObjectSchema this ;;
  if negb isObj then Ret false else
  additional <- HasAdditionalProperties this ;;
  if additional then Ret false else
  combination <- HasSchemasCombinationKeywords this ;;
  Ret (negb combination).

(** [get Properties] *)
Definition Properties (this : SchemaBuilder) : outcome (option (list string)) :=
  isObj <- IsObjectSchema this ;;
  combination <- (if negb isObj then Ret true else HasSchemasCombinationKeywords this) ;;
  if combination then Ret None else
  declared <- get_prop (schemaObject this) "properties" ;;
  Ret (Some (own_keys (if truthy declared then declared else JObj []))).

(** [get RequiredProperties]; [[...required]] spreads an array or a string. *)
Definition RequiredProperties (this : SchemaBuilder) : outcome (option (list value)) :=
  isObj <- IsObjectSchema this ;;
  combination <- (if negb isObj then Ret true else HasSchemasCombinationKeywords this) ;;
  if combination then Ret None else
  required <- get_prop (schemaObject this) "required" ;;
  if negb (truthy required) then Ret (Some []) else
  match required with
  | JArr l => Ret (Some l)
  | JStr s => Ret (Some (string_chars s))
  | _ => Throw TypeError
  end.

Definition simple_error (operation : string) : string :=
  "Schema Builder Error: '" ++ operation ++
  "' can only be used with a simple object schema (no additionalProperties, oneOf, anyOf, allOf or not)".

Definition pick_error : string :=
  "Schema Builder Error: 'pickProperties' can only be used with a simple object schema (no oneOf, anyOf, allOf or not)".

(** [PickProperties(properties)] *)
Definition PickProperties (this : SchemaBuilder) (properties : list string)
  : outcome SchemaBuilder :=
  isObj <- IsObjectSchema this ;;
  combination <- (if negb isObj then Ret true else HasSchemasCombinationKeywords this) ;;
  if combination then Throw (VError pick_error) else
  let schemaObject := CloneJSON (schemaObject this) in
  schemaObject <- default_prop schemaObject "properties" (JObj []) ;;
  declared <- get_prop schemaObject "properties" ;;
  propertiesMap <-
    foldM (fun propertiesMap property =>
             v <- get_prop declared property ;;
             set_prop propertiesMap property v)
      properties (JObj []) ;;
  schemaObject <- set_prop schemaObject "properties" propertiesMap ;;
  required <- get_prop schemaObject "required" ;;
  schemaObject <-
    (if truthy required then
       kept <- array_filter required
                 (fun r => existsb (fun property => is_string r property) properties) ;;
       set_prop schemaObject "required" kept
     else Ret schemaObject) ;;
  required <- get_prop schemaObject "required" ;;
  schemaObject <-
    (match required with
     | JArr [] => delete_prop schemaObject "required"
     | _ => Ret schemaObject
     end) ;;
  schemaObject <- set_prop schemaObject "additionalProperties" (JBool false) ;;
  new_SchemaBuilder schemaObject (validationConfig this).

(** [OmitProperties(properties)] *)
Definition OmitProperties (this : SchemaBuilder) (properties : list string)
  : outcome SchemaBuilder :=
  simple <- IsSimpleObjectSchema this ;;
  if negb simple then Throw (VError (simple_error "omitProperties")) else
  declared <- get_prop (schemaObject this) "properties" ;;
  let p := filter (fun k => negb (existsb (String.eqb k) properties))
             (own_keys (if truthy declared then declared else JObj [])) in
  PickProperties this p.

(** [RenameProperty(propertyName, newPropertyName)] *)
Definition RenameProperty (this : SchemaBuilder) (propertyName newPropertyName : string)
  : outcome SchemaBuilder :=
  simple <- IsSimpleObjectSchema this ;;
  if negb simple then Throw (VError (simple_error "renameProperty")) else
  let schemaObject := CloneJSON (schemaObject this) in
  schemaObject <- default_prop schemaObject "properties" (JObj []) ;;
  declared <- get_prop schemaObject "properties" ;;
  present <- has_prop propertyName declared ;;
  schemaObject <-
    (if present then
       moved <- get_prop declared propertyName ;;
       schemaObject <- set_prop2 schemaObject "properties" newPropertyName moved ;;
       declared <- get_prop schemaObject "properties" ;;
       declared <- delete_prop declared propertyName ;;
       schemaObject <- set_prop schemaObject "properties" declared ;;
       required <- get_prop schemaObject "required" ;;
       listed <- (if truthy required
                  then includes_string required propertyName else Ret false) ;;
       if listed then
         required <- array_splice_string required propertyName ;;
         required <- array_push required (JStr newPropertyName) ;;
         set_prop schemaObject "required" required
       else Ret schemaObject
     else Ret schemaObject) ;;
  new_SchemaBuilder schemaObject (validationConfig this).

(** One round of the loop of [MergeProperties] over the properties of the
    other schema. *)
Definition MergeProperties_step (schemaObject2 : value)
  (schemaObject1 : value) (propertyKey : string) : outcome value :=
  properties1 <- get_prop schemaObject1 "properties" ;;
  properties2 <- get_prop schemaObject2 "properties" ;;
  present <- has_prop propertyKey properties1 ;;
  if negb present then
    property2 <- get_prop properties2 propertyKey ;;
    schemaObject1 <- set_prop2 schemaObject1 "properties" propertyKey property2 ;;
    required2 <- get_prop schemaObject2 "required" ;;
    listed2 <- (if truthy required2
                then includes_string required2 propertyKey else Ret false) ;;
    if listed2 then
      schemaObject1 <- default_prop schemaObject1 "required" (JArr []) ;;
      required1 <- get_prop schemaObject1 "required" ;;
      required1 <- array_push required1 (JStr propertyKey) ;;
      set_prop schemaObject1 "required" required1
    else Ret schemaObject1
  else
    property1 <- get_prop properties1 propertyKey ;;
    property2 <- get_prop properties2 propertyKey ;;
    schemaObject1 <- set_prop2 schemaObject1 "properties" propertyKey
                       (JObj [("anyOf", JArr [property1; property2])]) ;;
    required1 <- get_prop schemaObject1 "required" ;;
    listed1 <- (if truthy required1
                then includes_string required1 propertyKey else Ret false) ;;
    if negb listed1 then Ret schemaObject1 else
    required2 <- get_prop schemaObject2 "required" ;;
    listed2 <- (if truthy required2
                then includes_string required2 propertyKey else Ret false) ;;
    if listed2 then Ret schemaObject1 else
    kept <- array_filter required1 (fun p => negb (is_string p propertyKey)) ;;
    set_prop schemaObject1 "required" kept.

(** [MergeProperties(schema)] *)
Definition MergeProperties (this schema : SchemaBuilder) : outcome SchemaBuilder :=
  simple <- IsSimpleObjectSchema this ;;
  if negb simple then Throw (VError (simple_error "mergeProperties")) else
  let schemaObject1 := CloneJSON (schemaObject this) in
  let schemaObject2 := CloneJSON (schemaObject schema) in
  properties2 <- get_prop schemaObject2 "properties" ;;
  schemaObject1 <-
    (if truthy properties2 then
       schemaObject1 <- default_prop schemaObject1 "properties" (JObj []) ;;
       foldM (MergeProperties_step schemaObject2) (own_keys properties2) schemaObject1
     else Ret schemaObject1) ;;
  new_SchemaBuilder schemaObject1 (validationConfig this).

(** The body of the loop of [ToNullable] for one optional property. *)
Definition ToNullable_property (propertyValue : value) : outcome value :=
  typed <- (if is_boolean propertyValue then Ret false
            else has_prop "type" propertyValue) ;;
  if typed then
    type <- get_prop propertyValue "type" ;;
    propertyValue <-
      (match type with
       | JArr types =>
           if negb (existsb (fun t => is_string t "null") types)
           then set_prop propertyValue "type" (JArr (types ++ [JStr "null"]))
           else Ret propertyValue
       | JStr t =>
           if negb (t =? "null")
           then set_prop propertyValue "type" (JArr [JStr t; JStr "null"])
           else Ret propertyValue
       | _ => Ret propertyValue
       end) ;;
    enumerated <- has_prop "enum" propertyValue ;;
    if negb enumerated then Ret propertyValue else
    enum <- get_prop propertyValue "enum" ;;
    match enum with
    | JUndef | JNull => Ret propertyValue
    | JArr values =>
        if negb (existsb is_null values)
        then set_prop propertyValue "enum" (JArr (values ++ [JNull]))
        else Ret propertyValue
    | JStr _ => Throw Unmodelled
    | _ => Throw TypeError
    end
  else
    Ret (JObj [("anyOf", JArr [propertyValue; JObj [("type", JStr "null")]])]).

(** [ToNullable()] *)
Definition ToNullable (this : SchemaBuilder) : outcome SchemaBuilder :=
  simple <- IsSimpleObjectSchema this ;;
  if negb simple then Throw (VError (simple_error "toNullable")) else
  let schemaObject := CloneJSON (schemaObject this) in
  required <- get_prop schemaObject "required" ;;
  let required := if truthy required then required else JArr [] in
  declared <- get_prop schemaObject "properties" ;;
  schemaObject <-
    foldM (fun schemaObject propertyName =>
             listed <- includes_string required propertyName ;;
             if listed then Ret schemaObject else
             declared <- get_prop schemaObject "properties" ;;
             propertyValue <- get_prop declared propertyName ;;
             widened <- ToNullable_property propertyValue ;;
             set_prop2 schemaObject "properties" propertyName widened)
      (own_keys declared) schemaObject ;;
  new_SchemaBuilder schemaObject (validationConfig this).

(** ** Object identity: the accessors that hand out nested nodes

    The operations above work on a clone and are functions of the
    document's content.  [GetSubschema] and [GetItemsSubschema] pass a
    nested node to the constructor as it is, so for them the identity of
    the node matters.  A document allocated by a literal or by a clone is
    a tree owned by one root of the store; a nested object is named by its
    root and the keys leading to it.  Two builders alias exactly when they
    hold the same reference. *)

Module Heap.

Record reference : Type := {
  root : nat;
  path : list string
}.

(** What a variable holds: a primitive, or a reference to an object. *)
Inductive handle : Type :=
| Prim (v : value)
| Obj (r : reference).

Definition store : Type := list value.

Fixpoint get_path (v : value) (p : list string) : outcome value :=
  match p with
  | [] => Ret v
  | k :: p' => x <- get_prop v k ;; get_path x p'
  end.

(** The content found behind a reference. *)
Definition deref (st : store) (r : reference) : outcome value :=
  match nth_error st (root r) with
  | Some v => get_path v (path r)
  | None => Throw Unmodelled
  end.

Definition read (st : store) (h : handle) : outcome value :=
  match h with
  | Prim v => Ret v
  | Obj r => deref st r
  end.

(** [o[k]] as a variable holds it: an object by reference, a primitive by value. *)
Definition get_handle (st : store) (o : handle) (k : string) : outcome handle :=
  match o with
  | Prim v => x <- get_prop v k ;; Ret (Prim x)
  | Obj r =>
      v <- deref st r ;;
      x <- get_prop v k ;;
      match x with
      | JObj _ | JArr _ => Ret (Obj {| root := root r; path := path r ++ [k] |})
      | _ => Ret (Prim x)
      end
  end.

Fixpoint set_path (v : value) (p : list string) (k : string) (x : value)
  : outcome value :=
  match p with
  | [] => set_prop v k x
  | k' :: p' =>
      inner <- get_prop v k' ;;
      inner <- set_path inner p' k x ;;
      set_prop v k' inner
  end.

Fixpoint set_nth (n : nat) (v : value) (st : store) : store :=
  match st, n with
  | [], _ => []
  | _ :: rest, O => v :: rest
  | x :: rest, S n' => x :: set_nth n' v rest
  end.

(** [o[k] = x] in the store: the object behind [o] changes for every holder. *)
Definition write (st : store) (o : handle) (k : string) (x : value) : outcome store :=
  match o with
  | Prim _ => Throw TypeError
  | Obj r =>
      match nth_error st (root r) with
      | Some v =>
          v' <- set_path v (path r) k x ;;
          Ret (set_nth (root r) v' st)
      | None => Throw Unmodelled
      end
  end.

(** The content of a builder, on which the classification getters work. *)
Definition view (s : value) (config : option value) : SchemaBuilder :=
  {| schemaObject := s; validationConfig := config |}.

(** A builder object: it holds its schema by reference. *)
Record SchemaBuilder : Type := {
  schemaObject : handle;
  validationConfig : option value
}.

(** [get Schema]: the schema object itself. *)
Definition Schema (this : SchemaBuilder) : handle := schemaObject this.


(** [new SchemaBuilder(schemaObject)]: the traversal reads, the handle is kept. *)
Definition new_SchemaBuilder (st : store) (schemaObject : handle)
  (validationConfig : option value) : outcome SchemaBuilder :=
  s <- read st schemaObject ;;
  _ <- ThroughJsonSchema s reject_ref ;;
  Ret {| schemaObject := schemaObject; validationConfig := validationConfig |}.

(** [GetSubschema(propertyName)] *)
Definition GetSubschema (st : store) (this : SchemaBuilder) (propertyName : string)
  : outcome SchemaBuilder :=
  s <- read st (schemaObject this) ;;
  simple <- IsSimpleObjectSchema (view s (validationConfig this)) ;;
  usable <-
    (if negb simple then Ret false
     else if negb (truthy s) then Ret false
     else if is_boolean s then Ret false
     else properties <- get_prop s "properties" ;;
          Ret (truthy properties)) ;;
  if negb usable then Throw (VError (simple_error "getSubschema")) else
  properties <- get_handle st (schemaObject this) "properties" ;;
  property <- get_handle st properties propertyName ;;
  new_SchemaBuilder st property None.

Definition items_error : string :=
  "Schema Builder Error: 'getItemsSubschema' can only be used with an array schema with non-array items".

(** [GetItemsSubschema()] *)
Definition GetItemsSubschema (st : store) (this : SchemaBuilder)
  : outcome SchemaBuilder :=
  s <- read st (schemaObject this) ;;
  usable <-
    (if negb (truthy s) then Ret false else
     type <- get_prop s "type" ;;
     if negb (is_string type "array") then Ret false else
     items <- get_prop s "items" ;;
     if negb (truthy items) then Ret false else
     Ret (match items with JArr _ => false | _ => true end)) ;;
  if negb usable then Throw (VError items_error) else
  items <- get_handle st (schemaObject this) "items" ;;
  new_SchemaBuilder st items None.

End Heap.

(** ** Vocabulary of the properties *)

(** The nested schemas [ThroughJsonSchema] descends into from a node, in
    the order of the source: property values, the branches of [oneOf],
    [allOf] and [anyOf], [items], [not], a schema under
    [additionalProperties]; from an array, its elements. *)
Definition property_children (fs : list (string * value)) : list value :=
  match lookup "properties" fs with
  | Some p => if truthy p then own_values p else []
  | None => []
  end.

Definition branch_children (fs : list (string * value)) (keyword : string) : list value :=
  match lookup keyword fs with
  | Some (JArr l) => l
  | _ => []
  end.

Definition node_children (fs : list (string * value)) (keyword : string) : list value :=
  match lookup keyword fs with
  | Some x => if truthy x then [x] else []
  | None => []
  end.

Definition additional_children (fs : list (string * value)) : list value :=
  match lookup "additionalProperties" fs with
  | Some x => if truthy x && negb (is_boolean x) then [x] else []
  | None => []
  end.

Definition schema_children (s : value) : list value :=
  match s with
  | JArr l => l
  | JObj fs =>
      property_children fs ++ branch_children fs "oneOf" ++
      branch_children fs "allOf" ++ branch_children fs "anyOf" ++
      node_children fs "items" ++ node_children fs "not" ++
      additional_children fs
  | _ => []
  end.

(** [visited s n]: the traversal of [s] calls the action on the node [n]. *)
Inductive visited : value -> value -> Prop :=
| visited_here fs : visited (JObj fs) (JObj fs)
| visited_below s x n : In x (schema_children s) -> visited x n -> visited s n.

(** [inside v n]: [n] occurs somewhere in the document [v]. *)
Inductive inside : value -> value -> Prop :=
| inside_here v : inside v v
| inside_element l x n : In x l -> inside x n -> inside (JArr l) n
| inside_field fs k x n : In (k, x) fs -> inside x n -> inside (JObj fs) n.

(** The node has a [$ref] keyword. *)
Definition carries_ref (n : value) : bool :=
  match n with
  | JObj fs => has_key "$ref" fs
  | _ => false
  end.

(** [oneOf], [allOf] and [anyOf] hold arrays, as the type [JSONSchema] says. *)
Definition branches_typed (n : value) : bool :=
  match n with
  | JObj fs =>
      forallb (fun keyword =>
                 match lookup keyword fs with
                 | Some (JArr _) => true
                 | Some v => negb (truthy v)
                 | None => true
                 end) ["oneOf"; "allOf"; "anyOf"]
  | _ => true
  end.

(** [properties] is absent or an object, [required] absent or an array:
    the shape the type [JSONSchema] gives an object schema. *)
Definition typed_object (fs : list (string * value)) : bool :=
  match lookup "properties" fs with
  | None | Some (JObj _) => true
  | _ => false
  end &&
  match lookup "required" fs with
  | None | Some (JArr _) => true
  | _ => false
  end.

(** The declared properties of an object schema. *)
Definition declared (fs : list (string * value)) : list (string * value) :=
  match lookup "properties" fs with
  | Some (JObj pfs) => pfs
  | _ => []
  end.

(** The entries of the required list of an object schema. *)
Definition required_list (fs : list (string * value)) : list value :=
  match lookup "required" fs with
  | Some (JArr l) => l
  | _ => []
  end.

(** [name] is listed (as a string) in a required list. *)
Definition listed (name : string) (l : list value) : bool :=
  existsb (fun x => is_string x name) l.

(** The traversal of [s] meets a node that has a [$ref] keyword. *)
Definition reaches_ref (s : value) : Prop :=
  exists n, visited s n /\ carries_ref n = true.

(** The constructor accepts the document. *)
Definition constructible (s : value) : Prop :=
  ThroughJsonSchema s reject_ref = Ret tt.

(** A builder wrapping the object [fs]. *)
Definition builder (fs : list (string * value)) (config : option value) : SchemaBuilder :=
  {| schemaObject := JObj fs; validationConfig := config |}.

(** The property map [PickProperties] builds from the declared
    properties [pfs]: [propertiesMap[property] = properties[property]]
    for each requested name, in order. *)
Definition picked (names : list string) (pfs : list (string * value))
  : list (string * value) :=
  fold_left (fun propertiesMap property =>
               assoc_set property
                 (match lookup property pfs with Some v => v | None => JUndef end)
                 propertiesMap)
    names [].

(** The required entries [PickProperties] keeps. *)
Definition kept_required (names : list string) (required : list value) : list value :=
  filter (fun r => existsb (fun property => is_string r property) names) required.

(** The value read by [schemaObject.required]. *)
Definition required_value (fs : list (string * value)) : value :=
  match lookup "required" fs with Some v => v | None => JUndef end.

(** [required] is absent or an array. *)
Definition typed_required (fs : list (string * value)) : bool :=
  match lookup "required" fs with
  | None | Some (JArr _) => true
  | _ => false
  end.

(** The schema [{anyOf: [a, b]}]. *)
Definition anyOf_pair (a b : value) : value :=
  JObj [("anyOf", JArr [a; b])].

(** What the loop of [MergeProperties] keeps true of [schemaObject1]: it
    is an object schema with declared properties the constructor accepts,
    and differs from the receiver's clone [fs1] in [properties] and
    [required] only. *)
Definition merge_invariant (fs1 f : list (string * value)) : Prop :=
  typed_object f = true /\
  lookup "properties" f = Some (JObj (declared f)) /\
  Forall constructible (map snd (declared f)) /\
  (forall k, k <> "properties" -> k <> "required" -> lookup k f = lookup k fs1).

(** The schema [{type: "null"}]. *)
Definition null_schema : value := JObj [("type", JStr "null")].

(** The schema [ToNullable] leaves in place of an optional property [v]:
    the content of [ToNullable_property], as a function. *)
Definition nullable_type (vf : list (string * value)) : list (string * value) :=
  match lookup "type" vf with
  | Some (JArr types) =>
      if negb (listed "null" types)
      then assoc_set "type" (JArr (types ++ [JStr "null"])) vf else vf
  | Some (JStr t) =>
      if negb (t =? "null")
      then assoc_set "type" (JArr [JStr t; JStr "null"]) vf else vf
  | _ => vf
  end.

Definition nullable_enum (vf : list (string * value)) : list (string * value) :=
  match lookup "enum" vf with
  | Some (JArr values) =>
      if negb (existsb is_null values)
      then assoc_set "enum" (JArr (values ++ [JNull])) vf else vf
  | _ => vf
  end.

Definition nullable_schema (v : value) : value :=
  match v with
  | JObj vf =>
      if has_key "type" vf then JObj (nullable_enum (nullable_type vf))
      else anyOf_pair v null_schema
  | _ => anyOf_pair v null_schema
  end.

(** A property schema as the type [JSONSchema] has it: a boolean, or an
    object whose [enum], when it has a [type], is absent, [null] or an array. *)
Definition typed_property (v : value) : bool :=
  match v with
  | JBool _ => true
  | JObj vf =>
      if has_key "type" vf then
        match lookup "enum" vf with
        | None | Some JUndef | Some JNull | Some (JArr _) => true
        | _ => false
        end
      else true
  | _ => false
  end.

(** What the loop of [ToNullable] keeps true of [schemaObject]. *)
Definition nullable_invariant (fs1 f : list (string * value)) : Prop :=
  merge_invariant fs1 f /\ lookup "required" f = lookup "required" fs1.

(** [walks root path r]: following the keys of [path] from [root], every
    value met is truthy, and the last one is [r]. *)
Inductive walks : value -> list string -> value -> Prop :=
| walks_nil root : walks root [] root
| walks_cons root key v rest r :
    get_prop root key = Ret v -> truthy v = true -> walks v rest r ->
    walks root (key :: rest) r.

(** [c2] returns whatever [c1] returns. *)
Definition returns_more {A : Type} (c1 c2 : outcome A) : Prop :=
  forall a, c1 = Ret a -> c2 = Ret a.

(** The value read by [o[k]] in an object with the fields [fs]. *)
Definition field (k : string) (fs : list (string * value)) : value :=
  match lookup k fs with Some v => v | None => JUndef end.

(** ** Sample documents *)

(** A document whose only [$ref] sits under [definitions]. *)
Definition ref_under_definitions : value :=
  JObj [("type", JStr "object");
        ("definitions", JObj [("A", JObj [("$ref", JStr "#/definitions/B")])])].

(** A document with a [$ref] in a property. *)
Definition ref_in_property : value :=
  JObj [("type", JStr "object");
        ("properties", JObj [("a", JObj [("$ref", JStr "#/definitions/A")])])].

(** An empty object schema, as [EmptySchema()] builds it, and an object
    schema that allows additional properties. *)
Definition empty_schema : value :=
  JObj [("type", JStr "object"); ("additionalProperties", JBool false)].

Definition open_schema : value :=
  JObj [("type", JStr "object");
        ("properties", JObj [("a", JObj [("type", JStr "string")])]);
        ("additionalProperties", JBool true)].

(** A simple object schema with three properties, [a] required. *)
Definition abc_schema : list (string * value) :=
  [("type", JStr "object");
   ("properties",
    JObj [("a", JObj [("type", JStr "string")]);
          ("b", JObj [("type", JStr "integer")]);
          ("c", JObj [("enum", JArr [JNum 1; JNum 2])])]);
   ("required", JArr [JStr "a"]);
   ("additionalProperties", JBool false)].

(** A second simple object schema: [a] optional, [b] and [d] required. *)
Definition abd_schema : list (string * value) :=
  [("type", JStr "object");
   ("properties",
    JObj [("a", JObj [("type", JStr "number")]);
          ("b", JObj [("type", JStr "string")]);
          ("d", JObj [("type", JStr "string")])]);
   ("required", JArr [JStr "b"; JStr "d"]);
   ("additionalProperties", JBool false)].

(** A simple object schema whose optional property [p] has the scalar
    type ["null"], and one whose optional property is an integer. *)
Definition null_property_schema : list (string * value) :=
  [("type", JStr "object");
   ("properties", JObj [("p", JObj [("type", JStr "null")])]);
   ("additionalProperties", JBool false)].

Definition integer_property_schema : list (string * value) :=
  [("type", JStr "object");
   ("properties", JObj [("p", JObj [("type", JStr "integer")]);
                        ("q", JObj [("type", JStr "string")])]);
   ("required", JArr [JStr "q"]);
   ("additionalProperties", JBool false)].

(** A tuple schema with one position and [minItems] 2, and the tuple
    schema of the specification's example. *)
Definition short_tuple : value :=
  JObj [("type", JStr "array"); ("items", JArr [JObj [("default", JNum 1)]]);
        ("minItems", JNum 2)].

Definition example_tuple : value :=
  JObj [("type", JStr "array");
        ("items", JArr [JObj [("default", JNum 1)]; JObj []]);
        ("minItems", JNum 1)].

(** A document and a caller-supplied map that both define [A]. *)
Definition document_with_definitions : value :=
  JObj [("$ref", JStr "#/definitions/A");
        ("definitions", JObj [("A", JObj [("default", JStr "document")])])].

Definition caller_definitions : value :=
  JObj [("A", JObj [("default", JStr "caller")])].

(** A store holding one document, and a builder on it. *)
Definition one_document_store : Heap.store :=
  [JObj [("type", JStr "object");
         ("properties", JObj [("a", JObj [("type", JStr "string")])]);
         ("additionalProperties", JBool false)]].

Definition first_document : Heap.SchemaBuilder :=
  {| Heap.schemaObject := Heap.Obj {| Heap.root := 0; Heap.path := [] |};
     Heap.validationConfig := None |}.

(** A store holding an array schema. *)
Definition one_array_store : Heap.store :=
  [JObj [("type", JStr "array"); ("items", JObj [("type", JStr "string")])]].

(** ** Further vocabulary *)

(** No [undefined] occurs in the value: what JSON can carry. *)
Fixpoint undefined_free (v : value) : bool :=
  match v with
  | JUndef => false
  | JArr l => forallb undefined_free l
  | JObj fs => forallb (fun kv => undefined_free (snd kv)) fs
  | _ => true
  end.

(** ** [src/utils.ts]: [SetRequired] *)

(** [delete o.k] for a keyword [k] (neither an index nor ["length"]):
    only an object can have such an own property; deleting from another
    value changes nothing, deleting from [null] or [undefined] throws. *)
Definition delete_keyword (o : value) (k : string) : outcome value :=
  match o with
  | JObj fs => Ret (JObj (assoc_remove k fs))
  | JUndef | JNull => Throw TypeError
  | _ => Ret o
  end.

(** [SetRequired(schema, required)] *)
Definition SetRequired (schema required : value) : outcome value :=
  empty <- (if negb (truthy required) then Ret true else
            len <- get_prop required "length" ;;
            Ret (match len with JNum 0 => true | _ => false end)) ;;
  if empty then delete_keyword schema "required"
  else set_prop schema "required" required.

(** ** [src/SchemaBuilder.ts]: the other property operations *)

(** [get Schema] *)
Definition Schema (this : SchemaBuilder) : value := schemaObject this.

(** [schemaObject.required = schemaObject.required || [];
     schemaObject.required.push(name)] *)
Definition push_required_name (schemaObject : value) (name : string) : outcome value :=
  schemaObject <- default_prop schemaObject "required" (JArr []) ;;
  required <- get_prop schemaObject "required" ;;
  required <- array_push required (JStr name) ;;
  set_prop schemaObject "required" required.

(** [schemaObject.required && schemaObject.required.indexOf(name) !== -1] *)
Definition lists_required (schemaObject : value) (name : string) : outcome bool :=
  required <- get_prop schemaObject "required" ;;
  if truthy required then includes_string required name else Ret false.

(** [schemaObject.required = schemaObject.required.filter((p) => p !== name)] *)
Definition unlist_required (schemaObject : value) (name : string) : outcome value :=
  required <- get_prop schemaObject "required" ;;
  kept <- array_filter required (fun p => negb (is_string p name)) ;;
  set_prop schemaObject "required" kept.

(** [_.difference(array, values)] for a list of strings [values]: the
    elements of [array] equal to none of them, in order; the empty array
    when [array] is no array-like object. *)
Definition difference (array : value) (values : list string) : outcome (list value) :=
  match array with
  | JArr l => Ret (filter (fun x => negb (existsb (fun s => is_string x s) values)) l)
  | JObj fs => if has_key "length" fs then Throw Unmodelled else Ret []
  | _ => Ret []
  end.

(** [SetOptionalProperties(properties)] *)
Definition SetOptionalProperties (this : SchemaBuilder) (properties : list string)
  : outcome SchemaBuilder :=
  simple <- IsSimpleObjectSchema this ;;
  if negb simple then Throw (VError (simple_error "setOptionalProperties")) else
  let schemaObject := CloneJSON (schemaObject this) in
  required <- get_prop schemaObject "required" ;;
  required <- difference (match required with
                          | JUndef | JNull => JArr []
                          | _ => required
                          end) properties ;;
  schemaObject <-
    foldM (fun schemaObject optionalProperty =>
             declared <- get_prop schemaObject "properties" ;;
             property <- (match declared with
                          | JUndef | JNull => Ret JUndef
                          | _ => get_prop declared optionalProperty
                          end) ;;
             if truthy property && negb (is_boolean property) then
               match property with
               | JObj pf =>
                   set_prop2 schemaObject "properties" optionalProperty
                     (JObj (assoc_remove "default" pf))
               | _ => Ret schemaObject
               end
             else Ret schemaObject)
      properties schemaObject ;;
  schemaObject <- SetRequired schemaObject (JArr required) ;;
  new_SchemaBuilder schemaObject (validationConfig this).

(** [SetRequiredProperties(properties)] *)
Definition SetRequiredProperties (this : SchemaBuilder) (properties : list string)
  : outcome SchemaBuilder :=
  simple <- IsSimpleObjectSchema this ;;
  if negb simple then Throw (VError (simple_error "setRequiredProperties")) else
  let schemaObject := CloneJSON (schemaObject this) in
  schemaObject <-
    foldM (fun schemaObject property =>
             schemaObject <- default_prop schemaObject "required" (JArr []) ;;
             required <- get_prop schemaObject "required" ;;
             listed <- includes_string required property ;;
             if listed then Ret schemaObject else
             required <- array_push required (JStr property) ;;
             set_prop schemaObject "required" required)
      properties schemaObject ;;
  new_SchemaBuilder schemaObject (validationConfig this).

(** [ToOptionals()]; the loop deletes [default] in each property value
    in place. *)
Definition ToOptionals (this : SchemaBuilder) : outcome SchemaBuilder :=
  let schemaObject := CloneJSON (schemaObject this) in
  schemaObject <- delete_keyword schemaObject "required" ;;
  declared <- get_prop schemaObject "properties" ;;
  schemaObject <-
    foldM (fun schemaObject property =>
             declared <- get_prop schemaObject "properties" ;;
             child <- get_prop declared property ;;
             match child with
             | JObj cf =>
                 set_prop2 schemaObject "properties" property
                   (JObj (assoc_remove "default" cf))
             | JUndef | JNull => Throw TypeError
             | _ => Ret schemaObject
             end)
      (own_keys declared) schemaObject ;;
  new_SchemaBuilder schemaObject (validationConfig this).

Definition add_error : string :=
  "Schema Builder Error: you can only add properties to an object schema".

Definition replace_error : string :=
  "Schema Builder Error: you can only replace properties of an object schema".

(** [${schemaObject.title || "this"}] *)
Definition schema_title (schemaObject : value) : outcome string :=
  title <- get_prop schemaObject "title" ;;
  Ret (if truthy title then to_string title else "this").

Definition exists_error (propertyName title : string) : string :=
  "Schema Builder Error: '" ++ propertyName ++ "' already exists in " ++ title ++ " schema".

Definition additional_error (title : string) : string :=
  "Schema Builder Error: additionalProperties is already set in " ++ title ++ " schema.".

(** [isRequired === true || isRequired === undefined] *)
Definition required_flag (isRequired : option bool) : bool :=
  match isRequired with
  | Some b => b
  | None => true
  end.

(** [AddProperty(propertyName, schemaBuilder, isRequired)] *)
Definition AddProperty (this : SchemaBuilder) (propertyName : string)
  (schemaBuilder : SchemaBuilder) (isRequired : option bool) : outcome SchemaBuilder :=
  isObj <- IsObjectSchema this ;;
  if negb isObj then Throw (VError add_error) else
  let schemaObject := CloneJSON (schemaObject this) in
  schemaObject <- default_prop schemaObject "properties" (JObj []) ;;
  declared <- get_prop schemaObject "properties" ;;
  present <- has_prop propertyName declared ;;
  if present then
    title <- schema_title schemaObject ;;
    Throw (VError (exists_error propertyName title))
  else
  schemaObject <- set_prop2 schemaObject "properties" propertyName
                    (CloneJSON (Schema schemaBuilder)) ;;
  schemaObject <- (if required_flag isRequired
                   then push_required_name schemaObject propertyName
                   else Ret schemaObject) ;;
  new_SchemaBuilder schemaObject (validationConfig this).

(** [GetSubschema(propertyName)] on the content of the document; which
    object the returned builder holds is stated in [Heap]. *)
Definition GetSubschema (this : SchemaBuilder) (propertyName : string)
  : outcome SchemaBuilder :=
  simple <- IsSimpleObjectSchema this ;;
  usable <-
    (if negb simple then Ret false
     else if negb (truthy (Schema this)) then Ret false
     else if is_boolean (Schema this) then Ret false
     else properties <- get_prop (Schema this) "properties" ;;
          Ret (truthy properties)) ;;
  if negb usable then Throw (VError (simple_error "getSubschema")) else
  properties <- get_prop (Schema this) "properties" ;;
  property <- get_prop properties propertyName ;;
  new_SchemaBuilder property None.

(** The second argument of [ReplaceProperty]: a builder, or a function
    from the builder of the current property to a builder. *)
Inductive resolver : Type :=
| Given (schemaBuilder : SchemaBuilder)
| Resolve (f : SchemaBuilder -> outcome SchemaBuilder).

(** [ReplaceProperty(propertyName, schemaBuilderResolver, isRequired)] *)
Definition ReplaceProperty (this : SchemaBuilder) (propertyName : string)
  (schemaBuilderResolver : resolver) (isRequired : option bool) : outcome SchemaBuilder :=
  isObj <- IsObjectSchema this ;;
  if negb isObj then Throw (VError replace_error) else
  let schemaObject := CloneJSON (schemaObject this) in
  schemaObject <- default_prop schemaObject "properties" (JObj []) ;;
  required <- get_prop schemaObject "required" ;;
  schemaObject <- (if truthy required
                   then unlist_required schemaObject propertyName
                   else Ret schemaObject) ;;
  schemaBuilder <- (match schemaBuilderResolver with
                    | Given schemaBuilder => Ret schemaBuilder
                    | Resolve f =>
                        current <- GetSubschema this propertyName ;;
                        f current
                    end) ;;
  schemaObject <- set_prop2 schemaObject "properties" propertyName
                    (CloneJSON (Schema schemaBuilder)) ;;
  schemaObject <- (if required_flag isRequired
                   then push_required_name schemaObject propertyName
                   else Ret schemaObject) ;;
  new_SchemaBuilder schemaObject (validationConfig this).

(** [AddOrReplaceProperty(propertyName, schemaBuilder, isRequired)] *)
Definition AddOrReplaceProperty (this : SchemaBuilder) (propertyName : string)
  (schemaBuilder : SchemaBuilder) (isRequired : option bool) : outcome SchemaBuilder :=
  ReplaceProperty this propertyName (Given schemaBuilder) isRequired.

(** [AddAdditionalProperties(schemaBuilder)] *)
Definition AddAdditionalProperties (this : SchemaBuilder)
  (schemaBuilder : option SchemaBuilder) : outcome SchemaBuilder :=
  additionalProperties <- get_prop (schemaObject this) "additionalProperties" ;;
  if truthy additionalProperties then
    title <- schema_title (schemaObject this) ;;
    Throw (VError (additional_error title))
  else
  let schemaObject := CloneJSON (schemaObject this) in
  schemaObject <- set_prop schemaObject "additionalProperties"
                    (match schemaBuilder with
                     | Some schemaBuilder => CloneJSON (Schema schemaBuilder)
                     | None => JBool true
                     end) ;;
  new_SchemaBuilder schemaObject (validationConfig this).

Definition pick_additional_error : string :=
  "Schema Builder Error: 'pickPropertiesIncludingAdditonalProperties' can only be used with a simple object schema with additionalProperties (no oneOf, anyOf, allOf or not)".

(** [PickAdditionalProperties(properties, additionalProperties)]; the
    second argument is optional. *)
Definition PickAdditionalProperties (this : SchemaBuilder) (properties : list string)
  (additionalProperties : option (list string)) : outcome SchemaBuilder :=
  isObj <- IsObjectSchema this ;;
  refused <- (if negb isObj then Ret true else
              additional <- HasAdditionalProperties this ;;
              if negb additional then Ret true else HasSchemasCombinationKeywords this) ;;
  if refused then Throw (VError pick_additional_error) else
  let schemaObject := CloneJSON (schemaObject this) in
  additionalProps <- get_prop schemaObject "additionalProperties" ;;
  schemaObject <- default_prop schemaObject "properties" (JObj []) ;;
  declared <- get_prop schemaObject "properties" ;;
  propertiesMap <-
    foldM (fun propertiesMap property =>
             v <- get_prop declared property ;;
             set_prop propertiesMap property v)
      properties (JObj []) ;;
  schemaObject <- set_prop schemaObject "properties" propertiesMap ;;
  required <- get_prop schemaObject "required" ;;
  schemaObject <-
    (if truthy required then
       kept <- array_filter required
                 (fun r => existsb (fun property => is_string r property) properties) ;;
       set_prop schemaObject "required" kept
     else Ret schemaObject) ;;
  required <- get_prop schemaObject "required" ;;
  schemaObject <-
    (match required with
     | JArr [] => delete_prop schemaObject "required"
     | _ => Ret schemaObject
     end) ;;
  schemaObject <-
    (match additionalProperties with
     | None =>
         set_prop schemaObject "additionalProperties"
           (if truthy additionalProps then additionalProps else JBool true)
     | Some [] => set_prop schemaObject "additionalProperties" (JBool false)
     | Some names =>
         schemaObject <- set_prop schemaObject "additionalProperties" (JBool false) ;;
         schemaObject <- default_prop schemaObject "required" (JArr []) ;;
         if truthy additionalProps then
           foldM (fun schemaObject additionalProperty =>
                    schemaObject <-
                      set_prop2 schemaObject "properties" additionalProperty
                        (if is_boolean additionalProps then JObj []
                         else CloneJSON additionalProps) ;;
                    required <- get_prop schemaObject "required" ;;
                    required <- array_push required (JStr additionalProperty) ;;
                    set_prop schemaObject "required" required)
             names schemaObject
         else Ret schemaObject
     end) ;;
  new_SchemaBuilder schemaObject (validationConfig this).

(** One round of the loop of [IntersectProperties]. *)
Definition IntersectProperties_step (schemaObject2 : value)
  (schemaObject1 : value) (propertyKey : string) : outcome value :=
  properties1 <- get_prop schemaObject1 "properties" ;;
  properties2 <- get_prop schemaObject2 "properties" ;;
  present <- has_prop propertyKey properties1 ;;
  if negb present then
    property2 <- get_prop properties2 propertyKey ;;
    schemaObject1 <- set_prop2 schemaObject1 "properties" propertyKey property2 ;;
    listed2 <- lists_required schemaObject2 propertyKey ;;
    if listed2 then push_required_name schemaObject1 propertyKey
    else Ret schemaObject1
  else
    property1 <- get_prop properties1 propertyKey ;;
    property2 <- get_prop properties2 propertyKey ;;
    schemaObject1 <- set_prop2 schemaObject1 "properties" propertyKey
                       (JObj [("allOf", JArr [property1; property2])]) ;;
    listed2 <- lists_required schemaObject2 propertyKey ;;
    if negb listed2 then Ret schemaObject1 else
    listed1 <- lists_required schemaObject1 propertyKey ;;
    if listed1 then Ret schemaObject1
    else push_required_name schemaObject1 propertyKey.

(** [IntersectProperties(schema)] *)
Definition IntersectProperties (this schema : SchemaBuilder) : outcome SchemaBuilder :=
  simple <- IsSimpleObjectSchema this ;;
  if negb simple then Throw (VError (simple_error "intersectProperties")) else
  let schemaObject1 := CloneJSON (schemaObject this) in
  let schemaObject2 := CloneJSON (schemaObject schema) in
  properties2 <- get_prop schemaObject2 "properties" ;;
  schemaObject1 <-
    (if truthy properties2 then
       schemaObject1 <- default_prop schemaObject1 "properties" (JObj []) ;;
       foldM (IntersectProperties_step schemaObject2) (own_keys properties2) schemaObject1
     else Ret schemaObject1) ;;
  new_SchemaBuilder schemaObject1 (validationConfig this).

(** One round of the loop of [OverwriteProperties]. *)
Definition OverwriteProperties_step (schemaObject2 : value)
  (schemaObject1 : value) (propertyKey : string) : outcome value :=
  properties1 <- get_prop schemaObject1 "properties" ;;
  properties2 <- get_prop schemaObject2 "properties" ;;
  present <- has_prop propertyKey properties1 ;;
  if negb present then
    property2 <- get_prop properties2 propertyKey ;;
    schemaObject1 <- set_prop2 schemaObject1 "properties" propertyKey property2 ;;
    listed2 <- lists_required schemaObject2 propertyKey ;;
    if listed2 then push_required_name schemaObject1 propertyKey
    else Ret schemaObject1
  else
    property2 <- get_prop properties2 propertyKey ;;
    schemaObject1 <- set_prop2 schemaObject1 "properties" propertyKey property2 ;;
    listed1 <- lists_required schemaObject1 propertyKey ;;
    schemaObject1 <- (if listed1 then unlist_required schemaObject1 propertyKey
                      else Ret schemaObject1) ;;
    listed2 <- lists_required schemaObject2 propertyKey ;;
    if listed2 then push_required_name schemaObject1 propertyKey
    else Ret schemaObject1.

(** [OverwriteProperties(schema)] *)
Definition OverwriteProperties (this schema : SchemaBuilder) : outcome SchemaBuilder :=
  simple <- IsSimpleObjectSchema this ;;
  if negb simple then Throw (VError (simple_error "overwriteProperties")) else
  let schemaObject1 := CloneJSON (schemaObject this) in
  let schemaObject2 := CloneJSON (schemaObject schema) in
  properties2 <- get_prop schemaObject2 "properties" ;;
  schemaObject1 <-
    (if truthy properties2 then
       schemaObject1 <- default_prop schemaObject1 "properties" (JObj []) ;;
       foldM (OverwriteProperties_step schemaObject2) (own_keys properties2) schemaObject1
     else Ret schemaObject1) ;;
  new_SchemaBuilder schemaObject1 (validationConfig this).

(** [get IsArraySchema] *)
Definition IsArraySchema (this : SchemaBuilder) : outcome bool :=
  type <- get_prop (schemaObject this) "type" ;;
  if is_string type "array" then
    declared <- has_prop "properties" (schemaObject this) ;;
    Ret (negb declared)
  else Ret false.

(** [get OptionalProperties]; [required.indexOf(property)] compares with
    strict equality. *)
Definition OptionalProperties (this : SchemaBuilder) : outcome (option (list string)) :=
  properties <- Properties this ;;
  required <- RequiredProperties this ;;
  match properties with
  | Some properties =>
      Ret (Some (filter (fun property =>
                           match required with
                           | Some required =>
                               negb (existsb (fun r => is_string r property) required)
                           | None => false
                           end) properties))
  | None => Ret None
  end.

(** ** Further sample documents *)

(** The fields of an object schema that allows additional properties. *)
Definition open_schema_fields : list (string * value) :=
  [("type", JStr "object");
   ("properties", JObj [("a", JObj [("type", JStr "string")])]);
   ("additionalProperties", JBool true)].

(** ** Vocabulary of the further properties *)

(** Every name of [names] is an own key of [pfs] or is not inherited
    from the prototype: on these names [k in o] and [o[k]] are read from
    the own properties of the object [pfs]. *)
Definition own_or_plain (pfs : list (string * value)) (names : list string) : bool :=
  forallb (fun k => has_key k pfs || negb (inherited_name k)) names.

(** A property schema after [delete property.default]. *)
Definition without_default (v : value) : value :=
  match v with
  | JObj cf => JObj (assoc_remove "default" cf)
  | _ => v
  end.

Definition field_without_default (kv : string * value) : string * value :=
  (fst kv, without_default (snd kv)).

(** The document [ToOptionals] leaves: no [required], no [default] in a
    property. *)
Definition optionals (fs : list (string * value)) : list (string * value) :=
  match lookup "properties" fs with
  | Some (JObj pfs) =>
      assoc_set "properties" (JObj (map field_without_default pfs))
        (assoc_remove "required" fs)
  | _ => assoc_remove "required" fs
  end.

(** A value that is neither [undefined] nor [null]. *)
Definition is_present (v : value) : bool :=
  match v with
  | JUndef | JNull => false
  | _ => true
  end.

(** An object schema whose properties carry defaults. *)
Definition defaults_schema : list (string * value) :=
  [("type", JStr "object");
   ("properties",
    JObj [("a", JObj [("type", JStr "string"); ("default", JStr "x")]);
          ("b", JObj [("type", JStr "integer")])]);
   ("required", JArr [JStr "a"]);
   ("additionalProperties", JBool false)].

(** The loop of [SetRequiredProperties] on the fields of the working copy. *)
Definition with_required (names : list string) (f : list (string * value))
  : list (string * value) :=
  fold_left (fun f name =>
               if listed name (required_list f) then f
               else assoc_set "required" (JArr (required_list f ++ [JStr name])) f)
    names f.

(** A declared property after [SetOptionalProperties(names)]: its
    [default] is deleted when it is named. *)
Definition made_optional (names : list string) (kv : string * value) : string * value :=
  if existsb (String.eqb (fst kv)) names then field_without_default kv else kv.

(** One round of the loop of [SetOptionalProperties] on the declared
    properties. *)
Definition strip_named (name : string) (pfs : list (string * value))
  : list (string * value) :=
  match lookup name pfs with
  | Some (JObj pf) => assoc_set name (JObj (assoc_remove "default" pf)) pfs
  | _ => pfs
  end.

(** The required entries that are none of the given names. *)
Definition still_required (names : list string) (required : list value) : list value :=
  filter (fun x => negb (existsb (fun s => is_string x s) names)) required.

(** The schema [{allOf: [a, b]}]. *)
Definition allOf_pair (a b : value) : value :=
  JObj [("allOf", JArr [a; b])].

(** A simple object schema that shares no property with [abc_schema]. *)
Definition other_schema : list (string * value) :=
  [("type", JStr "object");
   ("properties",
    JObj [("x", JObj [("type", JStr "number")]);
          ("y", JObj [("type", JStr "string")])]);
   ("required", JArr [JStr "y"]);
   ("additionalProperties", JBool false)].

(** ** [src/SchemaBuilder.ts]: the static factories *)

(** The own enumerable properties copied by [{...o}]. *)
Definition spread (o : value) : list (string * value) :=
  match o with
  | JObj fs => fs
  | JArr l => combine (map index_key (seq 0 (List.length l))) l
  | JStr s => combine (map index_key (seq 0 (String.length s))) (string_chars s)
  | _ => []
  end.

(** The object literal [{...base, k1: v1, ..., kn: vn}]: later entries
    overwrite earlier ones in place. *)
Definition with_fields (base : list (string * value)) (entries : list (string * value))
  : list (string * value) :=
  fold_left (fun fs kv => assoc_set (fst kv) (snd kv) fs) entries base.

(** A parameter [schema = {}]: the default replaces [undefined]. *)
Definition or_empty (schema : value) : value :=
  match schema with
  | JUndef => JObj []
  | _ => schema
  end.

(** [nullable ? [name, "null"] : name] *)
Definition type_or_null (name : string) (nullable : bool) : value :=
  if nullable then JArr [JStr name; JStr "null"] else JStr name.

(** A value of a properties definition: a builder, or an array of
    builders and [undefined]. *)
Inductive property_definition : Type :=
| Single (schemaBuilder : SchemaBuilder)
| Alternatives (schemaBuilders : list (option SchemaBuilder)).

(** [!Array.isArray(propertySchema) ||
     propertySchema.findIndex((e) => e === undefined) === -1] *)
Definition definition_required (propertySchema : property_definition) : bool :=
  match propertySchema with
  | Single _ => true
  | Alternatives l =>
      negb (existsb (fun e => match e with None => true | Some _ => false end) l)
  end.

(** [propertySchema.filter((v) => !!v)] *)
Definition defined_builders (l : list (option SchemaBuilder)) : list SchemaBuilder :=
  flat_map (fun e => match e with Some b => [b] | None => [] end) l.

(** The schema stored for a property by [Object] and [AddProperties]. *)
Definition definition_schema (propertySchema : property_definition) : value :=
  match propertySchema with
  | Single b => CloneJSON (Schema b)
  | Alternatives l =>
      match defined_builders l with
      | [b] => CloneJSON (Schema b)
      | filtered =>
          JObj [("anyOf", JArr (map (fun b => CloneJSON (schemaObject b)) filtered))]
      end
  end.

(** The body of the loop of [Enum] over the values: the three [if]s that
    push the name of a type not met before. *)
Definition infer_type (types : list string) (value : value) : list string :=
  let types :=
    if match value with JStr _ => true | _ => false end &&
       negb (existsb (String.eqb "string") types)
    then (types ++ ["string"])%list else types in
  let types :=
    if match value with JBool _ => true | _ => false end &&
       negb (existsb (String.eqb "boolean") types)
    then (types ++ ["boolean"])%list else types in
  if match value with JNum _ => true | _ => false end &&
     negb (existsb (String.eqb "number") types)
  then (types ++ ["number"])%list else types.

(** [typeof value], for the types [Enum] looks for. *)
Definition typeof_name (v : value) : option string :=
  match v with
  | JStr _ => Some "string"
  | JBool _ => Some "boolean"
  | JNum _ => Some "number"
  | _ => None
  end.

Module Static.

(** [SchemaBuilder.EmptySchema(schema, nullable)] *)
Definition EmptySchema (schema : value) (nullable : bool) : outcome SchemaBuilder :=
  new_SchemaBuilder
    (JObj (with_fields (spread (CloneJSON (or_empty schema)))
             [("type", type_or_null "object" nullable);
              ("additionalProperties", JBool false)]))
    None.

(** [SchemaBuilder.Object(schema, propertiesDefinition, nullable)]; the
    definition is the list of its entries in enumeration order. *)
Definition Object (schema : value)
  (propertiesDefinition : list (string * property_definition)) (nullable : bool)
  : outcome SchemaBuilder :=
  let required :=
    fold_left (fun required kd =>
                 if definition_required (snd kd) then (required ++ [JStr (fst kd)])%list
                 else required)
      propertiesDefinition [] in
  let properties :=
    fold_left (fun properties kd =>
                 assoc_set (fst kd) (definition_schema (snd kd)) properties)
      propertiesDefinition [] in
  new_SchemaBuilder
    (JObj (with_fields (spread (CloneJSON schema))
             ([("type", type_or_null "object" nullable)] ++
              (match properties with
               | [] => []
               | _ => [("properties", JObj properties)]
               end) ++
              (match required with
               | [] => []
               | _ => [("required", JArr required)]
               end) ++
              [("additionalProperties", JBool false)])%list))
    None.

(** [SchemaBuilder.Enum(values, schema, nullable)] *)
Definition Enum (values : list value) (schema : value) (nullable : bool)
  : outcome SchemaBuilder :=
  let types := fold_left infer_type values [] in
  let types := if nullable then (types ++ ["null"])%list else types in
  new_SchemaBuilder
    (JObj (with_fields (spread (CloneJSON (or_empty schema)))
             [("type", match types with
                       | [type] => JStr type
                       | _ => JArr (map JStr types)
                       end);
              ("enum", JArr (if nullable && negb (existsb is_null values)
                             then (values ++ [JNull])%list else values))]))
    None.

(** [SchemaBuilder.Array(items, schema, nullable)] *)
Definition Array (items : SchemaBuilder) (schema : value) (nullable : bool)
  : outcome SchemaBuilder :=
  new_SchemaBuilder
    (JObj (with_fields (spread (CloneJSON (or_empty schema)))
             [("type", type_or_null "array" nullable);
              ("items", CloneJSON (Schema items))]))
    None.

(** [SchemaBuilder.OneOf(...schemaBuilders)], [AllOf], [AnyOf] and [Not] *)
Definition OneOf (schemaBuilders : list SchemaBuilder) : outcome SchemaBuilder :=
  new_SchemaBuilder
    (JObj [("oneOf", JArr (map (fun b => CloneJSON (Schema b)) schemaBuilders))]) None.

Definition AllOf (schemaBuilders : list SchemaBuilder) : outcome SchemaBuilder :=
  new_SchemaBuilder
    (JObj [("allOf", JArr (map (fun b => CloneJSON (Schema b)) schemaBuilders))]) None.

Definition AnyOf (schemaBuilders : list SchemaBuilder) : outcome SchemaBuilder :=
  new_SchemaBuilder
    (JObj [("anyOf", JArr (map (fun b => CloneJSON (Schema b)) schemaBuilders))]) None.

Definition Not (schemaBuilder : SchemaBuilder) : outcome SchemaBuilder :=
  new_SchemaBuilder (JObj [("not", CloneJSON (Schema schemaBuilder))]) None.

End Static.

(** The builders of a definition hold documents the constructor accepts
    (as every builder does). *)
Definition definition_constructible (propertySchema : property_definition) : Prop :=
  match propertySchema with
  | Single b => constructible (Schema b)
  | Alternatives l => Forall (fun b => constructible (Schema b)) (defined_builders l)
  end.

(** ** [ThroughJsonSchema] for an action that changes the node

    [ToDeepOptionals] runs the traversal of [src/utils.ts] with an action
    that deletes keywords of the node it is given.  The document is a
    fresh clone, so a tree: the traversal is a function from the document
    to the document it leaves, in which each visited node is what the
    action and the traversal of its children made of it. *)

Definition update_properties (through : value -> outcome value) (schema : value)
  : outcome value :=
  properties <- get_prop schema "properties" ;;
  if truthy properties then
    match properties with
    | JObj pfs =>
        pfs' <- mapM (fun kv => x <- through (snd kv) ;; Ret (fst kv, x)) pfs ;;
        set_prop schema "properties" (JObj pfs')
    | JArr l =>
        l' <- mapM through l ;;
        set_prop schema "properties" (JArr l')
    | JStr s =>
        _ <- mapM through (string_chars s) ;;
        Ret schema
    | _ => Ret schema
    end
  else Ret schema.

Definition update_branches (through : value -> outcome value) (schema : value)
  (keyword : string) : outcome value :=
  branches <- get_prop schema keyword ;;
  if truthy branches then
    match branches with
    | JArr l =>
        l' <- mapM through l ;;
        set_prop schema keyword (JArr l')
    | _ => Throw TypeError
    end
  else Ret schema.

Definition update_node (through : value -> outcome value) (schema : value)
  (keyword : string) : outcome value :=
  node <- get_prop schema keyword ;;
  if truthy node then
    node <- through node ;;
    set_prop schema keyword node
  else Ret schema.

Definition update_additional (through : value -> outcome value) (schema : value)
  : outcome value :=
  additionalProperties <- get_prop schema "additionalProperties" ;;
  if truthy additionalProperties && negb (is_boolean additionalProperties) then
    additionalProperties <- through additionalProperties ;;
    set_prop schema "additionalProperties" additionalProperties
  else Ret schema.

(** The body of [ThroughJsonSchema(schema, action)]; [action] returns the
    node as it has left it. *)
Definition update_step (through : value -> outcome value) (schema : value)
  (action : value -> outcome value) : outcome value :=
  match schema with
  | JArr l =>
      l' <- mapM through l ;;
      Ret (JArr l')
  | JObj _ =>
      schema <- action schema ;;
      schema <- update_properties through schema ;;
      schema <- update_branches through schema "oneOf" ;;
      schema <- update_branches through schema "allOf" ;;
      schema <- update_branches through schema "anyOf" ;;
      schema <- update_node through schema "items" ;;
      schema <- update_node through schema "not" ;;
      update_additional through schema
  | _ => Ret schema
  end.

Fixpoint UpdateJsonSchema_fuel (fuel : nat) (schema : value)
  (action : value -> outcome value) : outcome value :=
  match fuel with
  | O => OutOfFuel
  | S fuel' =>
      update_step (fun s => UpdateJsonSchema_fuel fuel' s action) schema action
  end.

Definition UpdateJsonSchema (schema : value) (action : value -> outcome value)
  : outcome value :=
  UpdateJsonSchema_fuel (S (depth schema)) schema action.

(** The action of [ToDeepOptionals]: [delete s.required; delete s.default]. *)
Definition delete_required_and_default (s : value) : outcome value :=
  s <- delete_keyword s "required" ;;
  delete_keyword s "default".

(** [ToDeepOptionals()] *)
Definition ToDeepOptionals (this : SchemaBuilder) : outcome SchemaBuilder :=
  let schemaObject := CloneJSON (schemaObject this) in
  schemaObject <- UpdateJsonSchema schemaObject delete_required_and_default ;;
  new_SchemaBuilder schemaObject (validationConfig this).

(** A node without [required] and [default]. *)
Definition all_optional (n : value) : bool :=
  match n with
  | JObj fs => negb (has_key "required" fs) && negb (has_key "default" fs)
  | _ => true
  end.

(** [properties] is absent, falsy or an object, and the combination
    keywords hold arrays. *)
Definition node_typed (n : value) : bool :=
  branches_typed n &&
  match n with
  | JObj fs =>
      match lookup "properties" fs with
      | None | Some (JObj _) => true
      | Some v => negb (truthy v)
      end
  | _ => true
  end.

(** Two values built with the same constructor. *)
Definition same_kind (x y : value) : bool :=
  match x, y with
  | JUndef, JUndef | JNull, JNull => true
  | JBool a, JBool b => Bool.eqb a b
  | JNum a, JNum b => (a =? b)%Z
  | JStr a, JStr b => a =? b
  | JArr _, JArr _ | JObj _, JObj _ => true
  | _, _ => false
  end.

(** A nested object schema with defaults and required lists. *)
Definition nested_schema : list (string * value) :=
  [("type", JStr "object");
   ("properties",
    JObj [("a", JObj [("type", JStr "object");
                      ("properties", JObj [("x", JObj [("type", JStr "string");
                                                       ("default", JStr "d")])]);
                      ("required", JArr [JStr "x"])]);
          ("b", JObj [("type", JStr "array");
                      ("items", JObj [("type", JStr "integer"); ("default", JNum 1)])])]);
   ("required", JArr [JStr "a"]);
   ("additionalProperties", JBool false)].

(** What [ToDeepOptionals] makes of a visited node [m], as far as the
    constructor and a second traversal can tell. *)
Definition fields_of (v : value) : list (string * value) :=
  match v with
  | JObj fs => fs
  | _ => []
  end.

(** The keywords under which [ThroughJsonSchema] finds nested schemas. *)
Definition traversal_keywords : list string :=
  ["properties"; "oneOf"; "allOf"; "anyOf"; "items"; "not"; "additionalProperties"].

(** The node [m'] has the keywords of [m] other than [required] and
    [default], with values of the same kind; outside the traversal
    keywords the values are those of [m]. *)
Definition node_kept (m m' : value) : Prop :=
  forall k, k <> "required" -> k <> "default" ->
    has_key k (fields_of m') = has_key k (fields_of m) /\
    same_kind (field k (fields_of m)) (field k (fields_of m')) = true /\
    (~ In k traversal_keywords -> lookup k (fields_of m') = lookup k (fields_of m)).

Definition node_rel (m m' : value) : Prop :=
  all_optional m' = true /\
  (carries_ref m = false -> carries_ref m' = false) /\
  (node_typed m = true -> node_typed m' = true) /\
  node_kept m m'.

(** What the traversal makes of a value [x]: a value [x'] of the same
    kind, whose visited nodes come from visited nodes of [x], and [x]
    itself when no visited node of [x] has [required] or [default]. *)
Definition child_rel (x x' : value) : Prop :=
  same_kind x x' = true /\
  (forall m', visited x' m' -> exists m, visited x m /\ node_rel m m') /\
  ((forall m, visited x m -> all_optional m = true) -> x' = x) /\
  node_kept x x'.

(** What one statement of the traversal makes of the fields [f] of a
    node: it writes the keyword [k] only, and the children [ch] it
    descends into are replaced by what the traversal makes of them. *)
Definition step_result (k : string) (ch : list (string * value) -> list value)
  (f f' : list (string * value)) : Prop :=
  (forall k', k' <> k -> lookup k' f' = lookup k' f) /\
  has_key k f' = has_key k f /\
  same_kind (field k f) (field k f') = true /\
  Forall2 child_rel (ch f) (ch f') /\
  (ch f' = ch f -> f' = f).

(** The keywords and the kinds of their values are kept. *)
Definition kind_preserving (f f' : list (string * value)) : Prop :=
  forall k, has_key k f' = has_key k f /\ same_kind (field k f) (field k f') = true.

(* ================================================================== *)
(** * Part II: properties *)
(* ================================================================== *)

Open Scope list_scope.

(** ** Values, outcomes and objects *)

Lemma value_ind' (P : value -> Prop)
  (Hundef : P JUndef) (Hnull : P JNull)
  (Hbool : forall b, P (JBool b)) (Hnum : forall n, P (JNum n))
  (Hstr : forall s, P (JStr s))
  (Harr : forall l, Forall P l -> P (JArr l))
  (Hobj : forall fs, Forall (fun kv => P (snd kv)) fs -> P (JObj fs)) :
  forall v, P v.
Proof.
  fix self 1.
  intros [ | | b | n | s | l | fs ];
    [exact Hundef | exact Hnull | apply Hbool | apply Hnum | apply Hstr | | ].
  - apply Harr. induction l as [|x l IH]; constructor; [apply self | exact IH].
  - apply Hobj. induction fs as [|kv fs IH]; constructor; [apply self | exact IH].
Qed.

Lemma bind_Ret_inv {A B : Type} (c : outcome A) (k : A -> outcome B) (b : B) :
  bind c k = Ret b -> exists a, c = Ret a /\ k a = Ret b.
Proof. destruct c; simpl; intros H; try discriminate. eauto. Qed.

Lemma bind_unit_Ret (c : outcome unit) (k : unit -> outcome unit) :
  bind c k = Ret tt <-> c = Ret tt /\ k tt = Ret tt.
Proof.
  split.
  - intros H. apply bind_Ret_inv in H as [[] [H1 H2]]. auto.
  - intros [-> H]. exact H.
Qed.

Lemma forEach_Ret {A : Type} (l : list A) (f : A -> outcome unit) :
  forEach l f = Ret tt <-> Forall (fun x => f x = Ret tt) l.
Proof.
  induction l as [|x l IH]; simpl.
  - split; auto.
  - rewrite bind_unit_Ret, IH. split.
    + intros [H1 H2]. constructor; assumption.
    + intros H. inversion H; subst. auto.
Qed.

Lemma forEach_ext {A : Type} (l : list A) (f g : A -> outcome unit) :
  (forall x, In x l -> f x = g x) -> forEach l f = forEach l g.
Proof.
  induction l as [|x l IH]; simpl; intros H; [reflexivity|].
  rewrite (H x) by auto. rewrite IH by auto. reflexivity.
Qed.

Lemma lookup_In k fs v : lookup k fs = Some v -> In (k, v) fs.
Proof.
  induction fs as [|[k' v'] fs IH]; simpl; [discriminate|].
  destruct (String.eqb_spec k' k) as [->|Hne].
  - intros [= ->]. auto.
  - auto.
Qed.

Lemma lookup_None_keys k fs : lookup k fs = None <-> ~ In k (map fst fs).
Proof.
  induction fs as [|[k' v'] fs IH]; simpl.
  - tauto.
  - destruct (String.eqb_spec k' k) as [->|Hne].
    + split; [discriminate | intros H; exfalso; auto].
    + rewrite IH. tauto.
Qed.

Lemma has_key_In k fs : has_key k fs = true <-> In k (map fst fs).
Proof.
  unfold has_key. destruct (lookup k fs) eqn:E.
  - split; auto. intros _. apply lookup_In in E.
    change k with (fst (k, v)). now apply in_map.
  - apply lookup_None_keys in E. split; [discriminate | tauto].
Qed.

Lemma lookup_assoc_set_same k v fs : lookup k (assoc_set k v fs) = Some v.
Proof.
  induction fs as [|[k' v'] fs IH]; simpl.
  - now rewrite String.eqb_refl.
  - destruct (String.eqb_spec k' k) as [->|Hne]; simpl.
    + now rewrite String.eqb_refl.
    + destruct (String.eqb_spec k' k); [contradiction | exact IH].
Qed.

Lemma lookup_assoc_set_other k k' v fs :
  k <> k' -> lookup k' (assoc_set k v fs) = lookup k' fs.
Proof.
  intros Hne. induction fs as [|[k0 v0] fs IH]; simpl.
  - destruct (String.eqb_spec k k'); [contradiction | reflexivity].
  - destruct (String.eqb_spec k0 k) as [->|H0]; simpl.
    + destruct (String.eqb_spec k k'); [contradiction | reflexivity].
    + now rewrite IH.
Qed.

Lemma lookup_assoc_remove_same k fs : lookup k (assoc_remove k fs) = None.
Proof.
  induction fs as [|[k0 v0] fs IH]; simpl; [reflexivity|].
  destruct (String.eqb_spec k0 k) as [->|H0]; simpl; [exact IH|].
  destruct (String.eqb_spec k0 k); [contradiction | exact IH].
Qed.

Lemma lookup_assoc_remove_other k k' fs :
  k <> k' -> lookup k' (assoc_remove k fs) = lookup k' fs.
Proof.
  intros Hne. induction fs as [|[k0 v0] fs IH]; simpl; [reflexivity|].
  destruct (String.eqb_spec k0 k) as [->|H0]; simpl.
  - destruct (String.eqb_spec k k'); [contradiction | exact IH].
  - now rewrite IH.
Qed.

Lemma assoc_set_lookup_id k v fs : lookup k fs = Some v -> assoc_set k v fs = fs.
Proof.
  induction fs as [|[k0 v0] fs IH]; simpl; [discriminate|].
  destruct (String.eqb_spec k0 k) as [->|H0].
  - now intros [= ->].
  - intros H. now rewrite IH.
Qed.

Lemma assoc_set_absent k v fs : lookup k fs = None -> assoc_set k v fs = (fs ++ [(k, v)])%list.
Proof.
  induction fs as [|[k0 v0] fs IH]; simpl; [reflexivity|].
  destruct (String.eqb_spec k0 k) as [->|H0]; [discriminate|].
  intros H. now rewrite IH.
Qed.

Lemma assoc_set_values (P : value -> Prop) k v fs :
  P v -> Forall P (map snd fs) -> Forall P (map snd (assoc_set k v fs)).
Proof.
  intros Hv. induction fs as [|[k0 v0] fs IH]; simpl; intros H.
  - constructor; auto.
  - inversion H; subst. destruct (String.eqb_spec k0 k); simpl; constructor; auto.
Qed.

Lemma lookup_values (P : value -> Prop) k fs v :
  Forall P (map snd fs) -> lookup k fs = Some v -> P v.
Proof.
  intros H E. apply lookup_In in E. rewrite Forall_forall in H.
  apply H. change v with (snd (k, v)). now apply in_map.
Qed.

(** A clone has the content of the original. *)
Lemma CloneJSON_id v : CloneJSON v = v.
Proof.
  induction v as [ | | b | n | s | l IH | fs IH ] using value_ind'; simpl; try reflexivity.
  - f_equal. induction IH as [|x l Hx _ IHl]; simpl; [reflexivity|].
    now rewrite Hx, IHl.
  - f_equal. induction IH as [|[k x] fs Hx _ IHl]; simpl in *; [reflexivity|].
    now rewrite Hx, IHl.
Qed.

(** ** The traversal does not depend on its fuel *)

Lemma depth_elem x l : In x l -> depth x < depth (JArr l).
Proof.
  simpl. induction l as [|y l IH]; simpl; [tauto|].
  intros [->|H]; [lia|]. specialize (IH H). lia.
Qed.

Lemma depth_field k x fs : In (k, x) fs -> depth x < depth (JObj fs).
Proof.
  simpl. induction fs as [|[k0 y] fs IH]; simpl; [tauto|].
  intros [[= -> ->]|H]; [lia|]. specialize (IH H). lia.
Qed.

Lemma depth_get_prop fs k v : get_prop (JObj fs) k = Ret v -> depth v < depth (JObj fs).
Proof.
  simpl. intros [= <-]. destruct (lookup k fs) as [x|] eqn:E.
  - apply lookup_In in E. now apply depth_field in E.
  - simpl. lia.
Qed.

Lemma depth_own_values x p d : In x (own_values p) -> depth p < d -> depth x < d.
Proof.
  destruct p as [ | | b | n | s | l | fs ]; simpl; try tauto.
  - unfold string_chars. rewrite in_map_iff. intros [c [<- _]]. simpl. auto.
  - intros H Hd. apply depth_elem in H. simpl in H. lia.
  - rewrite in_map_iff. intros [[k y] [<- H]] Hd. apply depth_field in H.
    simpl in *. lia.
Qed.

Section ThroughExt.

Variables (t1 t2 : value -> outcome unit) (fs : list (string * value)).
Hypothesis agree : forall x, depth x < depth (JObj fs) -> t1 x = t2 x.

Lemma visit_properties_ext : visit_properties t1 (JObj fs) = visit_properties t2 (JObj fs).
Proof.
  unfold visit_properties.
  destruct (get_prop (JObj fs) "properties") as [p| |] eqn:E; simpl; try reflexivity.
  apply depth_get_prop in E. destruct (truthy p); [|reflexivity].
  apply forEach_ext. intros x Hx. apply agree. eapply depth_own_values; eauto.
Qed.

Lemma visit_branches_ext k : visit_branches t1 (JObj fs) k = visit_branches t2 (JObj fs) k.
Proof.
  unfold visit_branches.
  destruct (get_prop (JObj fs) k) as [p| |] eqn:E; simpl; try reflexivity.
  apply depth_get_prop in E. destruct (truthy p); [|reflexivity].
  destruct p; simpl; try reflexivity.
  apply forEach_ext. intros x Hx. apply agree. apply depth_elem in Hx. lia.
Qed.

Lemma visit_node_ext k : visit_node t1 (JObj fs) k = visit_node t2 (JObj fs) k.
Proof.
  unfold visit_node.
  destruct (get_prop (JObj fs) k) as [p| |] eqn:E; simpl; try reflexivity.
  apply depth_get_prop in E. destruct (truthy p); [|reflexivity]. now apply agree.
Qed.

Lemma visit_additional_ext : visit_additional t1 (JObj fs) = visit_additional t2 (JObj fs).
Proof.
  unfold visit_additional.
  destruct (get_prop (JObj fs) "additionalProperties") as [p| |] eqn:E; simpl;
    try reflexivity.
  apply depth_get_prop in E.
  destruct (truthy p && negb (is_boolean p)); [|reflexivity]. now apply agree.
Qed.

End ThroughExt.

Lemma through_step_ext t1 t2 s a :
  (forall x, depth x < depth s -> t1 x = t2 x) ->
  through_step t1 s a = through_step t2 s a.
Proof.
  intros agree. destruct s as [ | | b | n | str | l | fs ]; try reflexivity.
  - simpl. apply forEach_ext. intros x Hx. apply agree. now apply depth_elem.
  - unfold through_step.
    rewrite (visit_properties_ext t1 t2 fs agree).
    rewrite !(visit_branches_ext t1 t2 fs agree).
    rewrite !(visit_node_ext t1 t2 fs agree).
    rewrite (visit_additional_ext t1 t2 fs agree).
    reflexivity.
Qed.

Lemma through_fuel_irrelevant a : forall n m s,
  depth s < n -> depth s < m ->
  ThroughJsonSchema_fuel n s a = ThroughJsonSchema_fuel m s a.
Proof.
  induction n as [|n IH]; intros [|m] s Hn Hm; try lia.
  simpl. apply through_step_ext. intros x Hx. apply IH; lia.
Qed.

(** The equation of the source function, free of fuel. *)
Lemma ThroughJsonSchema_unfold s a :
  ThroughJsonSchema s a = through_step (fun x => ThroughJsonSchema x a) s a.
Proof.
  unfold ThroughJsonSchema at 1. simpl. apply through_step_ext.
  intros x Hx. unfold ThroughJsonSchema. apply through_fuel_irrelevant; lia.
Qed.

(** ** The constructor and the nodes it visits *)

Lemma forEach_app {A : Type} (l1 l2 : list A) (f : A -> outcome unit) :
  forEach (l1 ++ l2) f = (_ <- forEach l1 f ;; forEach l2 f).
Proof.
  induction l1 as [|x l1 IH]; simpl; [reflexivity|].
  destruct (f x) as [[]| |]; simpl; auto.
Qed.

Lemma forEach_single (x : value) (t : value -> outcome unit) : forEach [x] t = t x.
Proof. simpl. destruct (t x) as [[]| |]; reflexivity. Qed.

Lemma visit_properties_children t fs :
  visit_properties t (JObj fs) = forEach (property_children fs) t.
Proof.
  unfold visit_properties, property_children. simpl.
  destruct (lookup "properties" fs) as [p|]; simpl; [|reflexivity].
  destruct (truthy p); reflexivity.
Qed.

Lemma visit_node_children t fs k :
  visit_node t (JObj fs) k = forEach (node_children fs k) t.
Proof.
  unfold visit_node, node_children. simpl.
  destruct (lookup k fs) as [p|]; simpl; [|reflexivity].
  destruct (truthy p); [now rewrite forEach_single | reflexivity].
Qed.

Lemma visit_additional_children t fs :
  visit_additional t (JObj fs) = forEach (additional_children fs) t.
Proof.
  unfold visit_additional, additional_children. simpl.
  destruct (lookup "additionalProperties" fs) as [p|]; simpl; [|reflexivity].
  destruct (truthy p && negb (is_boolean p)); [now rewrite forEach_single | reflexivity].
Qed.

Lemma visit_branches_children t fs k :
  match lookup k fs with
  | Some (JArr _) => true
  | Some v => negb (truthy v)
  | None => true
  end = true ->
  visit_branches t (JObj fs) k = forEach (branch_children fs k) t.
Proof.
  unfold visit_branches, branch_children. simpl.
  destruct (lookup k fs) as [p|]; simpl; [|reflexivity].
  destruct p; simpl; intros H; try reflexivity; try discriminate;
    apply negb_true_iff in H; now rewrite H.
Qed.

Lemma through_step_children t fs a :
  branches_typed (JObj fs) = true ->
  through_step t (JObj fs) a =
  (_ <- a (JObj fs) ;; forEach (schema_children (JObj fs)) t).
Proof.
  simpl. rewrite !andb_true_iff. intros (H1 & H2 & H3 & _).
  rewrite visit_properties_children, !visit_node_children, visit_additional_children.
  rewrite !visit_branches_children by assumption.
  now rewrite !forEach_app.
Qed.

Lemma depth_children x s : In x (schema_children s) -> depth x < depth s.
Proof.
  destruct s as [ | | b | n | str | l | fs ]; simpl; try tauto.
  - intros H. apply depth_elem in H. exact H.
  - assert (Hl : forall k v, lookup k fs = Some v -> depth v < S (fold_right
        (fun kv acc => Nat.max (depth (snd kv)) acc) 0 fs)).
    { intros k v E. apply lookup_In in E. now apply depth_field in E. }
    rewrite !in_app_iff.
    unfold property_children, branch_children, node_children, additional_children.
    intros H.
    repeat match type of H with
           | _ \/ _ => destruct H as [H|H]
           end;
    match type of H with
    | In _ (match lookup ?k fs with _ => _ end) =>
        destruct (lookup k fs) as [p|] eqn:E; [apply Hl in E | destruct H]
    end.
    + destruct (truthy p); [|destruct H]. eapply depth_own_values; eauto.
    + destruct p; try destruct H. apply depth_elem in H. simpl in *. lia.
    + destruct p; try destruct H. apply depth_elem in H. simpl in *. lia.
    + destruct p; try destruct H. apply depth_elem in H. simpl in *. lia.
    + destruct (truthy p); [|destruct H]. destruct H as [<-|[]]. exact E.
    + destruct (truthy p); [|destruct H]. destruct H as [<-|[]]. exact E.
    + destruct (truthy p && negb (is_boolean p)); [|destruct H].
      destruct H as [<-|[]]. exact E.
Qed.

Lemma reject_ref_object fs :
  reject_ref (JObj fs) = if has_key "$ref" fs then Throw (VError ref_error) else Ret tt.
Proof. reflexivity. Qed.

Lemma forEach_dichotomy (t : value -> outcome unit) (e : error) (l : list value) :
  (forall x, In x l ->
     (t x = Ret tt /\ ~ reaches_ref x) \/ (t x = Throw e /\ reaches_ref x)) ->
  (forEach l t = Ret tt /\ forall x, In x l -> ~ reaches_ref x) \/
  (forEach l t = Throw e /\ exists x, In x l /\ reaches_ref x).
Proof.
  induction l as [|x l IH]; intros H; simpl.
  - left. split; [reflexivity | intros x []].
  - destruct (H x (or_introl eq_refl)) as [[E Hx]|[E Hx]]; rewrite E; simpl.
    + destruct IH as [[E' Hl]|[E' [y [Hy Hr]]]].
      * intros y Hy. apply H. now right.
      * left. split; [exact E'|]. intros y [<-|Hy]; auto.
      * right. split; [exact E'|]. exists y. split; [now right | exact Hr].
    + right. split; [reflexivity|]. exists x. split; [now left | exact Hx].
Qed.

Lemma through_dichotomy : forall d s,
  depth s < d ->
  (forall n, visited s n -> branches_typed n = true) ->
  (ThroughJsonSchema s reject_ref = Ret tt /\ ~ reaches_ref s) \/
  (ThroughJsonSchema s reject_ref = Throw (VError ref_error) /\ reaches_ref s).
Proof.
  induction d as [|d IH]; intros s Hd Hshape; [lia|].
  assert (Hchildren :
    (forEach (schema_children s) (fun x => ThroughJsonSchema x reject_ref) = Ret tt /\
     forall x, In x (schema_children s) -> ~ reaches_ref x) \/
    (forEach (schema_children s) (fun x => ThroughJsonSchema x reject_ref)
       = Throw (VError ref_error) /\
     exists x, In x (schema_children s) /\ reaches_ref x)).
  { apply forEach_dichotomy. intros x Hx. apply IH.
    - apply depth_children in Hx. lia.
    - intros n Hn. apply Hshape. eapply visited_below; eauto. }
  assert (Hbelow : forall x, In x (schema_children s) -> reaches_ref x -> reaches_ref s).
  { intros x Hx [n [Hn Hc]]. exists n. split; [eapply visited_below; eauto | exact Hc]. }
  rewrite ThroughJsonSchema_unfold.
  destruct s as [ | | b | n | str | l | fs ];
    try (left; split; [reflexivity|];
         intros [n' [Hv _]]; inversion Hv; subst; simpl in *; tauto).
  - (* array *)
    simpl through_step. destruct Hchildren as [[E Hc]|[E [x [Hx Hr]]]].
    + left. split; [exact E|]. intros [n [Hv Hn]]. inversion Hv; subst.
      apply (Hc x); [assumption|]. exists n. auto.
    + right. split; [exact E|]. eauto.
  - (* object *)
    rewrite through_step_children by (apply Hshape; constructor).
    rewrite reject_ref_object.
    destruct (has_key "$ref" fs) eqn:Href; cbn [bind].
    + right. split; [reflexivity|]. exists (JObj fs). split; [constructor | exact Href].
    + destruct Hchildren as [[E Hc]|[E [x [Hx Hr]]]].
      * left. split; [exact E|]. intros [n [Hv Hn]]. inversion Hv; subst.
        -- simpl in Hn. congruence.
        -- apply (Hc x); [assumption|]. exists n. auto.
      * right. split; [exact E|]. eauto.
Qed.

Lemma visited_inside s n : visited s n -> inside s n.
Proof.
  induction 1 as [fs | s x n Hx Hv IH]; [constructor|].
  destruct s as [ | | b | m | str | l | fs ]; simpl in Hx; try tauto.
  - eapply inside_element; eauto.
  - assert (Hl : forall k v y, lookup k fs = Some v -> inside v y -> inside (JObj fs) y).
    { intros k v y E Hy. apply lookup_In in E. eapply inside_field; eauto. }
    rewrite !in_app_iff in Hx.
    unfold property_children, branch_children, node_children, additional_children in Hx.
    repeat match type of Hx with
           | _ \/ _ => destruct Hx as [Hx|Hx]
           end;
    match type of Hx with
    | In _ (match lookup ?k fs with _ => _ end) =>
        destruct (lookup k fs) as [p|] eqn:E; [apply (Hl _ _ n) in E; [exact E|] | destruct Hx]
    end.
    + destruct (truthy p); [|destruct Hx].
      destruct p; simpl in Hx; try tauto.
      * unfold string_chars in Hx. apply in_map_iff in Hx as [c [<- _]].
        inversion Hv; subst. simpl in *. tauto.
      * eapply inside_element; eauto.
      * apply in_map_iff in Hx as [[k y] [<- Hy]]. eapply inside_field; eauto.
    + destruct p; try destruct Hx. eapply inside_element; eauto.
    + destruct p; try destruct Hx. eapply inside_element; eauto.
    + destruct p; try destruct Hx. eapply inside_element; eauto.
    + destruct (truthy p); [|destruct Hx]. destruct Hx as [<-|[]]. exact IH.
    + destruct (truthy p); [|destruct Hx]. destruct Hx as [<-|[]]. exact IH.
    + destruct (truthy p && negb (is_boolean p)); [|destruct Hx].
      destruct Hx as [<-|[]]. exact IH.
Qed.

(** Case analysis on the nodes visited in a given document. *)
Ltac visited_nodes H :=
  inversion H; subst; clear H;
  [ | match goal with
      | Hin : In _ (schema_children _) |- _ =>
          simpl in Hin;
          repeat (destruct Hin as [Hin|Hin]; [subst|]); try contradiction
      end ].

(** C4, as amended.  On a document whose visited nodes hold arrays under
    [oneOf], [allOf] and [anyOf], the constructor fails with the [$ref]
    error exactly when the deep traversal (root, property values,
    combinator branches, [items], [not], a schema under
    [additionalProperties]) reaches a node with a [$ref] keyword;
    otherwise it returns the builder, in particular when no [$ref]
    occurs anywhere in the document. *)
Theorem C4_constructor_rejects_visited_ref (s : value) (config : option value)
  (Htyped : forall n, visited s n -> branches_typed n = true) :
  (new_SchemaBuilder s config = Throw (VError ref_error) <-> reaches_ref s) /\
  (~ reaches_ref s ->
   new_SchemaBuilder s config = Ret {| schemaObject := s; validationConfig := config |}) /\
  ((forall n, inside s n -> carries_ref n = false) ->
   new_SchemaBuilder s config = Ret {| schemaObject := s; validationConfig := config |}).
Proof.
  unfold new_SchemaBuilder.
  destruct (through_dichotomy (S (depth s)) s (Nat.lt_succ_diag_r _) Htyped)
    as [[E Hno]|[E Hyes]]; rewrite E; cbn [bind].
  - split; [split; [discriminate | contradiction]|]. split; reflexivity.
  - split; [split; auto|]. split.
    + contradiction.
    + intros Hnone. destruct Hyes as [n [Hv Hc]].
      apply visited_inside in Hv. rewrite (Hnone n Hv) in Hc. discriminate.
Qed.

Lemma C4_constructor_rejects_visited_ref_witness :
  (forall n, visited ref_in_property n -> branches_typed n = true) /\
  (new_SchemaBuilder ref_in_property None = Throw (VError ref_error) <->
   reaches_ref ref_in_property).
Proof.
  assert (Htyped : forall n, visited ref_in_property n -> branches_typed n = true).
  { intros n H. visited_nodes H; [reflexivity|].
    match goal with Hv : visited _ n |- _ => visited_nodes Hv end. reflexivity. }
  split; [exact Htyped|].
  exact (proj1 (C4_constructor_rejects_visited_ref ref_in_property None Htyped)).
Defined.

(** C4 as stated fails: a [$ref] under [definitions] occurs in the
    document, and the constructor returns. *)
Lemma C4_counterexample :
  (exists n, inside ref_under_definitions n /\ carries_ref n = true) /\
  new_SchemaBuilder ref_under_definitions None =
    Ret {| schemaObject := ref_under_definitions; validationConfig := None |}.
Proof.
  split; [|reflexivity].
  exists (JObj [("$ref", JStr "#/definitions/B")]). split; [|reflexivity].
  eapply inside_field; [right; left; reflexivity|].
  eapply inside_field; [left; reflexivity|]. constructor.
Qed.

(** ** Documents the constructor accepts *)

Lemma new_SchemaBuilder_constructible s config :
  constructible s ->
  new_SchemaBuilder s config = Ret {| schemaObject := s; validationConfig := config |}.
Proof. unfold new_SchemaBuilder, constructible. now intros ->. Qed.

Lemma constructible_object fs :
  constructible (JObj fs) <->
  has_key "$ref" fs = false /\
  visit_properties (fun x => ThroughJsonSchema x reject_ref) (JObj fs) = Ret tt /\
  visit_branches (fun x => ThroughJsonSchema x reject_ref) (JObj fs) "oneOf" = Ret tt /\
  visit_branches (fun x => ThroughJsonSchema x reject_ref) (JObj fs) "allOf" = Ret tt /\
  visit_branches (fun x => ThroughJsonSchema x reject_ref) (JObj fs) "anyOf" = Ret tt /\
  visit_node (fun x => ThroughJsonSchema x reject_ref) (JObj fs) "items" = Ret tt /\
  visit_node (fun x => ThroughJsonSchema x reject_ref) (JObj fs) "not" = Ret tt /\
  visit_additional (fun x => ThroughJsonSchema x reject_ref) (JObj fs) = Ret tt.
Proof.
  unfold constructible. rewrite ThroughJsonSchema_unfold. unfold through_step.
  rewrite !bind_unit_Ret, reject_ref_object.
  destruct (has_key "$ref" fs); intuition discriminate.
Qed.

Lemma visit_properties_object t fs pfs :
  lookup "properties" fs = Some (JObj pfs) ->
  (visit_properties t (JObj fs) = Ret tt <-> Forall (fun x => t x = Ret tt) (map snd pfs)).
Proof.
  intros E. unfold visit_properties. simpl. rewrite E. simpl. apply forEach_Ret.
Qed.

Lemma visit_branches_lookup t fs fs' k :
  lookup k fs' = lookup k fs -> visit_branches t (JObj fs') k = visit_branches t (JObj fs) k.
Proof. intros E. unfold visit_branches. simpl. now rewrite E. Qed.

Lemma visit_node_lookup t fs fs' k :
  lookup k fs' = lookup k fs -> visit_node t (JObj fs') k = visit_node t (JObj fs) k.
Proof. intros E. unfold visit_node. simpl. now rewrite E. Qed.

Lemma visit_additional_lookup t fs fs' :
  lookup "additionalProperties" fs' = lookup "additionalProperties" fs ->
  visit_additional t (JObj fs') = visit_additional t (JObj fs).
Proof. intros E. unfold visit_additional. simpl. now rewrite E. Qed.

Lemma visit_additional_false t fs :
  lookup "additionalProperties" fs = Some (JBool false) ->
  visit_additional t (JObj fs) = Ret tt.
Proof. intros E. unfold visit_additional. simpl. now rewrite E. Qed.

(** The property values of an accepted object schema are accepted. *)
Lemma constructible_declared fs :
  constructible (JObj fs) -> Forall constructible (map snd (declared fs)).
Proof.
  intros H. apply constructible_object in H as (_ & Hp & _).
  unfold declared. destruct (lookup "properties" fs) as [p|] eqn:E; [|constructor].
  destruct p; try constructor.
  now apply (visit_properties_object _ fs fields E) in Hp.
Qed.

(** An operation that rewrites [properties], [required] and
    [additionalProperties] only, keeps the document acceptable when the
    new property values are. *)
Lemma constructible_frame fs fs' pfs' :
  constructible (JObj fs) ->
  (forall k, ~ In k ["properties"; "required"; "additionalProperties"] ->
             lookup k fs' = lookup k fs) ->
  lookup "properties" fs' = Some (JObj pfs') ->
  Forall constructible (map snd pfs') ->
  (lookup "additionalProperties" fs' = lookup "additionalProperties" fs \/
   lookup "additionalProperties" fs' = Some (JBool false)) ->
  constructible (JObj fs').
Proof.
  intros H Hsame Hprops Hvalues Hadd.
  assert (Hk : forall k, In k ["$ref"; "oneOf"; "allOf"; "anyOf"; "items"; "not"] ->
                         lookup k fs' = lookup k fs).
  { intros k Hin. apply Hsame. simpl in *. intros Hk.
    repeat (destruct Hin as [<-|Hin]; [intuition discriminate|]). exact Hin. }
  apply constructible_object in H as (H0 & H1 & H2 & H3 & H4 & H5 & H6 & H7).
  apply constructible_object. repeat split.
  - unfold has_key in *. rewrite Hk; [exact H0 | simpl; auto].
  - now apply (visit_properties_object _ fs' pfs' Hprops).
  - rewrite (visit_branches_lookup _ fs); [exact H2 | apply Hk; simpl; auto].
  - rewrite (visit_branches_lookup _ fs); [exact H3 | apply Hk; simpl; auto].
  - rewrite (visit_branches_lookup _ fs); [exact H4 | apply Hk; simpl; auto].
  - rewrite (visit_node_lookup _ fs); [exact H5 | apply Hk; simpl; auto 10].
  - rewrite (visit_node_lookup _ fs); [exact H6 | apply Hk; simpl; auto 10].
  - destruct Hadd as [E|E].
    + now rewrite (visit_additional_lookup _ fs).
    + now apply visit_additional_false.
Qed.

(** ** The classification getters on an object *)

Lemma get_prop_object fs k :
  get_prop (JObj fs) k = Ret (match lookup k fs with Some v => v | None => JUndef end).
Proof. reflexivity. Qed.

Lemma IsSimpleObjectSchema_inv fs config :
  IsSimpleObjectSchema (builder fs config) = Ret true ->
  IsObjectSchema (builder fs config) = Ret true /\
  lookup "additionalProperties" fs = Some (JBool false) /\
  HasSchemasCombinationKeywords (builder fs config) = Ret false.
Proof.
  unfold IsSimpleObjectSchema, HasAdditionalProperties.
  destruct (IsObjectSchema (builder fs config)) as [[|]| |]; cbn [bind negb];
    try discriminate.
  cbn [schemaObject builder]. rewrite get_prop_object. cbn [bind].
  destruct (lookup "additionalProperties" fs) as [[ | |[|]| | | | ]|];
    cbn [bind negb is_false]; try discriminate.
  destruct (HasSchemasCombinationKeywords (builder fs config)) as [[|]| |];
    cbn [bind negb]; try discriminate.
  auto.
Qed.

Lemma IsSimpleObjectSchema_intro fs config :
  IsObjectSchema (builder fs config) = Ret true ->
  lookup "additionalProperties" fs = Some (JBool false) ->
  HasSchemasCombinationKeywords (builder fs config) = Ret false ->
  IsSimpleObjectSchema (builder fs config) = Ret true.
Proof.
  intros H1 H2 H3. unfold IsSimpleObjectSchema, HasAdditionalProperties.
  rewrite H1. cbn [bind negb schemaObject builder]. rewrite get_prop_object, H2.
  cbn [bind negb is_false]. now rewrite H3.
Qed.

Lemma HasSchemasCombinationKeywords_frame fs fs' c c' :
  (forall k, In k ["oneOf"; "allOf"; "anyOf"; "not"] -> lookup k fs' = lookup k fs) ->
  HasSchemasCombinationKeywords (builder fs' c') = HasSchemasCombinationKeywords (builder fs c).
Proof.
  intros E. unfold HasSchemasCombinationKeywords. cbn [schemaObject builder has_prop].
  unfold has_key. rewrite !E by (simpl; auto). reflexivity.
Qed.

Lemma Properties_object fs config :
  IsObjectSchema (builder fs config) = Ret true ->
  HasSchemasCombinationKeywords (builder fs config) = Ret false ->
  typed_object fs = true ->
  Properties (builder fs config) = Ret (Some (map fst (declared fs))).
Proof.
  intros H1 H2 Ht. unfold Properties. rewrite H1. cbn [bind negb]. rewrite H2.
  cbn [bind schemaObject builder]. rewrite get_prop_object. cbn [bind].
  unfold typed_object in Ht. unfold declared.
  destruct (lookup "properties" fs) as [[ | | | | | | pfs]|]; try discriminate; reflexivity.
Qed.

Lemma RequiredProperties_object fs config :
  IsObjectSchema (builder fs config) = Ret true ->
  HasSchemasCombinationKeywords (builder fs config) = Ret false ->
  typed_object fs = true ->
  RequiredProperties (builder fs config) = Ret (Some (required_list fs)).
Proof.
  intros H1 H2 Ht. unfold RequiredProperties. rewrite H1. cbn [bind negb]. rewrite H2.
  cbn [bind schemaObject builder]. rewrite get_prop_object. cbn [bind].
  unfold typed_object in Ht. unfold required_list.
  apply andb_true_iff in Ht as [_ Ht].
  destruct (lookup "required" fs) as [[ | | | | | l | ]|]; try discriminate; reflexivity.
Qed.

(** ** RenameProperty *)




(** ** PickProperties and OmitProperties *)

Lemma pick_loop names pfs : forall m,
  foldM (fun propertiesMap property =>
           v <- get_prop (JObj pfs) property ;;
           set_prop propertiesMap property v) names (JObj m) =
  Ret (JObj (fold_left (fun propertiesMap property =>
               assoc_set property
                 (match lookup property pfs with Some v => v | None => JUndef end)
                 propertiesMap) names m)).
Proof.
  induction names as [|name names IH]; intros m; simpl; [reflexivity|].
  apply IH.
Qed.

Lemma fold_pick_lookup names pfs k : forall m,
  lookup k (fold_left (fun propertiesMap property =>
               assoc_set property
                 (match lookup property pfs with Some v => v | None => JUndef end)
                 propertiesMap) names m) =
  if existsb (String.eqb k) names
  then Some (match lookup k pfs with Some v => v | None => JUndef end)
  else lookup k m.
Proof.
  induction names as [|name names IH]; intros m; simpl; [reflexivity|].
  rewrite IH. destruct (existsb (String.eqb k) names); [now rewrite orb_true_r|].
  rewrite orb_false_r. destruct (String.eqb_spec k name) as [->|Hne].
  - apply lookup_assoc_set_same.
  - apply lookup_assoc_set_other. congruence.
Qed.

Lemma picked_lookup names pfs k :
  lookup k (picked names pfs) =
  if existsb (String.eqb k) names
  then Some (match lookup k pfs with Some v => v | None => JUndef end)
  else None.
Proof. unfold picked. now rewrite fold_pick_lookup. Qed.

Lemma existsb_eqb_In k names : existsb (String.eqb k) names = true <-> In k names.
Proof.
  rewrite existsb_exists. split.
  - intros [x [Hx E]]. apply String.eqb_eq in E. now subst.
  - intros H. exists k. split; [exact H | apply String.eqb_refl].
Qed.

Lemma picked_keys names pfs k : In k (map fst (picked names pfs)) <-> In k names.
Proof.
  rewrite <- has_key_In, <- existsb_eqb_In. unfold has_key. rewrite picked_lookup.
  destruct (existsb (String.eqb k) names); intuition discriminate.
Qed.

Lemma fold_pick_values (P : value -> Prop) names pfs :
  P JUndef -> Forall P (map snd pfs) ->
  forall m, Forall P (map snd m) ->
  Forall P (map snd (fold_left (fun propertiesMap property =>
               assoc_set property
                 (match lookup property pfs with Some v => v | None => JUndef end)
                 propertiesMap) names m)).
Proof.
  intros Hu Hp. induction names as [|name names IH]; intros m Hm; simpl; [exact Hm|].
  apply IH. apply assoc_set_values; [|exact Hm].
  destruct (lookup name pfs) as [v|] eqn:E; [|exact Hu].
  exact (lookup_values P name pfs v Hp E).
Qed.

Lemma IsObjectSchema_with_properties fs fs' c c' :
  lookup "type" fs' = lookup "type" fs ->
  has_key "properties" fs' = true ->
  IsObjectSchema (builder fs c) = Ret true ->
  IsObjectSchema (builder fs' c') = Ret true.
Proof.
  intros E1 E2. unfold IsObjectSchema. cbn [schemaObject builder has_prop].
  rewrite !get_prop_object, E1. unfold has_key in *. rewrite E1.
  destruct (lookup "type" fs) as [ty|]; cbn [bind negb].
  - destruct (is_string ty "object"); cbn [negb]; [reflexivity | discriminate].
  - cbn [is_string negb]. destruct (lookup "properties" fs'); [reflexivity | discriminate].
Qed.

Lemma pick_finish fs config names fs4 :
  constructible (JObj fs) ->
  lookup "properties" fs4 = Some (JObj (picked names (declared fs))) ->
  required_list fs4 = kept_required names (required_list fs) ->
  match lookup "required" fs4 with None | Some (JArr _) => true | _ => false end = true ->
  (forall k, k <> "properties" -> k <> "required" -> lookup k fs4 = lookup k fs) ->
  exists fs',
    (s5 <- set_prop (JObj fs4) "additionalProperties" (JBool false) ;;
     new_SchemaBuilder s5 config) = Ret (builder fs' config) /\
    constructible (JObj fs') /\
    lookup "properties" fs' = Some (JObj (picked names (declared fs))) /\
    required_list fs' = kept_required names (required_list fs) /\
    typed_object fs' = true /\
    lookup "additionalProperties" fs' = Some (JBool false) /\
    (forall k, ~ In k ["properties"; "required"; "additionalProperties"] ->
               lookup k fs' = lookup k fs).
Proof.
  intros Hc H4p H4r H4t H4o. cbn [set_prop bind].
  set (fs' := assoc_set "additionalProperties" (JBool false) fs4).
  assert (Hp : lookup "properties" fs' = Some (JObj (picked names (declared fs)))).
  { unfold fs'. now rewrite lookup_assoc_set_other by discriminate. }
  assert (Hr : lookup "required" fs' = lookup "required" fs4).
  { unfold fs'. now rewrite lookup_assoc_set_other by discriminate. }
  assert (Ha : lookup "additionalProperties" fs' = Some (JBool false)).
  { apply lookup_assoc_set_same. }
  assert (Ho : forall k, ~ In k ["properties"; "required"; "additionalProperties"] ->
                         lookup k fs' = lookup k fs).
  { intros k Hk. unfold fs'. simpl in Hk.
    rewrite lookup_assoc_set_other by (intros E; apply Hk; auto).
    apply H4o; intros ->; apply Hk; auto. }
  assert (Hc' : constructible (JObj fs')).
  { apply (constructible_frame fs fs' _ Hc Ho Hp); [|now right].
    unfold picked. apply fold_pick_values.
    - reflexivity.
    - now apply constructible_declared.
    - constructor. }
  exists fs'. split; [now apply new_SchemaBuilder_constructible|].
  repeat split; auto.
  - unfold required_list in *. now rewrite Hr.
  - unfold typed_object. now rewrite Hp, Hr.
Qed.

(** What [PickProperties] returns on a typed object schema without
    combinator keywords, whatever its [additionalProperties]. *)
Lemma PickProperties_object fs config names :
  constructible (JObj fs) ->
  typed_object fs = true ->
  IsObjectSchema (builder fs config) = Ret true ->
  HasSchemasCombinationKeywords (builder fs config) = Ret false ->
  exists fs',
    PickProperties (builder fs config) names = Ret (builder fs' config) /\
    constructible (JObj fs') /\
    lookup "properties" fs' = Some (JObj (picked names (declared fs))) /\
    required_list fs' = kept_required names (required_list fs) /\
    typed_object fs' = true /\
    lookup "additionalProperties" fs' = Some (JBool false) /\
    (forall k, ~ In k ["properties"; "required"; "additionalProperties"] ->
               lookup k fs' = lookup k fs).
Proof.
  intros Hc Ht Hobj Hcomb.
  unfold PickProperties. rewrite Hobj. cbn [bind negb]. rewrite Hcomb.
  cbn [bind schemaObject builder validationConfig].
  rewrite CloneJSON_id. unfold default_prop. rewrite get_prop_object. cbn [bind].
  set (p0 := if truthy match lookup "properties" fs with Some v => v | None => JUndef end
             then match lookup "properties" fs with Some v => v | None => JUndef end
             else JObj []).
  assert (Hp0 : p0 = JObj (declared fs)).
  { unfold p0, declared. unfold typed_object in Ht. apply andb_true_iff in Ht as [Ht _].
    destruct (lookup "properties" fs) as [[ | | | | | | pfs]|]; try discriminate; reflexivity. }
  rewrite Hp0. cbn [set_prop bind]. rewrite get_prop_object, lookup_assoc_set_same.
  cbn [bind]. rewrite pick_loop. cbn [bind set_prop].
  fold (picked names (declared fs)).
  set (fs2 := assoc_set "properties" (JObj (picked names (declared fs)))
                (assoc_set "properties" (JObj (declared fs)) fs)).
  assert (H2p : lookup "properties" fs2 = Some (JObj (picked names (declared fs)))).
  { apply lookup_assoc_set_same. }
  assert (H2o : forall k, k <> "properties" -> lookup k fs2 = lookup k fs).
  { intros k Hk. unfold fs2. rewrite !lookup_assoc_set_other by congruence. reflexivity. }
  rewrite get_prop_object, H2o by discriminate.
  unfold typed_object in Ht. apply andb_true_iff in Ht as [_ Ht].
  destruct (lookup "required" fs) as [[ | | | | | req | ]|] eqn:Er; try discriminate.
  - cbn [truthy array_filter bind set_prop]. rewrite get_prop_object.
    rewrite lookup_assoc_set_same. cbn [bind].
    fold (kept_required names req).
    destruct (kept_required names req) as [|r0 kept] eqn:Ek.
    + cbn [delete_prop bind]. apply pick_finish; auto.
      * rewrite lookup_assoc_remove_other, lookup_assoc_set_other by discriminate.
        exact H2p.
      * unfold required_list. now rewrite lookup_assoc_remove_same, Er, Ek.
      * now rewrite lookup_assoc_remove_same.
      * intros k Hk1 Hk2.
        rewrite lookup_assoc_remove_other, lookup_assoc_set_other by congruence.
        now apply H2o.
    + apply pick_finish; auto.
      * rewrite lookup_assoc_set_other by discriminate. exact H2p.
      * unfold required_list. now rewrite lookup_assoc_set_same, Er, Ek.
      * now rewrite lookup_assoc_set_same.
      * intros k Hk1 Hk2. rewrite lookup_assoc_set_other by congruence. now apply H2o.
  - cbn [truthy bind]. rewrite get_prop_object, H2o, Er by discriminate.
    cbn [bind]. apply pick_finish; auto.
    + unfold required_list. rewrite H2o, Er by discriminate. reflexivity.
    + now rewrite H2o, Er by discriminate.
Qed.

Lemma IsObjectSchema_total fs config :
  exists b, IsObjectSchema (builder fs config) = Ret b.
Proof.
  unfold IsObjectSchema. cbn [schemaObject builder has_prop]. rewrite get_prop_object.
  cbn [bind]. destruct (is_string _ "object"); [eauto|].
  destruct (negb (has_key "type" fs)); eauto.
Qed.

Lemma PickProperties_simple fs fs' config :
  IsObjectSchema (builder fs config) = Ret true ->
  HasSchemasCombinationKeywords (builder fs config) = Ret false ->
  lookup "properties" fs' <> None ->
  lookup "additionalProperties" fs' = Some (JBool false) ->
  (forall k, ~ In k ["properties"; "required"; "additionalProperties"] ->
             lookup k fs' = lookup k fs) ->
  IsObjectSchema (builder fs' config) = Ret true /\
  HasSchemasCombinationKeywords (builder fs' config) = Ret false.
Proof.
  intros Hobj Hcomb Hp Ha Ho. split.
  - apply (IsObjectSchema_with_properties fs fs' config config); auto.
    + apply Ho. simpl. intuition discriminate.
    + unfold has_key. destruct (lookup "properties" fs'); [reflexivity | contradiction].
  - rewrite <- Hcomb. apply HasSchemasCombinationKeywords_frame.
    intros k Hk. apply Ho. simpl in *. intuition (subst; discriminate).
Qed.




Lemma existsb_is_string r names :
  existsb (fun property => is_string r property) names =
  match r with JStr s => existsb (String.eqb s) names | _ => false end.
Proof.
  destruct r; simpl; try reflexivity;
    induction names as [|name names IH]; simpl; auto.
Qed.

Lemma kept_required_ext names1 names2 required :
  (forall k, In k names1 <-> In k names2) ->
  kept_required names1 required = kept_required names2 required.
Proof.
  intros H. unfold kept_required. apply filter_ext. intros r.
  rewrite !existsb_is_string. destruct r; try reflexivity.
  apply eq_iff_eq_true. now rewrite !existsb_eqb_In.
Qed.



(** ** MergeProperties *)

Lemma typed_object_required fs : typed_object fs = true -> typed_required fs = true.
Proof. unfold typed_object, typed_required. now intros [_ H]%andb_true_iff. Qed.

Lemma read_listed fs key :
  typed_required fs = true ->
  (if truthy (required_value fs) then includes_string (required_value fs) key
   else Ret false) = Ret (listed key (required_list fs)).
Proof.
  unfold typed_required, required_value, required_list.
  destruct (lookup "required" fs) as [[ | | | | | l | ]|]; try discriminate; reflexivity.
Qed.

Lemma listed_true_required fs key :
  typed_required fs = true ->
  listed key (required_list fs) = true ->
  required_value fs = JArr (required_list fs).
Proof.
  unfold typed_required, required_value, required_list.
  destruct (lookup "required" fs) as [[ | | | | | l | ]|]; try discriminate; reflexivity.
Qed.

Lemma push_required fs key :
  typed_required fs = true ->
  (s <- default_prop (JObj fs) "required" (JArr []) ;;
   required1 <- get_prop s "required" ;;
   required1 <- array_push required1 (JStr key) ;;
   set_prop s "required" required1) =
  Ret (JObj (assoc_set "required" (JArr (required_list fs ++ [JStr key]))
               (assoc_set "required" (JArr (required_list fs)) fs))).
Proof.
  unfold typed_required, required_list, default_prop. rewrite get_prop_object.
  destruct (lookup "required" fs) as [[ | | | | | l | ]|]; try discriminate; intros _;
    cbn [bind truthy set_prop]; rewrite get_prop_object, lookup_assoc_set_same;
    reflexivity.
Qed.

Lemma set_prop2_object fs k1 k2 v inner :
  lookup k1 fs = Some (JObj inner) ->
  set_prop2 (JObj fs) k1 k2 v = Ret (JObj (assoc_set k1 (JObj (assoc_set k2 v inner)) fs)).
Proof. intros E. unfold set_prop2. now rewrite get_prop_object, E. Qed.

Lemma listed_app key k l :
  listed k (l ++ [JStr key]) = listed k l || (key =? k).
Proof. unfold listed. rewrite existsb_app. simpl. now rewrite orb_false_r. Qed.

Lemma listed_filter_other key k l :
  k <> key -> listed k (filter (fun p => negb (is_string p key)) l) = listed k l.
Proof.
  intros Hne. unfold listed. induction l as [|x l IH]; simpl; [reflexivity|].
  destruct (is_string x key) eqn:E; simpl.
  - rewrite IH. destruct x; simpl in *; try discriminate.
    apply String.eqb_eq in E. subst.
    destruct (String.eqb_spec key k); [congruence | reflexivity].
  - now rewrite IH.
Qed.

Lemma listed_filter_same key l :
  listed key (filter (fun p => negb (is_string p key)) l) = false.
Proof.
  unfold listed. induction l as [|x l IH]; simpl; [reflexivity|].
  destruct (is_string x key) eqn:E; simpl; [exact IH | now rewrite E].
Qed.

Lemma constructible_anyOf a b :
  constructible a -> constructible b -> constructible (anyOf_pair a b).
Proof.
  intros Ha Hb. apply constructible_object. repeat split; try reflexivity.
  unfold visit_branches.
  cbn [get_prop lookup String.eqb Ascii.eqb Bool.eqb bind truthy array_forEach forEach].
  unfold constructible in *. now rewrite Ha, Hb.
Qed.

Lemma declared_present fs k v :
  typed_object fs = true -> lookup k (declared fs) = Some v ->
  lookup "properties" fs = Some (JObj (declared fs)).
Proof.
  unfold typed_object, declared. intros [H _]%andb_true_iff.
  destruct (lookup "properties" fs) as [[ | | | | | | pfs]|]; try discriminate; auto.
Qed.

(** Facts about [f] after [f.properties = JObj p]. *)
Lemma set_properties_facts f p :
  typed_required f = true ->
  let f' := assoc_set "properties" (JObj p) f in
  lookup "properties" f' = Some (JObj p) /\
  declared f' = p /\
  lookup "required" f' = lookup "required" f /\
  typed_object f' = true /\
  (forall k, k <> "properties" -> lookup k f' = lookup k f).
Proof.
  intros Ht f'.
  assert (Hp : lookup "properties" f' = Some (JObj p)) by apply lookup_assoc_set_same.
  assert (Ho : forall k, k <> "properties" -> lookup k f' = lookup k f).
  { intros k Hk. apply lookup_assoc_set_other. congruence. }
  repeat split; auto.
  - unfold declared. now rewrite Hp.
  - apply Ho. discriminate.
  - unfold typed_object. rewrite Hp, Ho by discriminate. exact Ht.
Qed.

(** Facts about [f] after [f.required = JArr r]. *)
Lemma set_required_facts f r :
  typed_object f = true ->
  let f' := assoc_set "required" (JArr r) f in
  lookup "properties" f' = lookup "properties" f /\
  declared f' = declared f /\
  required_list f' = r /\
  typed_object f' = true /\
  (forall k, k <> "required" -> lookup k f' = lookup k f).
Proof.
  intros Ht f'.
  assert (Hr : lookup "required" f' = Some (JArr r)) by apply lookup_assoc_set_same.
  assert (Ho : forall k, k <> "required" -> lookup k f' = lookup k f).
  { intros k Hk. apply lookup_assoc_set_other. congruence. }
  repeat split; auto.
  - apply Ho. discriminate.
  - unfold declared. now rewrite Ho by discriminate.
  - unfold required_list. now rewrite Hr.
  - unfold typed_object in *. rewrite Hr, Ho by discriminate.
    apply andb_true_iff in Ht as [Ht _]. now rewrite Ht.
Qed.

Lemma MergeProperties_step_spec fs1 f f2 key b :
  merge_invariant fs1 f ->
  typed_object f2 = true ->
  lookup key (declared f2) = Some b ->
  constructible b ->
  exists f',
    MergeProperties_step (JObj f2) (JObj f) key = Ret (JObj f') /\
    merge_invariant fs1 f' /\
    lookup key (declared f') =
      Some (match lookup key (declared f) with
            | Some a => anyOf_pair a b
            | None => b
            end) /\
    listed key (required_list f') =
      match lookup key (declared f) with
      | Some _ => listed key (required_list f) && listed key (required_list f2)
      | None => listed key (required_list f) || listed key (required_list f2)
      end /\
    (forall k, k <> key ->
       lookup k (declared f') = lookup k (declared f) /\
       listed k (required_list f') = listed k (required_list f)).
Proof.
  intros (Ht & Hp & Hv & Ho) Ht2 Hb Hcb.
  pose proof (declared_present f2 key b Ht2 Hb) as Hp2.
  pose proof (typed_object_required f Ht) as Htr.
  pose proof (typed_object_required f2 Ht2) as Htr2.
  remember (MergeProperties_step (JObj f2) (JObj f) key) as run eqn:Erun.
  unfold MergeProperties_step in Erun.
  rewrite !get_prop_object, Hp, Hp2 in Erun. cbn [bind has_prop] in Erun.
  unfold has_key in Erun.
  destruct (lookup key (declared f)) as [a|] eqn:Ea; cbn [bind negb] in Erun.
  - (* the property is in both *)
    rewrite !get_prop_object, Ea, Hb in Erun. cbn [bind] in Erun.
    rewrite (set_prop2_object f _ _ _ _ Hp) in Erun. cbn [bind] in Erun.
    fold (anyOf_pair a b) in Erun.
    set (p' := assoc_set key (anyOf_pair a b) (declared f)) in *.
    destruct (set_properties_facts f p' Htr) as (H1p & H1d & H1r & H1t & H1o).
    set (f1 := assoc_set "properties" (JObj p') f) in *.
    assert (Hv' : Forall constructible (map snd p')).
    { apply assoc_set_values; [|exact Hv]. apply constructible_anyOf; [|exact Hcb].
      exact (lookup_values _ _ _ _ Hv Ea). }
    assert (Hinv1 : merge_invariant fs1 f1).
    { repeat split; auto.
      - now rewrite H1d.
      - now rewrite H1d.
      - intros k Hk1 Hk2. rewrite H1o by assumption. now apply Ho. }
    assert (Hreq1 : required_list f1 = required_list f).
    { unfold required_list. now rewrite H1r. }
    rewrite get_prop_object in Erun. fold (required_value f1) in Erun.
    cbn [bind] in Erun.
    rewrite (read_listed f1 key (typed_object_required f1 H1t)), Hreq1 in Erun.
    cbn [bind] in Erun.
    fold (required_value f2) in Erun.
    rewrite (read_listed f2 key Htr2) in Erun.
    destruct (listed key (required_list f)) eqn:El1; cbn [negb andb bind] in Erun.
    + destruct (listed key (required_list f2)) eqn:El2; cbn [bind] in Erun.
      * exists f1. split; [exact Erun|]. split; [exact Hinv1|].
        rewrite H1d, Hreq1, El1. unfold p'. rewrite lookup_assoc_set_same.
        split; [reflexivity|]. split; [reflexivity|].
        intros k Hk. split; [|reflexivity].
        apply lookup_assoc_set_other. congruence.
      * rewrite (listed_true_required f1 key (typed_object_required f1 H1t)) in Erun
          by (now rewrite Hreq1).
        cbn [array_filter bind set_prop] in Erun. rewrite Hreq1 in Erun.
        set (r' := filter (fun p : value => negb (is_string p key)) (required_list f)) in *.
        destruct (set_required_facts f1 r' H1t) as (H2p & H2d & H2r & H2t & H2o).
        eexists. split; [exact Erun|].
        rewrite H2d, H2r, H1d. unfold p'. rewrite lookup_assoc_set_same.
        split; [|split; [reflexivity|split]].
        -- split; [exact H2t|]. split; [now rewrite H2d, H2p, H1p, H1d|].
           split; [now rewrite H2d, H1d|].
           intros k Hk1 Hk2. rewrite H2o, H1o by (assumption || congruence).
           now apply Ho.
        -- apply listed_filter_same.
        -- intros k Hk. split; [|now apply listed_filter_other].
           apply lookup_assoc_set_other. congruence.
    + exists f1. split; [exact Erun|]. split; [exact Hinv1|].
      rewrite H1d, Hreq1, El1. unfold p'. rewrite lookup_assoc_set_same.
      split; [reflexivity|]. split; [reflexivity|].
      intros k Hk. split; [|reflexivity].
      apply lookup_assoc_set_other. congruence.
  - (* the property is new *)
    rewrite get_prop_object, Hb in Erun. cbn [bind] in Erun.
    rewrite (set_prop2_object f _ _ _ _ Hp) in Erun. cbn [bind] in Erun.
    set (p' := assoc_set key b (declared f)) in *.
    destruct (set_properties_facts f p' Htr) as (H1p & H1d & H1r & H1t & H1o).
    set (f1 := assoc_set "properties" (JObj p') f) in *.
    assert (Hv' : Forall constructible (map snd p')).
    { apply assoc_set_values; assumption. }
    assert (Hinv1 : merge_invariant fs1 f1).
    { repeat split; auto.
      - now rewrite H1d.
      - now rewrite H1d.
      - intros k Hk1 Hk2. rewrite H1o by assumption. now apply Ho. }
    assert (Hreq1 : required_list f1 = required_list f).
    { unfold required_list. now rewrite H1r. }
    fold (required_value f2) in Erun.
    rewrite (read_listed f2 key Htr2) in Erun. cbn [bind] in Erun.
    destruct (listed key (required_list f2)) eqn:El2.
    + rewrite (push_required f1 key (typed_object_required f1 H1t)) in Erun.
      rewrite Hreq1 in Erun.
      set (f1' := assoc_set "required" (JArr (required_list f)) f1) in *.
      destruct (set_required_facts f1 (required_list f) H1t) as (H2p & H2d & H2r & H2t & H2o).
      fold f1' in H2p, H2d, H2r, H2t, H2o.
      destruct (set_required_facts f1' (required_list f ++ [JStr key]) H2t)
        as (H3p & H3d & H3r & H3t & H3o).
      eexists. split; [exact Erun|].
      rewrite H3d, H3r, H2d, H1d. unfold p'. rewrite lookup_assoc_set_same.
      split; [|split; [reflexivity|split]].
      * split; [exact H3t|]. split; [now rewrite H3d, H3p, H2p, H1p, H2d, H1d|].
        split; [now rewrite H3d, H2d, H1d|].
        intros k Hk1 Hk2. rewrite H3o, H2o, H1o by (assumption || congruence).
        now apply Ho.
      * rewrite listed_app, String.eqb_refl. now rewrite !orb_true_r.
      * intros k Hk. split; [apply lookup_assoc_set_other; congruence|].
        rewrite listed_app. destruct (String.eqb_spec key k); [congruence|].
        now rewrite orb_false_r.
    + exists f1. split; [exact Erun|]. split; [exact Hinv1|].
      rewrite H1d, Hreq1. unfold p'. rewrite lookup_assoc_set_same, orb_false_r.
      split; [reflexivity|]. split; [reflexivity|].
      intros k Hk. split; [|reflexivity].
      apply lookup_assoc_set_other. congruence.
Qed.

Lemma MergeProperties_loop fs1 f2 :
  typed_object f2 = true ->
  Forall constructible (map snd (declared f2)) ->
  forall ks, NoDup ks ->
  (forall k, In k ks -> In k (map fst (declared f2))) ->
  forall f, merge_invariant fs1 f ->
  exists f',
    foldM (MergeProperties_step (JObj f2)) ks (JObj f) = Ret (JObj f') /\
    merge_invariant fs1 f' /\
    (forall k b, In k ks -> lookup k (declared f2) = Some b ->
       lookup k (declared f') =
         Some (match lookup k (declared f) with
               | Some a => anyOf_pair a b
               | None => b
               end) /\
       listed k (required_list f') =
         match lookup k (declared f) with
         | Some _ => listed k (required_list f) && listed k (required_list f2)
         | None => listed k (required_list f) || listed k (required_list f2)
         end) /\
    (forall k, ~ In k ks ->
       lookup k (declared f') = lookup k (declared f) /\
       listed k (required_list f') = listed k (required_list f)).
Proof.
  intros Ht2 Hv2. induction ks as [|key ks IH]; intros Hnd Hin f Hinv.
  - exists f. split; [reflexivity|]. split; [exact Hinv|]. split.
    + intros k b [].
    + intros k _. split; reflexivity.
  - inversion Hnd as [|? ? Hkey Hnd']; subst.
    assert (Hb : exists b, lookup key (declared f2) = Some b).
    { specialize (Hin key (or_introl eq_refl)). apply has_key_In in Hin.
      unfold has_key in Hin. destruct (lookup key (declared f2)); [eauto | discriminate]. }
    destruct Hb as [b Hb].
    destruct (MergeProperties_step_spec fs1 f f2 key b Hinv Ht2 Hb
                (lookup_values _ _ _ _ Hv2 Hb))
      as (f1 & Estep & Hinv1 & Hk1 & Hl1 & Hother1).
    destruct (IH Hnd' (fun k H => Hin k (or_intror H)) f1 Hinv1)
      as (f' & Eloop & Hinv' & Hin' & Hout').
    exists f'. split; [simpl; now rewrite Estep|]. split; [exact Hinv'|]. split.
    + intros k b' [<-|Hk] Hb'.
      * destruct (Hout' key Hkey) as [E1 E2]. rewrite E1, E2, Hk1, Hl1.
        assert (b' = b) by congruence. subst b'. auto.
      * assert (Hne : k <> key) by (intros ->; contradiction).
        destruct (Hin' k b' Hk Hb') as [E1 E2].
        destruct (Hother1 k Hne) as [E3 E4]. now rewrite E1, E2, E3, E4.
    + intros k Hk. simpl in Hk.
      assert (Hne : k <> key) by (intros ->; apply Hk; auto).
      destruct (Hout' k (fun H => Hk (or_intror H))) as [E1 E2].
      destruct (Hother1 k Hne) as [E3 E4]. now rewrite E1, E2, E3, E4.
Qed.



(** ** ToNullable *)

Lemma visit_properties_lookup t fs fs' :
  lookup "properties" fs' = lookup "properties" fs ->
  visit_properties t (JObj fs') = visit_properties t (JObj fs).
Proof. intros E. unfold visit_properties. simpl. now rewrite E. Qed.

(** The constructor reads the traversal keywords only. *)
Lemma constructible_same_keywords fs fs' :
  constructible (JObj fs) ->
  (forall k, In k ["$ref"; "properties"; "oneOf"; "allOf"; "anyOf"; "items"; "not";
                   "additionalProperties"] -> lookup k fs' = lookup k fs) ->
  constructible (JObj fs').
Proof.
  intros H Hk.
  apply constructible_object in H as (H0 & H1 & H2 & H3 & H4 & H5 & H6 & H7).
  apply constructible_object. repeat split.
  - unfold has_key in *. rewrite Hk; [exact H0 | simpl; auto].
  - rewrite (visit_properties_lookup _ fs); [exact H1 | apply Hk; simpl; auto].
  - rewrite (visit_branches_lookup _ fs); [exact H2 | apply Hk; simpl; auto].
  - rewrite (visit_branches_lookup _ fs); [exact H3 | apply Hk; simpl; auto].
  - rewrite (visit_branches_lookup _ fs); [exact H4 | apply Hk; simpl; auto 10].
  - rewrite (visit_node_lookup _ fs); [exact H5 | apply Hk; simpl; auto 10].
  - rewrite (visit_node_lookup _ fs); [exact H6 | apply Hk; simpl; auto 10].
  - rewrite (visit_additional_lookup _ fs); [exact H7 | apply Hk; simpl; auto 10].
Qed.

Lemma nullable_type_lookup vf k : k <> "type" -> lookup k (nullable_type vf) = lookup k vf.
Proof.
  intros Hk. unfold nullable_type.
  destruct (lookup "type" vf) as [[ | | | | t | ts | ]|]; try reflexivity.
  - destruct (negb (t =? "null")); [|reflexivity].
    apply lookup_assoc_set_other. congruence.
  - destruct (negb (listed "null" ts)); [|reflexivity].
    apply lookup_assoc_set_other. congruence.
Qed.

Lemma nullable_enum_lookup vf k : k <> "enum" -> lookup k (nullable_enum vf) = lookup k vf.
Proof.
  intros Hk. unfold nullable_enum.
  destruct (lookup "enum" vf) as [[ | | | | | es | ]|]; try reflexivity.
  destruct (negb (existsb is_null es)); [|reflexivity].
  apply lookup_assoc_set_other. congruence.
Qed.

Lemma constructible_nullable v : constructible v -> constructible (nullable_schema v).
Proof.
  intros H. assert (Hany : constructible (anyOf_pair v null_schema)).
  { apply constructible_anyOf; [exact H | reflexivity]. }
  destruct v; try exact Hany. simpl.
  destruct (has_key "type" fields); [|exact Hany].
  apply (constructible_same_keywords fields); [exact H|].
  intros k Hk. rewrite nullable_enum_lookup, nullable_type_lookup; [reflexivity | |];
    simpl in Hk; intuition (subst; discriminate).
Qed.

(** [ToNullable_property] computes [nullable_schema]. *)
Lemma ToNullable_property_run v :
  typed_property v = true -> ToNullable_property v = Ret (nullable_schema v).
Proof.
  destruct v as [ | | bl | | | | vf]; try discriminate; [reflexivity|].
  unfold typed_property, ToNullable_property, nullable_schema.
  cbn [is_boolean has_prop bind].
  destruct (has_key "type" vf) eqn:Ety; [|reflexivity].
  intros Henum. rewrite get_prop_object. cbn [bind].
  assert (Hstep : forall vf1, lookup "enum" vf1 = lookup "enum" vf ->
    (enumerated <- has_prop "enum" (JObj vf1) ;;
     if negb enumerated then Ret (JObj vf1) else
     enum <- get_prop (JObj vf1) "enum" ;;
     match enum with
     | JUndef | JNull => Ret (JObj vf1)
     | JArr values =>
         if negb (existsb is_null values)
         then set_prop (JObj vf1) "enum" (JArr (values ++ [JNull]))
         else Ret (JObj vf1)
     | JStr _ => Throw Unmodelled
     | _ => Throw TypeError
     end) = Ret (JObj (nullable_enum vf1))).
  { intros vf1 E. cbn [has_prop bind]. unfold has_key, nullable_enum.
    rewrite get_prop_object, E.
    destruct (lookup "enum" vf) as [[ | | | | | es | ]|]; try discriminate;
      cbn [negb bind]; try reflexivity.
    destruct (negb (existsb is_null es)); reflexivity. }
  unfold nullable_type.
  destruct (lookup "type" vf) as [[ | | | | t | ts | ]|];
    try (cbn [bind]; apply Hstep; reflexivity).
  - destruct (negb (t =? "null")); cbn [set_prop bind]; apply Hstep;
      [apply lookup_assoc_set_other; discriminate | reflexivity].
  - unfold listed. destruct (negb (existsb (fun t => is_string t "null") ts));
      cbn [set_prop bind]; apply Hstep;
      [apply lookup_assoc_set_other; discriminate | reflexivity].
Qed.

Lemma ToNullable_step_spec fs1 f rl key v :
  nullable_invariant fs1 f ->
  lookup key (declared f) = Some v ->
  typed_property v = true ->
  exists f',
    (listed <- includes_string (JArr rl) key ;;
     if listed then Ret (JObj f) else
     declared <- get_prop (JObj f) "properties" ;;
     propertyValue <- get_prop declared key ;;
     widened <- ToNullable_property propertyValue ;;
     set_prop2 (JObj f) "properties" key widened) = Ret (JObj f') /\
    nullable_invariant fs1 f' /\
    lookup key (declared f') = Some (if listed key rl then v else nullable_schema v) /\
    (forall k, k <> key -> lookup k (declared f') = lookup k (declared f)).
Proof.
  intros [(Ht & Hp & Hv & Ho) Hr] Hk Htv.
  cbn [includes_string bind]. fold (listed key rl).
  destruct (listed key rl).
  - exists f. repeat split; auto.
  - set (p' := assoc_set key (nullable_schema v) (declared f)).
    destruct (set_properties_facts f p' (typed_object_required f Ht))
      as (H1p & H1d & H1r & H1t & H1o).
    exists (assoc_set "properties" (JObj p') f). split.
    + rewrite get_prop_object, Hp. cbn [bind]. rewrite get_prop_object, Hk.
      cbn [bind]. rewrite (ToNullable_property_run v Htv). cbn [bind].
      apply (set_prop2_object f _ _ _ _ Hp).
    + split; [split|].
      * split; [exact H1t|]. split; [now rewrite H1d|]. split.
        -- rewrite H1d. apply assoc_set_values; [|exact Hv].
           apply constructible_nullable. exact (lookup_values _ _ _ _ Hv Hk).
        -- intros k Hk1 Hk2. rewrite H1o by assumption. now apply Ho.
      * now rewrite H1r.
      * rewrite H1d. unfold p'. split; [apply lookup_assoc_set_same|].
        intros k Hne. apply lookup_assoc_set_other. congruence.
Qed.

Lemma ToNullable_loop fs1 rl :
  forall ks, NoDup ks ->
  forall f, nullable_invariant fs1 f ->
  (forall k, In k ks ->
     exists v, lookup k (declared f) = Some v /\ typed_property v = true) ->
  exists f',
    foldM (fun schemaObject propertyName =>
             listed <- includes_string (JArr rl) propertyName ;;
             if listed then Ret schemaObject else
             declared <- get_prop schemaObject "properties" ;;
             propertyValue <- get_prop declared propertyName ;;
             widened <- ToNullable_property propertyValue ;;
             set_prop2 schemaObject "properties" propertyName widened)
      ks (JObj f) = Ret (JObj f') /\
    nullable_invariant fs1 f' /\
    (forall k v, In k ks -> lookup k (declared f) = Some v ->
       lookup k (declared f') = Some (if listed k rl then v else nullable_schema v)) /\
    (forall k, ~ In k ks -> lookup k (declared f') = lookup k (declared f)).
Proof.
  induction ks as [|key ks IH]; intros Hnd f Hinv Hks.
  - exists f. split; [reflexivity|]. split; [exact Hinv|]. split.
    + intros k v [].
    + reflexivity.
  - inversion Hnd as [|? ? Hkey Hnd']; subst.
    destruct (Hks key (or_introl eq_refl)) as (v & Hv & Htv).
    destruct (ToNullable_step_spec fs1 f rl key v Hinv Hv Htv)
      as (f1 & Estep & Hinv1 & Hk1 & Hother1).
    assert (Hks1 : forall k, In k ks ->
              exists v, lookup k (declared f1) = Some v /\ typed_property v = true).
    { intros k Hk. rewrite Hother1 by (intros ->; contradiction).
      apply Hks. now right. }
    destruct (IH Hnd' f1 Hinv1 Hks1) as (f' & Eloop & Hinv' & Hin' & Hout').
    exists f'. split; [cbn [foldM]; now rewrite Estep|]. split; [exact Hinv'|]. split.
    + intros k v' [<-|Hk] Hv'.
      * rewrite (Hout' key Hkey), Hk1.
        assert (v' = v) by congruence. now subst.
      * apply Hin'; [exact Hk|]. rewrite Hother1; [exact Hv'|].
        intros ->; contradiction.
    + intros k Hk. simpl in Hk. rewrite Hout' by tauto.
      apply Hother1. intros ->. tauto.
Qed.

Lemma lookup_Some_keys k fs v : lookup k fs = Some v -> In k (map fst fs).
Proof. intros E. apply has_key_In. unfold has_key. now rewrite E. Qed.




(** ** The defaults resolver: local references *)

Lemma find_falsy pre key post : forall root r v,
  walks root pre r ->
  get_prop r key = Ret v -> truthy v = false ->
  find (pre ++ key :: post) root = Ret (JObj []).
Proof.
  induction pre as [|k pre IH]; intros root r v Hw Hget Hfalsy.
  - inversion Hw; subst. simpl. rewrite Hget. cbn [bind]. now rewrite Hfalsy.
  - inversion Hw as [|? ? x ? ? Hx Htx Hrest]; subst.
    cbn [app find]. rewrite Hx. cbn [bind]. rewrite Htx. cbn [negb].
    rewrite <- (IH x r v Hrest Hget Hfalsy).
    destruct pre; reflexivity.
Qed.

Lemma falsy_values v :
  truthy v = false <->
  v = JUndef \/ v = JNull \/ v = JBool false \/ v = JNum 0 \/ v = JStr "".
Proof.
  split.
  - destruct v as [ | | [|] | n | s | | ]; simpl; try discriminate; auto.
    + intros H. apply negb_false_iff, Z.eqb_eq in H. subst. auto.
    + intros H. apply negb_false_iff, String.eqb_eq in H. subst. auto 10.
  - intros [H|[H|[H|[H|H]]]]; subst; reflexivity.
Qed.

(** C10.  When the value stored under a path segment is falsy (missing,
    [null], [false], [0] or the empty string), [getLocalRef] yields the
    empty mapping, whatever is stored there.  A schema that is a [$ref]
    to such a path is resolved as [{}] (which has no default), and in an
    [allOf] list the item counts as [{}]. *)
Theorem C10_falsy_definition_is_missing (p : string) (definitions : value)
  (pre post : list string) (key : string) (r v : value) :
  split_slash (strip_definitions p) = (pre ++ key :: post)%list ->
  walks definitions pre r ->
  get_prop r key = Ret v ->
  truthy v = false ->
  (v = JUndef \/ v = JNull \/ v = JBool false \/ v = JNum 0 \/ v = JStr "") /\
  getLocalRef (JStr p) definitions = Ret (JObj []) /\
  (forall fuel s,
     get_prop s "default" = Ret JUndef ->
     get_prop s "allOf" = Ret JUndef ->
     get_prop s "$ref" = Ret (JStr p) ->
     defaults (S fuel) s definitions = defaults fuel (JObj []) definitions /\
     defaults (S (S fuel)) s definitions = Ret JUndef) /\
  (forall item rest,
     get_prop item "$ref" = Ret (JStr p) ->
     mergeAllOf (JArr (item :: rest)) definitions =
     mergeAllOf (JArr (JObj [] :: rest)) definitions).
Proof.
  intros Hpath Hw Hget Hfalsy.
  assert (Hres : getLocalRef (JStr p) definitions = Ret (JObj [])).
  { unfold getLocalRef. rewrite Hpath, (find_falsy pre key post _ r v Hw Hget Hfalsy).
    reflexivity. }
  split; [now apply falsy_values|]. split; [exact Hres|]. split.
  - intros fuel s Hd Ha Href.
    assert (E : defaults (S fuel) s definitions = defaults fuel (JObj []) definitions).
    { cbn [defaults]. rewrite Hd. cbn [bind is_undefined negb].
      rewrite Ha. cbn [bind is_undefined negb]. rewrite Href.
      cbn [bind is_undefined negb]. now rewrite Hres. }
    split; [exact E|].
    cbn [defaults]. rewrite Hd. cbn [bind is_undefined negb].
    rewrite Ha. cbn [bind is_undefined negb]. rewrite Href.
    cbn [bind is_undefined negb]. rewrite Hres. reflexivity.
  - intros item rest Href. cbn [mergeAllOf]. rewrite Href.
    cbn [bind is_undefined negb]. rewrite Hres. reflexivity.
Qed.

Lemma C10_falsy_definition_is_missing_witness :
  getLocalRef (JStr "#/definitions/A") (JObj [("A", JNum 0)]) = Ret (JObj []) /\
  getLocalRef (JStr "#/definitions/A") (JObj [("B", JNum 1)]) = Ret (JObj []) /\
  getLocalRef (JStr "#/definitions/A/x/y")
    (JObj [("A", JObj [("x", JBool false)])]) = Ret (JObj []).
Proof.
  split; [|split].
  - apply (C10_falsy_definition_is_missing "#/definitions/A" (JObj [("A", JNum 0)])
             [] [] "A" (JObj [("A", JNum 0)]) (JNum 0));
      [reflexivity | constructor | reflexivity | reflexivity].
  - apply (C10_falsy_definition_is_missing "#/definitions/A" (JObj [("B", JNum 1)])
             [] [] "A" (JObj [("B", JNum 1)]) JUndef);
      [reflexivity | constructor | reflexivity | reflexivity].
  - apply (C10_falsy_definition_is_missing "#/definitions/A/x/y"
             (JObj [("A", JObj [("x", JBool false)])])
             ["A"] ["y"] "x" (JObj [("x", JBool false)]) (JBool false));
      [reflexivity | | reflexivity | reflexivity].
    eapply walks_cons; [reflexivity | reflexivity | constructor].
Defined.

(** ** More fuel does not change a computed default *)

Lemma returns_more_refl {A : Type} (c : outcome A) : returns_more c c.
Proof. intros a H. exact H. Qed.

Lemma returns_more_bind {A B : Type} (c1 c2 : outcome A) (k1 k2 : A -> outcome B) :
  returns_more c1 c2 -> (forall a, returns_more (k1 a) (k2 a)) ->
  returns_more (bind c1 k1) (bind c2 k2).
Proof.
  intros Hc Hk b H. apply bind_Ret_inv in H as (a & Ha & Hb).
  rewrite (Hc a Ha). cbn [bind]. now apply Hk.
Qed.

Lemma returns_more_mapM {A B : Type} (f g : A -> outcome B) (l : list A) :
  (forall x, returns_more (f x) (g x)) -> returns_more (mapM f l) (mapM g l).
Proof.
  intros H. induction l as [|x l IH]; simpl; [apply returns_more_refl|].
  apply returns_more_bind; [apply H|]. intros y.
  apply returns_more_bind; [exact IH|]. intros ys. apply returns_more_refl.
Qed.

Lemma defaults_fuel_step definitions : forall n schema,
  returns_more (defaults n schema definitions) (defaults (S n) schema definitions).
Proof.
  induction n as [|n IH]; intros schema; [intros v H; discriminate|].
  remember (S n) as n1 eqn:En1.
  rewrite En1 at 1. cbn [defaults].
  repeat first
    [ apply returns_more_refl
    | apply IH
    | subst n1; apply IH
    | apply returns_more_bind; [apply returns_more_refl | intros ?]
    | match goal with
      | |- returns_more (if ?b then _ else _) (if ?b then _ else _) => destruct b
      end ].
  - (* object properties *)
    match goal with
    | |- returns_more (match ?p with _ => _ end) _ => destruct p
    end; try apply returns_more_refl.
    apply returns_more_bind; [|intros ?; apply returns_more_refl].
    induction fields as [|[key property] pfs IHp]; [apply returns_more_refl|].
    apply returns_more_bind; [subst n1; apply IH | intros d].
    apply returns_more_bind; [exact IHp | intros rest'; apply returns_more_refl].
  - (* array items *)
    match goal with
    | |- returns_more (match ?p with _ => _ end) _ => destruct p
    end;
    try (apply returns_more_bind; [subst n1; apply IH | intros ?; apply returns_more_refl]).
    apply returns_more_bind; [|intros ?; apply returns_more_refl].
    apply returns_more_mapM. intros x. subst n1. apply IH.
Qed.

Lemma defaults_fuel_mono definitions schema v : forall n m,
  n <= m -> defaults n schema definitions = Ret v -> defaults m schema definitions = Ret v.
Proof.
  intros n m Hle. induction Hle as [|m Hle IH]; [auto|].
  intros H. apply defaults_fuel_step. now apply IH.
Qed.

Lemma mapM_defaults_total definitions (positions : list value) :
  (forall item, In item positions ->
     exists k v, defaults k item definitions = Ret v) ->
  exists k values,
    mapM (fun item => defaults k item definitions) positions = Ret values.
Proof.
  induction positions as [|item rest IH]; intros H.
  - exists 0, []. reflexivity.
  - destruct (H item (or_introl eq_refl)) as (k1 & v & Hv).
    destruct (IH (fun x Hx => H x (or_intror Hx))) as (k2 & values & Hvalues).
    exists (Nat.max k1 k2), (v :: values). cbn [mapM].
    rewrite (defaults_fuel_mono _ _ _ k1 (Nat.max k1 k2) (Nat.le_max_l _ _) Hv).
    cbn [bind].
    assert (Hrest : returns_more
              (mapM (fun item => defaults k2 item definitions) rest)
              (mapM (fun item => defaults (Nat.max k1 k2) item definitions) rest)).
    { apply returns_more_mapM. intros x a Ha.
      exact (defaults_fuel_mono _ _ _ k2 (Nat.max k1 k2) (Nat.le_max_r _ _) Ha). }
    now rewrite (Hrest values Hvalues).
Qed.

(** ** The defaults resolver: tuple items *)

Lemma trim_loop_keeps ct : forall n values,
  (Z.of_nat n <= ct)%Z -> trim_loop n ct values = values.
Proof.
  induction n as [|i IH]; intros values Hn; [reflexivity|].
  cbn [trim_loop]. destruct (negb (is_undefined (nth i values JUndef))); [reflexivity|].
  replace (Z.of_nat i + 1 >? ct)%Z with false
    by (symmetry; rewrite Z.gtb_ltb; apply Z.ltb_ge; lia).
  apply IH. lia.
Qed.

Lemma is_undefined_eq v : is_undefined v = true <-> v = JUndef.
Proof. destruct v; simpl; split; intros H; congruence. Qed.

(** What the trimming loop leaves: a prefix whose removed tail is all
    [undefined], not shorter than the smaller of [ct] and the length, and
    ending in a defined value when longer than [ct]. *)
Lemma trim_loop_spec ct : forall n values,
  n = List.length values ->
  (exists tail, values = trim_loop n ct values ++ tail /\
                Forall (fun x => x = JUndef) tail) /\
  (Z.min ct (Z.of_nat (List.length values))
     <= Z.of_nat (List.length (trim_loop n ct values)))%Z /\
  (forall kept x, trim_loop n ct values = kept ++ [x] ->
                  (ct < Z.of_nat (List.length (trim_loop n ct values)))%Z ->
                  x <> JUndef).
Proof.
  induction n as [|i IH]; intros values Hlen.
  - destruct values; [|discriminate]. simpl. split; [exists []; auto|].
    split; [lia|]. intros kept x H. now destruct kept.
  - destruct (exists_last (l := values)) as (init & x0 & ->).
    { intros ->. discriminate. }
    rewrite length_app in Hlen. simpl in Hlen.
    assert (Hi : i = List.length init) by lia. subst i.
    cbn [trim_loop]. rewrite nth_middle.
    destruct (is_undefined x0) eqn:Ex; cbn [negb].
    + apply is_undefined_eq in Ex. subst x0.
      destruct (Z.of_nat (List.length init) + 1 >? ct)%Z eqn:Ect.
      * rewrite removelast_last.
        destruct (IH init eq_refl) as ((tail & Htail & Hundef) & Hmin & Hlast).
        split; [|split].
        -- exists (tail ++ [JUndef]). split.
           ++ rewrite app_assoc, <- Htail. reflexivity.
           ++ apply Forall_app. split; [exact Hundef | repeat constructor].
        -- rewrite length_app. simpl. rewrite Z.gtb_ltb in Ect.
           apply Z.ltb_lt in Ect. lia.
        -- exact Hlast.
      * rewrite Z.gtb_ltb in Ect. apply Z.ltb_ge in Ect.
        rewrite trim_loop_keeps by lia.
        split; [exists []; split; [now rewrite app_nil_r | constructor]|].
        split; [lia|]. intros kept x _ Hct. rewrite length_app in Hct. simpl in Hct. lia.
    + split; [exists []; split; [now rewrite app_nil_r | constructor]|].
      split; [lia|]. intros kept x H _. apply app_inj_tail in H as [_ <-].
      intros ->. discriminate.
Qed.

(** C6, as amended.  For an array schema without [default], [allOf] and
    [$ref] whose [items] is a tuple and whose [minItems] is [m] (0 when
    absent), the computed default is the sequence of the positions'
    defaults, trimmed; it is computed whenever every position's default
    is.  Trimming removes "no default" entries from the tail and never an
    entry at one of the positions 1..m: the result is a prefix, what is
    removed is all "no default", the length is never below the smaller of
    [m] and the number of positions, and a result longer than [m] ends in
    a default. *)
Theorem C6_tuple_default (fuel : nat) (schema definitions : value)
  (positions : list value) (minItems : value) (m : Z) :
  get_prop schema "default" = Ret JUndef ->
  get_prop schema "allOf" = Ret JUndef ->
  get_prop schema "$ref" = Ret JUndef ->
  get_prop schema "type" = Ret (JStr "array") ->
  get_prop schema "items" = Ret (JArr positions) ->
  get_prop schema "minItems" = Ret minItems ->
  (minItems = JNum m \/ (minItems = JUndef /\ m = 0%Z)) ->
  defaults (S fuel) schema definitions =
    (values <- mapM (fun item => defaults fuel item definitions) positions ;;
     Ret (JArr (trim_undefined m values))) /\
  ((forall item, In item positions ->
      exists k v, defaults k item definitions = Ret v) ->
   exists k values,
     mapM (fun item => defaults k item definitions) positions = Ret values /\
     defaults (S k) schema definitions = Ret (JArr (trim_undefined m values))) /\
  (forall values,
     (exists tail, values = trim_undefined m values ++ tail /\
                   Forall (fun x => x = JUndef) tail) /\
     (Z.min m (Z.of_nat (List.length values))
        <= Z.of_nat (List.length (trim_undefined m values)))%Z /\
     (forall kept x, trim_undefined m values = kept ++ [x] ->
                     (m < Z.of_nat (List.length (trim_undefined m values)))%Z ->
                     x <> JUndef)).
Proof.
  intros Hd Ha Hr Hty Hit Hmin Hm.
  assert (Hrun : forall k,
    defaults (S k) schema definitions =
    (values <- mapM (fun item => defaults k item definitions) positions ;;
     Ret (JArr (trim_undefined m values)))).
  { intros k. cbn [defaults]. rewrite Hd. cbn [bind is_undefined negb].
    rewrite Ha. cbn [bind is_undefined negb]. rewrite Hr. cbn [bind is_undefined negb].
    rewrite Hty. cbn [bind is_string]. rewrite String.eqb_refl.
    replace ("array" =? "object") with false by reflexivity.
    rewrite Hit. cbn [bind truthy negb]. rewrite Hmin. cbn [bind].
    assert (Hct : minimum_count minItems = Ret m).
    { destruct Hm as [->|[-> ->]]; [|reflexivity].
      unfold minimum_count. simpl. destruct (Z.eqb_spec m 0); subst; reflexivity. }
    rewrite Hct. reflexivity. }
  split; [apply Hrun|]. split.
  - intros Hitems. destruct (mapM_defaults_total definitions positions Hitems)
      as (k & values & Hk).
    exists k, values. split; [exact Hk|]. rewrite Hrun, Hk. reflexivity.
  - intros values. exact (trim_loop_spec m (List.length values) values eq_refl).
Qed.

Lemma C6_tuple_default_witness :
  defaults 2 example_tuple (JObj []) = Ret (JArr [JNum 1]) /\
  (Z.min 1 2 <= Z.of_nat (List.length (trim_undefined 1 [JNum 1; JUndef])))%Z.
Proof.
  destruct (C6_tuple_default 1 example_tuple (JObj [])
              [JObj [("default", JNum 1)]; JObj []] (JNum 1) 1%Z
              eq_refl eq_refl eq_refl eq_refl eq_refl eq_refl (or_introl eq_refl))
    as [Erun Hspec].
  split.
  - rewrite Erun. reflexivity.
  - exact (proj1 (proj2 (proj2 Hspec [JNum 1; JUndef]))).
Defined.

(** C6 as stated fails: with one position and [minItems] 2 the computed
    default has one entry, fewer than [minItems]. *)
Lemma C6_counterexample :
  exists result,
    DefaultObject 2 short_tuple (JObj []) = Ret (JArr result) /\
    (Z.of_nat (List.length result) < 2)%Z.
Proof. exists [JNum 1]. split; [reflexivity | simpl; lia]. Qed.


(** ** The defaults resolver: effective definitions *)

Lemma merge_object target fs :
  merge target (JObj fs) =
  (target <- cloneJSON target ;;
   foldM (fun target kv => merge_entry merge target (fst kv) (snd kv)) fs target).
Proof. reflexivity. Qed.

Lemma merge_entry_object tfs key d r :
  merge_entry merge (JObj tfs) key d = Ret r ->
  exists x, r = JObj (assoc_set key x tfs) /\
    if isObject (field key tfs) && isObject d
    then merge (field key tfs) d = Ret x
    else x = d.
Proof.
  unfold merge_entry. rewrite get_prop_object. fold (field key tfs). cbn [bind].
  destruct (isObject (field key tfs) && isObject d).
  - destruct (merge (field key tfs) d) as [m| |]; cbn [bind set_prop]; try discriminate.
    intros [= <-]. eauto.
  - cbn [bind set_prop]. intros [= <-]. eauto.
Qed.

Lemma field_assoc_set_other k k' v fs : k <> k' -> field k' (assoc_set k v fs) = field k' fs.
Proof. intros H. unfold field. now rewrite lookup_assoc_set_other. Qed.

(** The loop of [merge] over the fields of an object source. *)
Lemma merge_loop_spec : forall fs tfs r,
  NoDup (map fst fs) ->
  foldM (fun target kv => merge_entry merge target (fst kv) (snd kv)) fs (JObj tfs) = Ret r ->
  exists rfs, r = JObj rfs /\
    (forall k d, lookup k fs = Some d ->
       if isObject (field k tfs) && isObject d
       then exists m, merge (field k tfs) d = Ret m /\ lookup k rfs = Some m
       else lookup k rfs = Some d) /\
    (forall k, lookup k fs = None -> lookup k rfs = lookup k tfs).
Proof.
  induction fs as [|[key d] fs IH]; intros tfs r Hnd Hrun.
  - simpl in Hrun. injection Hrun as <-. exists tfs. split; [reflexivity|].
    split; [intros k d [=] | reflexivity].
  - inversion Hnd as [|? ? Hkey Hnd']; subst.
    cbn [foldM fst snd] in Hrun. apply bind_Ret_inv in Hrun as (t1 & Hentry & Hrest).
    apply merge_entry_object in Hentry as (x & -> & Hx).
    destruct (IH _ _ Hnd' Hrest) as (rfs & -> & Hin & Hout).
    apply lookup_None_keys in Hkey.
    exists rfs. split; [reflexivity|]. split.
    + intros k d'. cbn [lookup].
      destruct (String.eqb_spec key k) as [<-|Hne].
      * intros [= <-]. rewrite (Hout key Hkey), lookup_assoc_set_same.
        destruct (isObject (field key tfs) && isObject d); [eauto | now subst].
      * intros Hk. specialize (Hin k d' Hk).
        now rewrite (field_assoc_set_other key k x tfs Hne) in Hin.
    + intros k. cbn [lookup].
      destruct (String.eqb_spec key k) as [<-|Hne]; [discriminate|].
      intros Hk. rewrite (Hout k Hk). now apply lookup_assoc_set_other.
Qed.

Lemma merge_loop_total : forall fs tfs,
  NoDup (map fst fs) ->
  (forall k d, lookup k fs = Some d ->
     isObject (field k tfs) && isObject d = true ->
     exists m, merge (field k tfs) d = Ret m) ->
  exists r,
    foldM (fun target kv => merge_entry merge target (fst kv) (snd kv)) fs (JObj tfs) = Ret r.
Proof.
  induction fs as [|[key d] fs IH]; intros tfs Hnd Hsub.
  - exists (JObj tfs). reflexivity.
  - inversion Hnd as [|? ? Hkey Hnd']; subst.
    assert (Hentry : exists x, merge_entry merge (JObj tfs) key d
                               = Ret (JObj (assoc_set key x tfs))).
    { unfold merge_entry. rewrite get_prop_object. fold (field key tfs). cbn [bind].
      destruct (isObject (field key tfs) && isObject d) eqn:E.
      - destruct (Hsub key d) as (m & Hm); [cbn; now rewrite String.eqb_refl | exact E |].
        rewrite Hm. cbn. eauto.
      - cbn. eauto. }
    destruct Hentry as (x & Hentry).
    destruct (IH (assoc_set key x tfs) Hnd') as (r & Hr).
    { intros k d' Hk. assert (Hne : key <> k).
      { intros <-. apply lookup_Some_keys in Hk. contradiction. }
      rewrite (field_assoc_set_other key k x tfs Hne). apply Hsub.
      cbn [lookup]. destruct (String.eqb_spec key k); [contradiction | exact Hk]. }
    exists r. cbn [foldM fst snd]. rewrite Hentry. exact Hr.
Qed.

Lemma json_roundtrip_object fs : exists cfs, json_roundtrip (JObj fs) = JObj cfs.
Proof. simpl. eauto. Qed.




(** ** The accessors and the identity of the nodes they return *)

Lemma set_index_lookup k x : forall l i l',
  set_index k i x l = Some l' -> lookup_index k i l' = Some x.
Proof.
  induction l as [|y l IH]; intros i l'; simpl.
  - destruct (index_key i =? k) eqn:E; [|discriminate].
    intros [= <-]. simpl. now rewrite E.
  - destruct (index_key i =? k) eqn:E.
    + intros [= <-]. simpl. now rewrite E.
    + destruct (set_index k (S i) x l) as [rest|] eqn:Er; [|discriminate].
      intros [= <-]. simpl. rewrite E. now apply IH.
Qed.

(** Reading what was just written. *)
Lemma get_set_prop v k x v' : set_prop v k x = Ret v' -> get_prop v' k = Ret x.
Proof.
  destruct v as [ | | | | | l | fs]; simpl; try discriminate.
  - destruct (set_index k 0 x l) as [l'|] eqn:E; [|discriminate].
    intros [= <-]. simpl. unfold indexed_get.
    now rewrite (set_index_lookup k x l 0 l' E).
  - intros [= <-]. simpl. now rewrite lookup_assoc_set_same.
Qed.

Lemma set_get_path key x : forall q v v',
  Heap.set_path v q key x = Ret v' -> Heap.get_path v' (q ++ [key]) = Ret x.
Proof.
  induction q as [|k q IH]; intros v v' H; simpl in *.
  - rewrite (get_set_prop _ _ _ _ H). reflexivity.
  - apply bind_Ret_inv in H as (inner & _ & H).
    apply bind_Ret_inv in H as (inner' & Hin & H).
    rewrite (get_set_prop _ _ _ _ H). cbn [bind]. exact (IH _ _ Hin).
Qed.

Lemma set_get_path_app key x q : forall p v v',
  Heap.set_path v (p ++ q) key x = Ret v' ->
  exists s', Heap.get_path v' p = Ret s' /\ Heap.get_path s' (q ++ [key]) = Ret x.
Proof.
  induction p as [|k p IH]; intros v v' H.
  - exists v'. split; [reflexivity|]. now apply set_get_path in H.
  - cbn [app Heap.set_path] in H.
    apply bind_Ret_inv in H as (inner & _ & H).
    apply bind_Ret_inv in H as (inner' & Hin & H).
    destruct (IH _ _ Hin) as (s' & Hs & Hx).
    exists s'. split; [|exact Hx].
    cbn [Heap.get_path]. rewrite (get_set_prop _ _ _ _ H). exact Hs.
Qed.

Lemma nth_error_set_nth (st : Heap.store) v : forall n x,
  nth_error st n = Some x -> nth_error (Heap.set_nth n v st) n = Some v.
Proof.
  induction st as [|y st IH]; intros [|n] x H; simpl in *; try discriminate.
  - reflexivity.
  - now apply IH in H.
Qed.

(** A write through a handle is seen from every reference above it. *)
Lemma write_seen_above st r q key x st' :
  Heap.write st (Heap.Obj {| Heap.root := Heap.root r; Heap.path := Heap.path r ++ q |})
    key x = Ret st' ->
  exists s', Heap.deref st' r = Ret s' /\ Heap.get_path s' (q ++ [key]) = Ret x.
Proof.
  unfold Heap.write, Heap.deref. cbn [Heap.root Heap.path].
  destruct (nth_error st (Heap.root r)) as [v|] eqn:E; [|discriminate].
  intros H. apply bind_Ret_inv in H as (v' & Hset & [= <-]).
  rewrite (nth_error_set_nth st v' _ v E). now apply set_get_path_app in Hset.
Qed.

(** The handle [get_handle] returns for an object is the reference
    extended by the key. *)
Lemma get_handle_reference st h k r' :
  Heap.get_handle st h k = Ret (Heap.Obj r') ->
  exists r, h = Heap.Obj r /\
            r' = {| Heap.root := Heap.root r; Heap.path := Heap.path r ++ [k] |}.
Proof.
  destruct h as [v|r]; simpl.
  - destruct (get_prop v k); simpl; discriminate.
  - destruct (Heap.deref st r) as [v| |]; simpl; try discriminate.
    destruct (get_prop v k) as [x| |]; simpl; try discriminate.
    destruct x; intros [= <-]; eauto.
Qed.

Lemma new_SchemaBuilder_handle st h config b :
  Heap.new_SchemaBuilder st h config = Ret b -> Heap.schemaObject b = h.
Proof.
  unfold Heap.new_SchemaBuilder. intros H.
  apply bind_Ret_inv in H as (s & _ & H).
  apply bind_Ret_inv in H as (u & _ & [= <-]). reflexivity.
Qed.

Lemma GetSubschema_handle st this name sub :
  Heap.GetSubschema st this name = Ret sub ->
  exists props,
    Heap.get_handle st (Heap.schemaObject this) "properties" = Ret props /\
    Heap.get_handle st props name = Ret (Heap.schemaObject sub).
Proof.
  unfold Heap.GetSubschema. intros H.
  apply bind_Ret_inv in H as (s & _ & H).
  apply bind_Ret_inv in H as (simple & _ & H).
  apply bind_Ret_inv in H as (usable & _ & H).
  destruct usable; cbn [negb] in H; [|discriminate].
  apply bind_Ret_inv in H as (props & Hprops & H).
  apply bind_Ret_inv in H as (property & Hproperty & H).
  apply new_SchemaBuilder_handle in H. exists props. now rewrite H.
Qed.

Lemma GetItemsSubschema_handle st this sub :
  Heap.GetItemsSubschema st this = Ret sub ->
  Heap.get_handle st (Heap.schemaObject this) "items" = Ret (Heap.schemaObject sub).
Proof.
  unfold Heap.GetItemsSubschema. intros H.
  apply bind_Ret_inv in H as (s & _ & H).
  apply bind_Ret_inv in H as (usable & _ & H).
  destruct usable; cbn [negb] in H; [|discriminate].
  apply bind_Ret_inv in H as (items & Hitems & H).
  apply new_SchemaBuilder_handle in H. now rewrite H.
Qed.

Lemma get_path_app v p q :
  Heap.get_path v (p ++ q) = (x <- Heap.get_path v p ;; Heap.get_path x q).
Proof.
  revert v. induction p as [|k p IH]; intros v; simpl; [reflexivity|].
  destruct (get_prop v k) as [x| |]; simpl; auto.
Qed.

Lemma deref_extend st r v k x :
  Heap.deref st r = Ret v -> get_prop v k = Ret x ->
  Heap.deref st {| Heap.root := Heap.root r; Heap.path := Heap.path r ++ [k] |} = Ret x.
Proof.
  unfold Heap.deref. cbn [Heap.root Heap.path].
  destruct (nth_error st (Heap.root r)); [|discriminate].
  intros Hv Hx. rewrite get_path_app, Hv. cbn [bind Heap.get_path]. now rewrite Hx.
Qed.

(** The handle of [o[k]] reads as the value of [o[k]]. *)
Lemma get_handle_read st r v k x :
  Heap.deref st r = Ret v -> get_prop v k = Ret x ->
  exists h, Heap.get_handle st (Heap.Obj r) k = Ret h /\ Heap.read st h = Ret x.
Proof.
  intros Hv Hx. unfold Heap.get_handle. rewrite Hv. cbn [bind]. rewrite Hx. cbn [bind].
  pose proof (deref_extend st r v k x Hv Hx) as He.
  destruct x; eexists; (split; [reflexivity|]); try reflexivity; exact He.
Qed.

Lemma get_handle_read_any st h v k x :
  Heap.read st h = Ret v -> get_prop v k = Ret x ->
  exists h', Heap.get_handle st h k = Ret h' /\ Heap.read st h' = Ret x.
Proof.
  destruct h as [w|r]; [|apply get_handle_read].
  cbn [Heap.read]. intros [= ->] Hx. exists (Heap.Prim x).
  cbn [Heap.get_handle]. now rewrite Hx.
Qed.

Lemma GetSubschema_returns st this fs pfs name :
  Heap.read st (Heap.schemaObject this) = Ret (JObj fs) ->
  constructible (JObj fs) ->
  IsSimpleObjectSchema (builder fs (Heap.validationConfig this)) = Ret true ->
  lookup "properties" fs = Some (JObj pfs) ->
  exists sub, Heap.GetSubschema st this name = Ret sub.
Proof.
  intros Hread Hc Hsimple Hp.
  assert (Hprops : get_prop (JObj fs) "properties" = Ret (JObj pfs)).
  { now rewrite get_prop_object, Hp. }
  destruct (get_handle_read_any st _ _ _ _ Hread Hprops) as (h1 & Hh1 & Hr1).
  destruct (get_handle_read_any st h1 (JObj pfs) name (field name pfs) Hr1 eq_refl)
    as (h2 & Hh2 & Hr2).
  assert (Hcx : constructible (field name pfs)).
  { pose proof (constructible_declared fs Hc) as Hd. unfold declared in Hd.
    rewrite Hp in Hd. unfold field.
    destruct (lookup name pfs) as [x|] eqn:E; [|reflexivity].
    exact (lookup_values _ _ _ _ Hd E). }
  unfold Heap.GetSubschema. rewrite Hread. cbn [bind].
  unfold Heap.view. fold (builder fs (Heap.validationConfig this)). rewrite Hsimple.
  cbn [bind negb truthy is_boolean]. rewrite Hprops. cbn [bind truthy negb].
  rewrite Hh1. cbn [bind]. rewrite Hh2. cbn [bind].
  unfold Heap.new_SchemaBuilder. rewrite Hr2. cbn [bind].
  unfold constructible in Hcx. rewrite Hcx. cbn [bind]. eauto.
Qed.

Lemma GetItemsSubschema_returns st this fs items :
  Heap.read st (Heap.schemaObject this) = Ret (JObj fs) ->
  constructible (JObj fs) ->
  lookup "type" fs = Some (JStr "array") ->
  lookup "items" fs = Some items ->
  truthy items = true ->
  match items with JArr _ => False | _ => True end ->
  exists sub, Heap.GetItemsSubschema st this = Ret sub.
Proof.
  intros Hread Hc Hty Hit Htruthy Hshape.
  assert (Hitems : get_prop (JObj fs) "items" = Ret items).
  { now rewrite get_prop_object, Hit. }
  destruct (get_handle_read_any st _ _ _ _ Hread Hitems) as (h1 & Hh1 & Hr1).
  assert (Hcx : constructible items).
  { apply constructible_object in Hc as (_ & _ & _ & _ & _ & Hc & _).
    unfold visit_node in Hc. rewrite Hitems in Hc. cbn [bind] in Hc.
    now rewrite Htruthy in Hc. }
  unfold Heap.GetItemsSubschema. rewrite Hread. cbn [bind truthy negb].
  rewrite get_prop_object, Hty. cbn [bind is_string]. rewrite String.eqb_refl.
  cbn [negb]. rewrite Hitems. cbn [bind]. rewrite Htruthy. cbn [negb bind].
  assert (Hnot : match items with JArr _ => false | _ => true end = true).
  { destruct items; try reflexivity. contradiction. }
  rewrite Hnot. cbn [negb]. rewrite Hh1. cbn [bind].
  unfold Heap.new_SchemaBuilder. rewrite Hr1. cbn [bind].
  unfold constructible in Hcx. rewrite Hcx. cbn [bind]. eauto.
Qed.

(** C2, as amended.  On a schema that satisfies the precondition,
    [GetSubschema(name)] and [GetItemsSubschema()] return a new builder,
    and it holds the requested nested node itself: the handle is the one
    reached from the receiver's schema through [properties] and [name]
    (through [items]), in the same store, with no copy made.  So a write
    made through the returned builder's [Schema] is read back through the
    receiver. *)
Theorem C2_accessors_share_the_node (st : Heap.store) (this : Heap.SchemaBuilder) :
  (forall fs pfs name,
     Heap.read st (Heap.schemaObject this) = Ret (JObj fs) ->
     constructible (JObj fs) ->
     IsSimpleObjectSchema (builder fs (Heap.validationConfig this)) = Ret true ->
     lookup "properties" fs = Some (JObj pfs) ->
     exists sub, Heap.GetSubschema st this name = Ret sub) /\
  (forall name sub,
     Heap.GetSubschema st this name = Ret sub ->
     (exists props,
        Heap.get_handle st (Heap.schemaObject this) "properties" = Ret props /\
        Heap.get_handle st props name = Ret (Heap.schemaObject sub)) /\
     (forall key x st',
        Heap.write st (Heap.Schema sub) key x = Ret st' ->
        exists s', Heap.read st' (Heap.schemaObject this) = Ret s' /\
                   Heap.get_path s' ["properties"; name; key] = Ret x)) /\
  (forall fs items,
     Heap.read st (Heap.schemaObject this) = Ret (JObj fs) ->
     constructible (JObj fs) ->
     lookup "type" fs = Some (JStr "array") ->
     lookup "items" fs = Some items ->
     truthy items = true ->
     match items with JArr _ => False | _ => True end ->
     exists sub, Heap.GetItemsSubschema st this = Ret sub) /\
  (forall sub,
     Heap.GetItemsSubschema st this = Ret sub ->
     Heap.get_handle st (Heap.schemaObject this) "items" = Ret (Heap.schemaObject sub) /\
     (forall key x st',
        Heap.write st (Heap.Schema sub) key x = Ret st' ->
        exists s', Heap.read st' (Heap.schemaObject this) = Ret s' /\
                   Heap.get_path s' ["items"; key] = Ret x)).
Proof.
  split; [|split; [|split]].
  - intros fs pfs name. apply GetSubschema_returns.
  - intros name sub H.
    pose proof (GetSubschema_handle st this name sub H) as (props & Hp & Hn).
    split; [eauto|]. intros key x st' Hw.
    unfold Heap.Schema in Hw.
    destruct (Heap.schemaObject sub) as [v|r2] eqn:Esub; [discriminate|].
    apply get_handle_reference in Hn as (r1 & -> & ->).
    apply get_handle_reference in Hp as (r & Hthis & ->).
    rewrite Hthis. cbn [Heap.read Heap.root Heap.path] in *.
    rewrite <- app_assoc in Hw. exact (write_seen_above st r _ key x st' Hw).
  - intros fs items. apply GetItemsSubschema_returns.
  - intros sub H.
    pose proof (GetItemsSubschema_handle st this sub H) as Hi.
    split; [exact Hi|]. intros key x st' Hw.
    unfold Heap.Schema in Hw.
    destruct (Heap.schemaObject sub) as [v|r1] eqn:Esub; [discriminate|].
    apply get_handle_reference in Hi as (r & Hthis & ->).
    rewrite Hthis. cbn [Heap.read].
    exact (write_seen_above st r _ key x st' Hw).
Qed.

Lemma C2_accessors_share_the_node_witness :
  (exists sub st' s',
     Heap.GetSubschema one_document_store first_document "a" = Ret sub /\
     Heap.write one_document_store (Heap.Schema sub) "type" (JStr "number") = Ret st' /\
     Heap.read st' (Heap.schemaObject first_document) = Ret s' /\
     Heap.get_path s' ["properties"; "a"; "type"] = Ret (JStr "number")) /\
  (exists sub st' s',
     Heap.GetItemsSubschema one_array_store first_document = Ret sub /\
     Heap.write one_array_store (Heap.Schema sub) "type" (JStr "number") = Ret st' /\
     Heap.read st' (Heap.schemaObject first_document) = Ret s' /\
     Heap.get_path s' ["items"; "type"] = Ret (JStr "number")).
Proof.
  pose proof (C2_accessors_share_the_node one_document_store first_document)
    as (Hreturns & Hshares & _).
  pose proof (C2_accessors_share_the_node one_array_store first_document)
    as (_ & _ & Hreturns' & Hshares').
  split.
  - destruct (Hreturns _ _ "a" eq_refl eq_refl eq_refl eq_refl) as (sub & E).
    destruct (Heap.write one_document_store (Heap.Schema sub) "type" (JStr "number"))
      as [st'| |] eqn:Ew;
      try (vm_compute in E; injection E as <-; discriminate).
    destruct (proj2 (Hshares "a" sub E) "type" (JStr "number") st' Ew) as (s' & Hr & Hg).
    exists sub, st', s'. auto.
  - destruct (Hreturns' _ (JObj [("type", JStr "string")])
                eq_refl eq_refl eq_refl eq_refl eq_refl I) as (sub & E).
    destruct (Heap.write one_array_store (Heap.Schema sub) "type" (JStr "number"))
      as [st'| |] eqn:Ew;
      try (vm_compute in E; injection E as <-; discriminate).
    destruct (proj2 (Hshares' sub E) "type" (JStr "number") st' Ew) as (s' & Hr & Hg).
    exists sub, st', s'. auto.
Defined.

(** C2 as stated fails: the returned builder does not hold a clone.  After
    a write through its [Schema], the receiver's schema has changed. *)
Lemma C2_counterexample :
  exists sub st',
    Heap.GetSubschema one_document_store first_document "a" = Ret sub /\
    Heap.schemaObject sub =
      Heap.Obj {| Heap.root := 0; Heap.path := ["properties"; "a"] |} /\
    Heap.write one_document_store (Heap.Schema sub) "type" (JStr "number") = Ret st' /\
    Heap.read st' (Heap.schemaObject first_document) <>
    Heap.read one_document_store (Heap.schemaObject first_document).
Proof.
  eexists. eexists. split; [reflexivity|]. split; [reflexivity|].
  split; [reflexivity|]. discriminate.
Qed.

(* ================================================================== *)
(** * Part III: further properties of the code *)
(* ================================================================== *)

(** ** [cloneJSON] (Default.ts) *)

Lemma roundtrip_fields_spec (fs : list (string * value)) :
  Forall (fun kv => undefined_free (json_roundtrip (snd kv)) = true \/ snd kv = JUndef) fs ->
  forall cfs, json_roundtrip (JObj fs) = JObj cfs ->
  forallb (fun kv => undefined_free (snd kv)) cfs = true.
Proof.
  induction fs as [|[k x] fs IH]; intros H cfs E; simpl in E.
  - injection E as <-. reflexivity.
  - inversion H as [|? ? Hx Hrest]; subst. simpl in Hx.
    specialize (IH Hrest _ eq_refl).
    destruct x; injection E as <-; simpl in *; try exact IH;
      destruct Hx as [Hx|Hx]; try discriminate; rewrite ?Hx; exact IH.
Qed.

Lemma json_roundtrip_free v : v <> JUndef -> undefined_free (json_roundtrip v) = true.
Proof.
  induction v as [ | | b | n | s | l IH | fs IH ] using value_ind'; intros Hv;
    try reflexivity; try congruence.
  - simpl. rewrite forallb_forall. intros y Hy. apply in_map_iff in Hy as (x & <- & Hx).
    rewrite Forall_forall in IH. specialize (IH x Hx).
    destruct x; try reflexivity; apply IH; discriminate.
  - apply (roundtrip_fields_spec fs); [|reflexivity].
    rewrite Forall_forall in *. intros [k x] Hx. specialize (IH _ Hx). simpl in *.
    destruct x; auto; left; apply IH; discriminate.
Qed.

Lemma json_roundtrip_fixed v : undefined_free v = true -> json_roundtrip v = v.
Proof.
  induction v as [ | | b | n | s | l IH | fs IH ] using value_ind'; intros Hv;
    try reflexivity.
  - simpl in *. f_equal. rewrite forallb_forall in Hv.
    induction IH as [|x l Hx _ IHl]; [reflexivity|]. simpl.
    rewrite IHl by (intros y Hy; apply Hv; now right).
    rewrite <- (Hx (Hv x (or_introl eq_refl))) at 2.
    destruct x; try reflexivity. now specialize (Hv JUndef (or_introl eq_refl)).
  - simpl in *. f_equal.
    induction IH as [|[k x] fs Hx _ IHl]; [reflexivity|]. simpl in *.
    apply andb_true_iff in Hv as [Hvx Hvl]. rewrite (IHl Hvl).
    rewrite <- (Hx Hvx) at 2. destruct x; try reflexivity. discriminate.
Qed.

Lemma cloneJSON_defined v : v <> JUndef -> cloneJSON v = Ret (json_roundtrip v).
Proof. destruct v; intros H; try reflexivity. congruence. Qed.

Lemma cloneJSON_fields (fs : list (string * value)) :
  exists cfs,
    json_roundtrip (JObj fs) = JObj cfs /\
    Forall2 (fun kx kc : string * value =>
               fst kc = fst kx /\ cloneJSON (snd kx) = Ret (snd kc))
      (filter (fun kx => negb (is_undefined (snd kx))) fs) cfs.
Proof.
  induction fs as [|[k x] fs (cfs & E & IH)].
  - exists []. split; [reflexivity|constructor].
  - injection E as E.
    destruct (is_undefined x) eqn:Ex.
    + exists cfs. destruct x; try discriminate. cbn [filter snd is_undefined negb].
      split; [|exact IH]. cbn [json_roundtrip]. now rewrite E.
    + exists ((k, json_roundtrip x) :: cfs). cbn [filter snd negb]. rewrite Ex. cbn [negb].
      split.
      * cbn [json_roundtrip]. rewrite E. now destruct x.
      * constructor; [|exact IH]. cbn [fst snd]. split; [reflexivity|].
        apply cloneJSON_defined. intros ->. discriminate.
Qed.

Lemma cloneJSON_elements (l : list value) :
  exists cl,
    json_roundtrip (JArr l) = JArr cl /\
    Forall2 (fun x cx => if is_undefined x then cx = JNull else cloneJSON x = Ret cx) l cl.
Proof.
  eexists. split; [reflexivity|].
  induction l as [|x l IH]; cbn [map]; constructor; [|exact IH].
  destruct x; cbn [is_undefined]; try reflexivity.
Qed.

(** X1.  [cloneJSON] throws on [undefined] and returns on every other
    value.  The copy of an object holds, in their order, the properties
    whose value is not [undefined], each with the copy of its value; the
    copy of an array holds the copy of each element, and [null] for an
    [undefined] element.  So no [undefined] is left in the result; a
    value without [undefined] is returned as it is, and cloning a clone
    changes nothing. *)
Theorem X1_cloneJSON_normalises (v : value) :
  (v = JUndef -> cloneJSON v = Throw SyntaxError) /\
  (v <> JUndef -> exists c, cloneJSON v = Ret c) /\
  (forall fs, v = JObj fs ->
     exists cfs,
       cloneJSON v = Ret (JObj cfs) /\
       Forall2 (fun kx kc : string * value =>
                  fst kc = fst kx /\ cloneJSON (snd kx) = Ret (snd kc))
         (filter (fun kx => negb (is_undefined (snd kx))) fs) cfs) /\
  (forall l, v = JArr l ->
     exists cl,
       cloneJSON v = Ret (JArr cl) /\
       Forall2 (fun x cx => if is_undefined x then cx = JNull else cloneJSON x = Ret cx)
         l cl) /\
  (forall c, cloneJSON v = Ret c -> undefined_free c = true /\ cloneJSON c = Ret c) /\
  (undefined_free v = true -> cloneJSON v = Ret v).
Proof.
  assert (Hfixed : forall w, undefined_free w = true -> cloneJSON w = Ret w).
  { intros w Hw. unfold cloneJSON. rewrite (json_roundtrip_fixed w Hw).
    destruct w; try reflexivity. discriminate. }
  split; [intros ->; reflexivity|].
  split; [intros Hv; eexists; now apply cloneJSON_defined|].
  split.
  { intros fs ->. destruct (cloneJSON_fields fs) as (cfs & E & H).
    exists cfs. split; [|exact H]. unfold cloneJSON. now rewrite E. }
  split.
  { intros l ->. destruct (cloneJSON_elements l) as (cl & E & H).
    exists cl. split; [|exact H]. unfold cloneJSON. now rewrite E. }
  split; [|apply Hfixed].
  intros c Hc. assert (Hv : v <> JUndef) by (intros ->; discriminate).
  assert (E : c = json_roundtrip v).
  { unfold cloneJSON in Hc. destruct v; congruence. }
  subst c. pose proof (json_roundtrip_free v Hv) as Hfree. auto.
Qed.

(** ** [getLocalRef] (Default.ts) *)

Lemma find_walks : forall path root r,
  path <> [] -> walks root path r -> find path root = Ret r.
Proof.
  intros path root r Hne Hw. induction Hw as [root|root key v rest r Hget Ht Hw IH].
  - congruence.
  - simpl. rewrite Hget. cbn [bind]. rewrite Ht. cbn [negb].
    destruct rest as [|key' rest'].
    + inversion Hw; subst. reflexivity.
    + apply IH. discriminate.
Qed.

Lemma walks_truthy : forall path root r,
  path <> [] -> walks root path r -> truthy r = true.
Proof.
  intros path root r Hne Hw. induction Hw as [root|root key v rest r Hget Ht Hw IH].
  - congruence.
  - destruct rest; [inversion Hw; subst; exact Ht|apply IH; discriminate].
Qed.

Lemma split_slash_nonempty s : split_slash s <> [].
Proof.
  destruct s as [|c s]; simpl; [discriminate|].
  destruct (Ascii.eqb c "/"); [discriminate|].
  destruct (split_slash s); discriminate.
Qed.



(** ** [defaults] on objects and on arrays with one item schema (Default.ts) *)

(** The defaults that are not [undefined], under their property names. *)
Lemma object_loop_spec (run : value -> outcome value) : forall pfs,
  (fix loop (pfs : list (string * value)) : outcome (list (string * value)) :=
     match pfs with
     | [] => Ret []
     | (key, property) :: rest =>
         d <- run property ;;
         rest' <- loop rest ;;
         Ret (if is_undefined d then rest' else (key, d) :: rest')
     end) pfs =
  (ds <- mapM (fun kv => run (snd kv)) pfs ;;
   Ret (filter (fun kd : string * value => negb (is_undefined (snd kd)))
          (combine (map fst pfs) ds))).
Proof.
  induction pfs as [|[key property] rest IH]; [reflexivity|].
  rewrite IH. simpl. destruct (run property) as [d| |]; cbn [bind]; try reflexivity.
  destruct (mapM _ rest) as [ds| |]; cbn [bind]; try reflexivity.
  simpl. now destruct (is_undefined d).
Qed.

Lemma mapM_Ret_inv {A B : Type} (f : A -> outcome B) : forall l ys,
  mapM f l = Ret ys -> Forall2 (fun x y => f x = Ret y) l ys.
Proof.
  induction l as [|x l IH]; intros ys H; simpl in H.
  - injection H as <-. constructor.
  - destruct (f x) as [y| |] eqn:E; cbn [bind] in H; try discriminate.
    destruct (mapM f l) as [ys'| |] eqn:E'; cbn [bind] in H; try discriminate.
    injection H as <-. constructor; auto.
Qed.

Lemma mapM_total {A B : Type} (f : A -> outcome B) : forall l,
  (forall x, In x l -> exists y, f x = Ret y) -> exists ys, mapM f l = Ret ys.
Proof.
  induction l as [|x l IH]; intros H; simpl; [now eexists|].
  destruct (H x (or_introl eq_refl)) as [y ->].
  destruct IH as [ys ->]; [intros; apply H; now right|]. cbn [bind]. now eexists.
Qed.

Lemma defined_fields_spec (run : value -> outcome value) : forall pfs ds,
  Forall2 (fun kv d => run (snd kv) = Ret d) pfs ds ->
  let rfs := filter (fun kd : string * value => negb (is_undefined (snd kd)))
               (combine (map fst pfs) ds) in
  (forall k d, In (k, d) rfs ->
     d <> JUndef /\ exists v, In (k, v) pfs /\ run v = Ret d) /\
  (forall k v d, In (k, v) pfs -> run v = Ret d -> d <> JUndef -> In (k, d) rfs).
Proof.
  intros pfs ds H. induction H as [|[k0 v0] d0 pfs ds Hrun _ IH]; simpl.
  - split; [intros k d []|intros k v d []].
  - simpl in Hrun. destruct IH as [IH1 IH2]. split.
    + intros k d Hin.
      assert (Hrest : In (k, d) (filter (fun kd => negb (is_undefined (snd kd)))
                                   (combine (map fst pfs) ds)) ->
                      d <> JUndef /\ exists v, (((k0, v0) = (k, v)) \/ In (k, v) pfs) /\ run v = Ret d).
      { intros Hin'. destruct (IH1 k d Hin') as (Hd & v & Hv & Hr). split; [exact Hd|].
        exists v. auto. }
      destruct d0; simpl in Hin; try (apply Hrest; exact Hin);
        (destruct Hin as [Heq|Hin]; [|apply Hrest; exact Hin]);
        injection Heq as <- <-; (split; [discriminate|]); exists v0; auto.
    + intros k v d [Heq|Hin] Hr Hd.
      * injection Heq as -> ->. rewrite Hrun in Hr. injection Hr as ->.
        destruct d; simpl; auto; congruence.
      * destruct (negb (is_undefined d0)); [right|]; eapply IH2; eauto.
Qed.



Lemma mapM_constant {A B : Type} (y : B) : forall (l : list A),
  mapM (fun _ => Ret y) l = Ret (repeat y (List.length l)).
Proof.
  induction l as [|x l IH]; [reflexivity|]. simpl. rewrite IH. reflexivity.
Qed.

(** X4.  For a schema of type ["array"] without [default], [allOf] and
    [$ref] whose [items] is one (truthy, non-array) schema: when the item
    schema has no default the result is the empty array, whatever
    [minItems] says; otherwise it is [max(1, minItems)] JSON copies of the
    item's default. *)
Theorem X4_array_default (fuel : nat) (schema definitions items minItems v : value) (m : Z) :
  get_prop schema "default" = Ret JUndef ->
  get_prop schema "allOf" = Ret JUndef ->
  get_prop schema "$ref" = Ret JUndef ->
  get_prop schema "type" = Ret (JStr "array") ->
  get_prop schema "items" = Ret items ->
  truthy items = true ->
  (forall l, items <> JArr l) ->
  get_prop schema "minItems" = Ret minItems ->
  (minItems = JNum m \/ (minItems = JUndef /\ m = 0%Z)) ->
  defaults fuel items definitions = Ret v ->
  defaults (S fuel) schema definitions =
    Ret (JArr (if is_undefined v then []
               else repeat (json_roundtrip v) (Z.to_nat (Z.max 1 m)))) /\
  (v <> JUndef ->
   exists values, defaults (S fuel) schema definitions = Ret (JArr values) /\
     Z.of_nat (List.length values) = Z.max 1 m /\
     Forall (fun x => x = json_roundtrip v) values).
Proof.
  intros Hd Ha Hr Ht Hi Htruthy Hna Hm Hmin Hv.
  assert (Hct : minimum_count minItems = Ret m).
  { destruct Hmin as [->|[-> ->]]; [|reflexivity].
    unfold minimum_count. simpl. destruct (Z.eqb_spec m 0); subst; reflexivity. }
  assert (E : defaults (S fuel) schema definitions =
              Ret (JArr (if is_undefined v then []
                         else repeat (json_roundtrip v) (Z.to_nat (Z.max 1 m))))).
  { cbn [defaults]. rewrite Hd. cbn [bind is_undefined negb]. rewrite Ha.
    cbn [bind is_undefined negb]. rewrite Hr. cbn [bind is_undefined negb].
    rewrite Ht. cbn [bind].
    replace (is_string (JStr "array") "object") with false by reflexivity.
    replace (is_string (JStr "array") "array") with true by reflexivity.
    rewrite Hi. cbn [bind]. rewrite Htruthy. cbn [negb]. rewrite Hm. cbn [bind].
    rewrite Hct. cbn [bind].
    assert (Hrun : (v0 <- defaults fuel items definitions ;;
                    (if is_undefined v0 then Ret (JArr []) else
                     values <- mapM (fun _ => cloneJSON v0) (seq 0 (Z.to_nat (Z.max 1 m))) ;;
                     Ret (JArr values))) =
                   Ret (JArr (if is_undefined v then []
                              else repeat (json_roundtrip v) (Z.to_nat (Z.max 1 m))))).
    { rewrite Hv. cbn [bind]. destruct (is_undefined v) eqn:Hu; [reflexivity|].
      assert (Hc : cloneJSON v = Ret (json_roundtrip v)) by (destruct v; try reflexivity; discriminate).
      rewrite Hc, mapM_constant, length_seq. reflexivity. }
    destruct items; try exact Hrun. now destruct (Hna elems). }
  split; [exact E|].
  intros Hdef. rewrite E. destruct (is_undefined v) eqn:Hu.
  - apply is_undefined_eq in Hu. contradiction.
  - eexists; split; [reflexivity|]. split.
    + rewrite repeat_length. lia.
    + apply Forall_forall. intros x Hx. now apply repeat_spec in Hx.
Qed.

Lemma X4_array_default_witness :
  defaults 2
    (JObj [("type", JStr "array"); ("items", JObj [("default", JStr "x")]);
           ("minItems", JNum 3)]) (JObj []) =
  Ret (JArr [JStr "x"; JStr "x"; JStr "x"]).
Proof.
  refine (proj1 (X4_array_default 1
            (JObj [("type", JStr "array"); ("items", JObj [("default", JStr "x")]);
                   ("minItems", JNum 3)]) (JObj [])
            (JObj [("default", JStr "x")]) (JNum 3) (JStr "x") 3
            eq_refl eq_refl eq_refl eq_refl eq_refl eq_refl _ eq_refl
            (or_introl eq_refl) eq_refl)).
  intros l. discriminate.
Defined.

(** ** [merge] and [mergeAllOf] on inline schemas (Default.ts) *)

Lemma merge_into_prefix : forall fs pre,
  NoDup (map fst (pre ++ fs)) ->
  foldM (fun target kv => merge_entry merge target (fst kv) (snd kv)) fs (JObj pre) =
  Ret (JObj (pre ++ fs)).
Proof.
  induction fs as [|[k v] fs IH]; intros pre Hnd; simpl.
  - now rewrite app_nil_r.
  - assert (Hk : lookup k pre = None).
    { apply lookup_None_keys. intros Hin. rewrite map_app in Hnd.
      apply NoDup_remove_2 in Hnd. apply Hnd. apply in_or_app. now left. }
    unfold merge_entry at 1. cbn [get_prop bind fst snd]. rewrite Hk.
    cbn [isObject andb bind set_prop]. rewrite (assoc_set_absent _ _ _ Hk).
    rewrite IH; rewrite <- app_assoc; [reflexivity|exact Hnd].
Qed.

Lemma merge_into_empty fs :
  NoDup (map fst fs) -> merge (JObj []) (JObj fs) = Ret (JObj fs).
Proof.
  intros Hnd. rewrite merge_object. cbn [cloneJSON json_roundtrip bind].
  exact (merge_into_prefix fs [] Hnd).
Qed.



(** ** The statements of the property operations on an object schema

    [merge_invariant fs1 f] is kept by every statement the operations run
    on their working copy [f] of the receiver [fs1]. *)

Lemma invariant_start fs :
  constructible (JObj fs) -> typed_object fs = true ->
  default_prop (JObj fs) "properties" (JObj []) =
    Ret (JObj (assoc_set "properties" (JObj (declared fs)) fs)) /\
  merge_invariant fs (assoc_set "properties" (JObj (declared fs)) fs) /\
  declared (assoc_set "properties" (JObj (declared fs)) fs) = declared fs /\
  required_list (assoc_set "properties" (JObj (declared fs)) fs) = required_list fs.
Proof.
  intros Hc Ht.
  destruct (set_properties_facts fs (declared fs) (typed_object_required fs Ht))
    as (Hp & Hd & Hr & Ht' & Ho).
  split; [|split; [|split]].
  - unfold default_prop. rewrite get_prop_object. cbn [bind set_prop].
    unfold typed_object in Ht. apply andb_true_iff in Ht as [Ht _]. unfold declared.
    destruct (lookup "properties" fs) as [[ | | | | | | pfs]|]; try discriminate; reflexivity.
  - split; [exact Ht'|]. split; [now rewrite Hd|]. split.
    + rewrite Hd. now apply constructible_declared.
    + intros k Hk _. now apply Ho.
  - exact Hd.
  - unfold required_list. now rewrite Hr.
Qed.

Lemma invariant_declare fs1 f key v :
  merge_invariant fs1 f -> constructible v ->
  exists f',
    set_prop2 (JObj f) "properties" key v = Ret (JObj f') /\
    merge_invariant fs1 f' /\
    declared f' = assoc_set key v (declared f) /\
    lookup "required" f' = lookup "required" f.
Proof.
  intros (Ht & Hp & Hv & Ho) Hcv.
  destruct (set_properties_facts f (assoc_set key v (declared f)) (typed_object_required f Ht))
    as (H1p & H1d & H1r & H1t & H1o).
  eexists. split; [exact (set_prop2_object f _ _ _ _ Hp)|].
  split; [|split; assumption].
  split; [exact H1t|]. split; [now rewrite H1d|]. split.
  - rewrite H1d. now apply assoc_set_values.
  - intros k Hk1 Hk2. rewrite H1o by assumption. now apply Ho.
Qed.

Lemma invariant_set_required fs1 f r :
  merge_invariant fs1 f ->
  merge_invariant fs1 (assoc_set "required" (JArr r) f) /\
  declared (assoc_set "required" (JArr r) f) = declared f /\
  required_list (assoc_set "required" (JArr r) f) = r /\
  lookup "required" (assoc_set "required" (JArr r) f) = Some (JArr r).
Proof.
  intros (Ht & Hp & Hv & Ho).
  destruct (set_required_facts f r Ht) as (H1p & H1d & H1r & H1t & H1o).
  split; [|split; [|split]]; auto using lookup_assoc_set_same.
  split; [exact H1t|]. split; [now rewrite H1d, H1p|]. split; [now rewrite H1d|].
  intros k Hk1 Hk2. rewrite H1o by assumption. now apply Ho.
Qed.

Lemma invariant_push fs1 f key :
  merge_invariant fs1 f ->
  exists f',
    push_required_name (JObj f) key = Ret (JObj f') /\
    merge_invariant fs1 f' /\
    declared f' = declared f /\
    required_list f' = required_list f ++ [JStr key] /\
    lookup "required" f' = Some (JArr (required_list f ++ [JStr key])).
Proof.
  intros Hinv. pose proof Hinv as (Ht & _).
  destruct (invariant_set_required fs1 f (required_list f) Hinv) as (Hi1 & Hd1 & _).
  destruct (invariant_set_required fs1 _ (required_list f ++ [JStr key]) Hi1)
    as (Hi2 & Hd2 & Hr2 & Hl2).
  eexists. split; [exact (push_required f key (typed_object_required f Ht))|].
  split; [exact Hi2|]. split; [now rewrite Hd2, Hd1|]. split; assumption.
Qed.

Lemma invariant_lists f key :
  typed_object f = true -> lists_required (JObj f) key = Ret (listed key (required_list f)).
Proof.
  intros Ht. unfold lists_required. rewrite get_prop_object. fold (required_value f).
  cbn [bind]. exact (read_listed f key (typed_object_required f Ht)).
Qed.

Lemma invariant_unlist fs1 f key :
  merge_invariant fs1 f -> has_key "required" f = true ->
  exists f',
    unlist_required (JObj f) key = Ret (JObj f') /\
    merge_invariant fs1 f' /\
    declared f' = declared f /\
    required_list f' = filter (fun p => negb (is_string p key)) (required_list f) /\
    lookup "required" f' =
      Some (JArr (filter (fun p => negb (is_string p key)) (required_list f))).
Proof.
  intros Hinv Hk. pose proof Hinv as (Ht & _).
  destruct (invariant_set_required fs1 f
              (filter (fun p => negb (is_string p key)) (required_list f)) Hinv)
    as (Hi & Hd & Hr & Hl).
  eexists. split; [|split; [exact Hi|split; [exact Hd|split; [exact Hr|exact Hl]]]].
  unfold unlist_required. rewrite get_prop_object.
  apply typed_object_required in Ht. unfold typed_required in Ht.
  unfold has_key in Hk. unfold required_list.
  destruct (lookup "required" f) as [[ | | | | | l | ]|]; try discriminate; reflexivity.
Qed.

Lemma invariant_finish fs1 f config :
  constructible (JObj fs1) -> merge_invariant fs1 f ->
  new_SchemaBuilder (JObj f) config = Ret (builder f config).
Proof.
  intros Hc (Ht & Hp & Hv & Ho). apply new_SchemaBuilder_constructible.
  apply (constructible_frame fs1 f (declared f) Hc); auto.
  - intros k Hk. apply Ho; intros ->; apply Hk; simpl; auto.
  - left. apply Ho; discriminate.
Qed.

Lemma declared_absent_append key v pfs :
  has_key key pfs = false -> assoc_set key v pfs = pfs ++ [(key, v)].
Proof.
  unfold has_key. intros H. apply assoc_set_absent. now destruct (lookup key pfs).
Qed.

(** ** [AddProperty] *)



(** ** [ReplaceProperty] and [AddOrReplaceProperty] *)

Lemma filter_unlisted key l :
  listed key l = false -> filter (fun p => negb (is_string p key)) l = l.
Proof.
  unfold listed. induction l as [|x l IH]; simpl; [reflexivity|].
  intros [Hx Hl]%orb_false_iff. rewrite Hx. simpl. now rewrite IH.
Qed.

Lemma replace_unlist fs1 f key :
  merge_invariant fs1 f ->
  exists f',
    (required <- get_prop (JObj f) "required" ;;
     if truthy required then unlist_required (JObj f) key else Ret (JObj f)) =
      Ret (JObj f') /\
    merge_invariant fs1 f' /\
    declared f' = declared f /\
    required_list f' = filter (fun p => negb (is_string p key)) (required_list f) /\
    (listed key (required_list f) = false -> f' = f).
Proof.
  intros Hinv. pose proof Hinv as (Ht & _).
  apply typed_object_required in Ht. unfold typed_required in Ht.
  rewrite get_prop_object. cbn [bind].
  destruct (lookup "required" f) as [r|] eqn:El.
  - destruct r; try discriminate. cbn [truthy].
    destruct (invariant_unlist fs1 f key Hinv) as (f' & E & Hi & Hd & Hr & Hl).
    { unfold has_key. now rewrite El. }
    exists f'. split; [exact E|]. split; [exact Hi|]. split; [exact Hd|].
    split; [exact Hr|]. intros Hun.
    unfold unlist_required in E. rewrite get_prop_object, El in E.
    cbn [bind array_filter set_prop] in E. injection E as <-.
    assert (Hrl : required_list f = elems) by (unfold required_list; now rewrite El).
    rewrite Hrl in Hun. rewrite (filter_unlisted key elems Hun).
    now apply assoc_set_lookup_id.
  - exists f. cbn [truthy]. split; [reflexivity|]. split; [exact Hinv|].
    split; [reflexivity|]. split; [|reflexivity].
    unfold required_list. now rewrite El.
Qed.

Lemma declare_and_require fs1 f key v (flag : bool) config :
  constructible (JObj fs1) -> merge_invariant fs1 f -> constructible v ->
  exists f',
    (s <- set_prop2 (JObj f) "properties" key v ;;
     s <- (if flag then push_required_name s key else Ret s) ;;
     new_SchemaBuilder s config) = Ret (builder f' config) /\
    merge_invariant fs1 f' /\
    declared f' = assoc_set key v (declared f) /\
    required_list f' = required_list f ++ (if flag then [JStr key] else []).
Proof.
  intros Hc Hinv Hcv.
  destruct (invariant_declare fs1 f key v Hinv Hcv) as (f1 & E1 & Hinv1 & Hd1 & Hl1).
  assert (Hr1 : required_list f1 = required_list f).
  { unfold required_list. now rewrite Hl1. }
  rewrite E1. cbn [bind]. destruct flag.
  - destruct (invariant_push fs1 f1 key Hinv1) as (f2 & E2 & Hinv2 & Hd2 & Hr2 & _).
    rewrite E2. cbn [bind]. rewrite (invariant_finish fs1 f2 config Hc Hinv2).
    exists f2. split; [reflexivity|]. split; [exact Hinv2|].
    now rewrite Hd2, Hd1, Hr2, Hr1.
  - cbn [bind]. rewrite (invariant_finish fs1 f1 config Hc Hinv1).
    exists f1. split; [reflexivity|]. split; [exact Hinv1|].
    now rewrite Hd1, Hr1, app_nil_r.
Qed.

Lemma ReplaceProperty_unfold fs config name r isRequired :
  constructible (JObj fs) ->
  typed_object fs = true ->
  IsObjectSchema (builder fs config) = Ret true ->
  ReplaceProperty (builder fs config) name r isRequired =
  (f0 <- default_prop (JObj fs) "properties" (JObj []) ;;
   f1 <- (required <- get_prop f0 "required" ;;
          if truthy required then unlist_required f0 name else Ret f0) ;;
   schemaBuilder <- (match r with
                     | Given schemaBuilder => Ret schemaBuilder
                     | Resolve f =>
                         current <- GetSubschema (builder fs config) name ;;
                         f current
                     end) ;;
   s <- set_prop2 f1 "properties" name (CloneJSON (Schema schemaBuilder)) ;;
   s <- (if required_flag isRequired then push_required_name s name else Ret s) ;;
   new_SchemaBuilder s config).
Proof.
  intros Hc Ht Hobj. unfold ReplaceProperty. rewrite Hobj. cbn [bind negb].
  change (schemaObject (builder fs config)) with (JObj fs).
  change (validationConfig (builder fs config)) with config.
  rewrite !CloneJSON_id.
  destruct (invariant_start fs Hc Ht) as (Estart & _). rewrite Estart. cbn [bind].
  now destruct (get_prop _ "required") as [q| |]; cbn [bind];
    [destruct (truthy q); [destruct (unlist_required _ name)|]| |].
Qed.





(** X9.  With a function as second argument, [ReplaceProperty] on an
    object schema first asks [GetSubschema] for the current property,
    applies the function and then replaces as with the builder obtained.
    So it fails with the error of [GetSubschema] when the schema is not a
    simple object schema, which the variant with a builder does not
    require; on a simple object schema the function receives a builder
    (without validation configuration) of what is stored under the name,
    and of [undefined] for a name that is neither declared nor inherited
    from the prototype. *)
Theorem X9_ReplaceProperty_resolver (fs : list (string * value)) (config : option value)
  (name : string) (f : SchemaBuilder -> outcome SchemaBuilder) (isRequired : option bool) :
  constructible (JObj fs) ->
  typed_object fs = true ->
  IsObjectSchema (builder fs config) = Ret true ->
  ReplaceProperty (builder fs config) name (Resolve f) isRequired =
    (current <- GetSubschema (builder fs config) name ;;
     b <- f current ;;
     ReplaceProperty (builder fs config) name (Given b) isRequired) /\
  (IsSimpleObjectSchema (builder fs config) = Ret false ->
   ReplaceProperty (builder fs config) name (Resolve f) isRequired =
     Throw (VError (simple_error "getSubschema"))) /\
  (IsSimpleObjectSchema (builder fs config) = Ret true ->
   forall pfs, lookup "properties" fs = Some (JObj pfs) ->
   (forall v, lookup name pfs = Some v ->
      GetSubschema (builder fs config) name =
        Ret {| schemaObject := v; validationConfig := None |}) /\
   (lookup name pfs = None -> inherited_name name = false ->
      GetSubschema (builder fs config) name =
        Ret {| schemaObject := JUndef; validationConfig := None |})).
Proof.
  intros Hc Ht Hobj.
  destruct (invariant_start fs Hc Ht) as (Estart & Hinv0 & Hd0 & Hr0).
  destruct (replace_unlist fs _ name Hinv0) as (f1 & E1 & _).
  assert (E : ReplaceProperty (builder fs config) name (Resolve f) isRequired =
              (current <- GetSubschema (builder fs config) name ;;
               b <- f current ;;
               ReplaceProperty (builder fs config) name (Given b) isRequired)).
  { rewrite (ReplaceProperty_unfold fs config name (Resolve f) isRequired Hc Ht Hobj).
    rewrite Estart. cbn [bind]. rewrite E1. cbn [bind].
    destruct (GetSubschema (builder fs config) name) as [current| |]; cbn [bind];
      try reflexivity.
    destruct (f current) as [b| |]; cbn [bind]; try reflexivity.
    rewrite (ReplaceProperty_unfold fs config name (Given b) isRequired Hc Ht Hobj).
    rewrite Estart. cbn [bind]. rewrite E1. reflexivity. }
  split; [exact E|]. split.
  - intros Hns. rewrite E. unfold GetSubschema. rewrite Hns. reflexivity.
  - intros Hs pfs Hp.
    assert (Hget : GetSubschema (builder fs config) name =
                   Ret {| schemaObject := field name pfs; validationConfig := None |}).
    { unfold GetSubschema. rewrite Hs.
      change (Schema (builder fs config)) with (JObj fs).
      cbn [negb truthy is_boolean bind]. rewrite get_prop_object, Hp.
      cbn [bind truthy negb]. rewrite get_prop_object. fold (field name pfs).
      apply new_SchemaBuilder_constructible.
      unfold field. destruct (lookup name pfs) as [v|] eqn:Ev; [|reflexivity].
      pose proof (constructible_declared fs Hc) as Hall.
      unfold declared in Hall. rewrite Hp in Hall.
      exact (lookup_values _ _ _ _ Hall Ev). }
    unfold field in Hget. split.
    + intros v Ev. now rewrite Ev in Hget.
    + intros Ev _. now rewrite Ev in Hget.
Qed.

Lemma X9_ReplaceProperty_resolver_witness :
  ReplaceProperty (builder open_schema_fields None) "a" (Resolve (fun s => Ret s)) None =
    Throw (VError (simple_error "getSubschema")) /\
  GetSubschema (builder abc_schema None) "zz" =
    Ret {| schemaObject := JUndef; validationConfig := None |}.
Proof.
  split.
  - exact (proj1 (proj2 (X9_ReplaceProperty_resolver open_schema_fields None "a"
                           (fun s => Ret s) None eq_refl eq_refl eq_refl)) eq_refl).
  - exact (proj2 (proj2 (proj2 (X9_ReplaceProperty_resolver abc_schema None "zz"
                                  (fun s => Ret s) None eq_refl eq_refl eq_refl))
                    eq_refl _ eq_refl) eq_refl eq_refl).
Defined.

(** ** [AddAdditionalProperties] *)

(** The constructor accepts a document whose traversal keywords other
    than [properties] and [additionalProperties] are those of an accepted
    one, and whose [properties] and [additionalProperties] are as before
    or hold accepted schemas. *)
Lemma constructible_update fs fs' :
  constructible (JObj fs) ->
  (forall k, In k ["$ref"; "oneOf"; "allOf"; "anyOf"; "items"; "not"] ->
             lookup k fs' = lookup k fs) ->
  (lookup "properties" fs' = lookup "properties" fs \/
   exists pfs', lookup "properties" fs' = Some (JObj pfs') /\
                Forall constructible (map snd pfs')) ->
  (lookup "additionalProperties" fs' = lookup "additionalProperties" fs \/
   exists v, lookup "additionalProperties" fs' = Some v /\ constructible v) ->
  constructible (JObj fs').
Proof.
  intros H Hk Hprops Hadd.
  apply constructible_object in H as (H0 & H1 & H2 & H3 & H4 & H5 & H6 & H7).
  apply constructible_object. repeat split.
  - unfold has_key in *. rewrite Hk; [exact H0 | simpl; auto].
  - destruct Hprops as [E|(pfs' & E & Hv)].
    + now rewrite (visit_properties_lookup _ fs).
    + now apply (visit_properties_object _ fs' pfs' E).
  - rewrite (visit_branches_lookup _ fs); [exact H2 | apply Hk; simpl; auto].
  - rewrite (visit_branches_lookup _ fs); [exact H3 | apply Hk; simpl; auto].
  - rewrite (visit_branches_lookup _ fs); [exact H4 | apply Hk; simpl; auto].
  - rewrite (visit_node_lookup _ fs); [exact H5 | apply Hk; simpl; auto 10].
  - rewrite (visit_node_lookup _ fs); [exact H6 | apply Hk; simpl; auto 10].
  - destruct Hadd as [E|(v & E & Hv)].
    + now rewrite (visit_additional_lookup _ fs).
    + unfold visit_additional. rewrite get_prop_object, E. cbn [bind].
      now destruct (truthy v && negb (is_boolean v)).
Qed.

Lemma IsObjectSchema_frame fs fs' c c' :
  lookup "type" fs' = lookup "type" fs ->
  has_key "properties" fs' = has_key "properties" fs ->
  IsObjectSchema (builder fs' c') = IsObjectSchema (builder fs c).
Proof.
  intros Et Ep. unfold IsObjectSchema. cbn [schemaObject builder has_prop].
  rewrite !get_prop_object, Et. unfold has_key in *. rewrite Et.
  cbn [bind]. now rewrite Ep.
Qed.



(** ** [ToOptionals] *)

Lemma assoc_remove_absent k fs : lookup k fs = None -> assoc_remove k fs = fs.
Proof.
  induction fs as [|[k' v] fs IH]; simpl; [reflexivity|].
  destruct (k' =? k); [discriminate|]. intros H. now rewrite IH.
Qed.

Lemma assoc_set_twice k x y fs : assoc_set k x (assoc_set k y fs) = assoc_set k x fs.
Proof.
  induction fs as [|[k' v] fs IH]; simpl.
  - now rewrite String.eqb_refl.
  - destruct (k' =? k) eqn:E; simpl; rewrite E; [reflexivity|now rewrite IH].
Qed.

Lemma lookup_middle k v A R :
  ~ In k (map fst A) -> lookup k (A ++ (k, v) :: R) = Some v.
Proof.
  induction A as [|[k' v'] A IH]; simpl; intros H.
  - now rewrite String.eqb_refl.
  - destruct (String.eqb_spec k' k); [exfalso; auto|]. apply IH. auto.
Qed.

Lemma assoc_set_middle k x v A R :
  ~ In k (map fst A) -> assoc_set k x (A ++ (k, v) :: R) = A ++ (k, x) :: R.
Proof.
  induction A as [|[k' v'] A IH]; simpl; intros H.
  - now rewrite String.eqb_refl.
  - destruct (String.eqb_spec k' k); [exfalso; auto|]. rewrite IH; auto.
Qed.

Lemma without_default_twice v : without_default (without_default v) = without_default v.
Proof.
  destruct v; try reflexivity. simpl. f_equal. apply assoc_remove_absent.
  apply lookup_assoc_remove_same.
Qed.

Lemma constructible_without_default v : constructible v -> constructible (without_default v).
Proof.
  destruct v; auto. simpl. intros H. apply (constructible_same_keywords fields _ H).
  intros k Hk. apply lookup_assoc_remove_other. simpl in Hk. intros <-.
  intuition discriminate.
Qed.

Lemma map_fst_without_default pfs : map fst (map field_without_default pfs) = map fst pfs.
Proof. rewrite map_map. reflexivity. Qed.

Lemma ToOptionals_loop : forall rest pre f,
  lookup "properties" f = Some (JObj (map field_without_default pre ++ rest)) ->
  NoDup (map fst (pre ++ rest)) ->
  forallb is_present (map snd rest) = true ->
  foldM (fun schemaObject property =>
           declared <- get_prop schemaObject "properties" ;;
           child <- get_prop declared property ;;
           match child with
           | JObj cf =>
               set_prop2 schemaObject "properties" property
                 (JObj (assoc_remove "default" cf))
           | JUndef | JNull => Throw TypeError
           | _ => Ret schemaObject
           end)
    (map fst rest) (JObj f) =
  Ret (JObj (assoc_set "properties" (JObj (map field_without_default (pre ++ rest))) f)).
Proof.
  induction rest as [|[k v] rest IH]; intros pre f Hp Hnd Hpres.
  - simpl. rewrite app_nil_r in *. now rewrite (assoc_set_lookup_id _ _ _ Hp).
  - assert (Hk : ~ In k (map fst (map field_without_default pre))).
    { rewrite map_fst_without_default. rewrite map_app in Hnd.
      apply NoDup_remove_2 in Hnd. intros Hin. apply Hnd. apply in_or_app. now left. }
    simpl in Hpres. apply andb_true_iff in Hpres as [Hv Hpres].
    assert (Hnd' : NoDup (map fst ((pre ++ [(k, v)]) ++ rest))) by now rewrite <- app_assoc.
    change (map fst ((k, v) :: rest)) with (k :: map fst rest). cbn [foldM].
    rewrite get_prop_object, Hp. cbn [bind].
    rewrite get_prop_object, (lookup_middle k v _ rest Hk). cbn [bind].
    assert (Hstep : forall f1,
              lookup "properties" f1 =
                Some (JObj (map field_without_default (pre ++ [(k, v)]) ++ rest)) ->
              assoc_set "properties"
                (JObj (map field_without_default ((pre ++ [(k, v)]) ++ rest))) f1 =
              assoc_set "properties"
                (JObj (map field_without_default (pre ++ (k, v) :: rest))) f1).
    { intros f1 _. now rewrite <- app_assoc. }
    destruct v as [ | | b | n | s | l | cf ]; try discriminate; cbn [bind].
    + rewrite (IH (pre ++ [(k, JBool b)]) f); auto; [now rewrite <- app_assoc|].
      rewrite Hp, map_app, <- app_assoc. reflexivity.
    + rewrite (IH (pre ++ [(k, JNum n)]) f); auto; [now rewrite <- app_assoc|].
      rewrite Hp, map_app, <- app_assoc. reflexivity.
    + rewrite (IH (pre ++ [(k, JStr s)]) f); auto; [now rewrite <- app_assoc|].
      rewrite Hp, map_app, <- app_assoc. reflexivity.
    + rewrite (IH (pre ++ [(k, JArr l)]) f); auto; [now rewrite <- app_assoc|].
      rewrite Hp, map_app, <- app_assoc. reflexivity.
    + rewrite (set_prop2_object f _ _ _ _ Hp), (assoc_set_middle k _ _ _ rest Hk).
      cbn [bind].
      rewrite (IH (pre ++ [(k, JObj cf)])
                 (assoc_set "properties"
                    (JObj (map field_without_default pre ++
                           (k, JObj (assoc_remove "default" cf)) :: rest)) f)); auto.
      * rewrite assoc_set_twice, <- app_assoc. reflexivity.
      * rewrite lookup_assoc_set_same, map_app, <- app_assoc. reflexivity.
Qed.

Lemma optionals_constructible fs :
  constructible (JObj fs) -> constructible (JObj (optionals fs)).
Proof.
  intros Hc. unfold optionals.
  destruct (lookup "properties" fs) as [p|] eqn:Ep.
  - destruct p as [ | | | | | | pfs];
      try (apply (constructible_same_keywords fs _ Hc);
           intros k Hk; apply lookup_assoc_remove_other; simpl in Hk; intros <-;
           intuition discriminate).
    apply (constructible_update fs _ Hc).
    + intros k Hk. rewrite lookup_assoc_set_other, lookup_assoc_remove_other;
        auto; simpl in Hk; intros <-; intuition discriminate.
    + right. eexists. split; [apply lookup_assoc_set_same|].
      pose proof (constructible_declared fs Hc) as Hall. unfold declared in Hall.
      rewrite Ep in Hall. rewrite map_map. cbn [field_without_default snd].
      rewrite Forall_forall in *. intros y Hy. apply in_map_iff in Hy as (kv & <- & Hin).
      apply constructible_without_default. apply Hall. now apply in_map.
    + left. rewrite lookup_assoc_set_other, lookup_assoc_remove_other by discriminate.
      reflexivity.
  - apply (constructible_same_keywords fs _ Hc).
    intros k Hk. apply lookup_assoc_remove_other. simpl in Hk. intros <-.
    intuition discriminate.
Qed.

Lemma ToOptionals_run fs config :
  constructible (JObj fs) ->
  typed_object fs = true ->
  NoDup (map fst (declared fs)) ->
  forallb is_present (map snd (declared fs)) = true ->
  ToOptionals (builder fs config) = Ret (builder (optionals fs) config).
Proof.
  intros Hc Ht Hnd Hpres. pose proof (optionals_constructible fs Hc) as Hco.
  unfold ToOptionals.
  cbn [schemaObject builder validationConfig]. rewrite CloneJSON_id.
  cbn [delete_keyword bind]. rewrite get_prop_object, lookup_assoc_remove_other by discriminate.
  unfold optionals, declared in *.
  unfold typed_object in Ht. apply andb_true_iff in Ht as [Ht _].
  destruct (lookup "properties" fs) as [p|] eqn:Ep.
  - destruct p as [ | | | | | | pfs]; try discriminate. cbn [bind own_keys].
    rewrite (ToOptionals_loop pfs [] (assoc_remove "required" fs)); auto.
    + cbn [bind app]. now apply new_SchemaBuilder_constructible.
    + now rewrite lookup_assoc_remove_other by discriminate.
  - cbn [bind own_keys foldM]. now apply new_SchemaBuilder_constructible.
Qed.



(** ** [SetRequiredProperties] *)

Lemma SetRequiredProperties_step f name :
  typed_required f = true ->
  (schemaObject <- default_prop (JObj f) "required" (JArr []) ;;
   required <- get_prop schemaObject "required" ;;
   listed <- includes_string required name ;;
   if listed then Ret schemaObject else
   required <- array_push required (JStr name) ;;
   set_prop schemaObject "required" required) =
  Ret (JObj (if listed name (required_list f) then f
             else assoc_set "required" (JArr (required_list f ++ [JStr name])) f)).
Proof.
  unfold typed_required, required_list, default_prop, listed. rewrite get_prop_object.
  destruct (lookup "required" f) as [[ | | | | | l | ]|] eqn:El; try discriminate; intros _;
    cbn [bind truthy set_prop]; rewrite get_prop_object, lookup_assoc_set_same;
    cbn [bind includes_string existsb].
  - rewrite (assoc_set_lookup_id _ _ _ El).
    destruct (existsb (fun x => is_string x name) l); [reflexivity|].
    cbn [array_push bind set_prop]. reflexivity.
  - cbn [array_push bind set_prop app]. now rewrite assoc_set_twice.
Qed.

Lemma with_required_step name f :
  typed_required f = true ->
  let f' := if listed name (required_list f) then f
            else assoc_set "required" (JArr (required_list f ++ [JStr name])) f in
  typed_required f' = true /\
  required_list f' =
    required_list f ++ (if listed name (required_list f) then [] else [JStr name]) /\
  (forall k, k <> "required" -> lookup k f' = lookup k f).
Proof.
  intros Ht. destruct (listed name (required_list f)); cbn zeta.
  - rewrite app_nil_r. auto.
  - unfold typed_required, required_list. rewrite lookup_assoc_set_same.
    split; [reflexivity|]. split; [reflexivity|].
    intros k Hk. apply lookup_assoc_set_other. congruence.
Qed.

Lemma SetRequiredProperties_loop : forall names f,
  typed_required f = true ->
  foldM (fun schemaObject property =>
           schemaObject <- default_prop schemaObject "required" (JArr []) ;;
           required <- get_prop schemaObject "required" ;;
           listed <- includes_string required property ;;
           if listed then Ret schemaObject else
           required <- array_push required (JStr property) ;;
           set_prop schemaObject "required" required) names (JObj f) =
  Ret (JObj (with_required names f)).
Proof.
  induction names as [|name names IH]; intros f Ht; [reflexivity|].
  cbn [foldM]. rewrite (SetRequiredProperties_step f name Ht). cbn [bind].
  rewrite IH; [reflexivity|]. apply (with_required_step name f Ht).
Qed.

Lemma with_required_spec : forall names f,
  typed_required f = true ->
  typed_required (with_required names f) = true /\
  (exists added, required_list (with_required names f) = required_list f ++ added /\
                 forall x, In x added -> exists n, x = JStr n /\ In n names) /\
  (forall k, listed k (required_list (with_required names f)) =
             listed k (required_list f) || existsb (String.eqb k) names) /\
  (forall k, k <> "required" -> lookup k (with_required names f) = lookup k f).
Proof.
  induction names as [|name names IH]; intros f Ht.
  - split; [exact Ht|]. split; [exists []; split; [now rewrite app_nil_r|intros x []]|].
    split; [intros k; simpl; now rewrite orb_false_r|reflexivity].
  - destruct (with_required_step name f Ht) as (Ht1 & Hr1 & Ho1).
    destruct (IH _ Ht1) as (Ht2 & (added & Hr2 & Hadded) & Hl2 & Ho2).
    unfold with_required in *. cbn [fold_left].
    split; [exact Ht2|]. split; [|split].
    + eexists. split; [rewrite Hr2, Hr1, <- app_assoc; reflexivity|].
      intros x [Hx|Hx]%in_app_or.
      * destruct (listed name (required_list f)); [destruct Hx|].
        destruct Hx as [<-|[]]. exists name. simpl. auto.
      * destruct (Hadded x Hx) as (n & -> & Hn). exists n. simpl. auto.
    + intros k. rewrite Hl2, Hr1. unfold listed at 1. rewrite existsb_app.
      fold (listed k (required_list f)). cbn [existsb].
      destruct (listed name (required_list f)) eqn:El; cbn [existsb].
      * rewrite orb_false_r. destruct (String.eqb_spec k name) as [->|]; [|reflexivity].
        rewrite El. reflexivity.
      * cbn [is_string]. rewrite orb_false_r, String.eqb_sym, orb_assoc. reflexivity.
    + intros k Hk. rewrite Ho2, Ho1; auto.
Qed.

Lemma with_required_listed : forall names f,
  (forall n, In n names -> listed n (required_list f) = true) ->
  with_required names f = f.
Proof.
  induction names as [|name names IH]; intros f H; [reflexivity|].
  unfold with_required in *. cbn [fold_left].
  rewrite (H name (or_introl eq_refl)). apply IH. intros n Hn. apply H. now right.
Qed.



(** ** [SetRequired] and [SetOptionalProperties] *)

Lemma lookup_index_length : forall l i, lookup_index "length" i l = None.
Proof.
  induction l as [|x l IH]; intros i; simpl; [reflexivity|].
  rewrite IH. unfold index_key. now destruct (Nat.to_uint i).
Qed.

Lemma SetRequired_run f r :
  SetRequired (JObj f) (JArr r) =
  Ret (JObj (match r with
             | [] => assoc_remove "required" f
             | _ => assoc_set "required" (JArr r) f
             end)).
Proof.
  unfold SetRequired. cbn [truthy negb get_prop bind]. unfold indexed_get.
  rewrite lookup_index_length. cbn [String.eqb Ascii.eqb Bool.eqb].
  destruct r as [|x r]; [reflexivity|].
  cbn [List.length]. rewrite Nat2Z.inj_succ.
  destruct (Z.succ (Z.of_nat (List.length r))) eqn:E; try reflexivity. lia.
Qed.

Lemma made_optional_absent name : forall pfs,
  ~ In name (map fst pfs) -> map (made_optional [name]) pfs = pfs.
Proof.
  induction pfs as [|[k v] pfs IH]; simpl; intros H; [reflexivity|].
  rewrite IH by auto. unfold made_optional. simpl.
  destruct (String.eqb_spec k name); [exfalso; auto|reflexivity].
Qed.

Lemma strip_named_map name : forall pfs,
  NoDup (map fst pfs) -> strip_named name pfs = map (made_optional [name]) pfs.
Proof.
  induction pfs as [|[k v] pfs IH]; intros Hnd; [reflexivity|].
  inversion Hnd as [|? ? Hk Hnd']; subst. unfold strip_named in *. cbn [lookup map].
  destruct (String.eqb_spec k name) as [->|Hne].
  - rewrite (made_optional_absent name pfs Hk). unfold made_optional. cbn [fst existsb].
    rewrite String.eqb_refl. cbn [orb]. unfold field_without_default. cbn [fst snd].
    destruct v; cbn [assoc_set without_default]; rewrite ?String.eqb_refl; reflexivity.
  - rewrite <- (IH Hnd'). unfold made_optional at 1. cbn [fst existsb].
    destruct (String.eqb_spec k name) as [|_]; [contradiction|]. cbn [orb].
    destruct (lookup name pfs) as [[ | | | | | | pf]|]; try reflexivity.
    cbn [assoc_set]. destruct (String.eqb_spec k name) as [|_]; [contradiction|reflexivity].
Qed.

Lemma made_optional_fst names kv : fst (made_optional names kv) = fst kv.
Proof. unfold made_optional. now destruct (existsb _ names). Qed.

Lemma made_optional_app S T kv :
  made_optional S (made_optional T kv) = made_optional (T ++ S) kv.
Proof.
  unfold made_optional at 1 3. rewrite made_optional_fst, existsb_app.
  unfold made_optional.
  destruct (existsb (String.eqb (fst kv)) T), (existsb (String.eqb (fst kv)) S);
    cbn [orb]; try reflexivity.
  unfold field_without_default. cbn [fst snd]. now rewrite without_default_twice.
Qed.

Lemma strip_named_fold : forall names pfs,
  NoDup (map fst pfs) ->
  fold_left (fun p name => strip_named name p) names pfs = map (made_optional names) pfs.
Proof.
  induction names as [|name names IH]; intros pfs Hnd; cbn [fold_left].
  - rewrite <- (map_id pfs) at 1. apply map_ext. reflexivity.
  - rewrite (strip_named_map name pfs Hnd), IH.
    + rewrite map_map. apply map_ext. intros kv. apply made_optional_app.
    + rewrite map_map. erewrite map_ext; [exact Hnd|]. intros kv. apply made_optional_fst.
Qed.

Lemma SetOptionalProperties_loop : forall names f pfs,
  lookup "properties" f = Some (JObj pfs) ->
  foldM (fun schemaObject optionalProperty =>
           declared <- get_prop schemaObject "properties" ;;
           property <- (match declared with
                        | JUndef | JNull => Ret JUndef
                        | _ => get_prop declared optionalProperty
                        end) ;;
           if truthy property && negb (is_boolean property) then
             match property with
             | JObj pf =>
                 set_prop2 schemaObject "properties" optionalProperty
                   (JObj (assoc_remove "default" pf))
             | _ => Ret schemaObject
             end
           else Ret schemaObject) names (JObj f) =
  Ret (JObj (assoc_set "properties"
               (JObj (fold_left (fun p name => strip_named name p) names pfs)) f)).
Proof.
  induction names as [|name names IH]; intros f pfs Hp.
  - cbn [foldM fold_left]. now rewrite (assoc_set_lookup_id _ _ _ Hp).
  - cbn [foldM fold_left]. rewrite get_prop_object, Hp. cbn [bind].
    rewrite get_prop_object. cbn [bind].
    assert (Hstep : (if truthy (match lookup name pfs with Some v => v | None => JUndef end) &&
                        negb (is_boolean (match lookup name pfs with Some v => v | None => JUndef end))
                     then match (match lookup name pfs with Some v => v | None => JUndef end) with
                          | JObj pf =>
                              set_prop2 (JObj f) "properties" name
                                (JObj (assoc_remove "default" pf))
                          | _ => Ret (JObj f)
                          end
                     else Ret (JObj f)) =
                    Ret (JObj (assoc_set "properties" (JObj (strip_named name pfs)) f))).
    { unfold strip_named.
      destruct (lookup name pfs) as [[ | | [|] | n | s | l | pf]|];
        cbn [truthy is_boolean negb andb];
        rewrite ?(assoc_set_lookup_id _ _ _ Hp); try reflexivity;
        try (destruct (negb _); reflexivity).
      exact (set_prop2_object f _ _ _ _ Hp). }
    rewrite Hstep. cbn [bind].
    rewrite (IH _ (strip_named name pfs)) by apply lookup_assoc_set_same.
    now rewrite assoc_set_twice.
Qed.

Lemma SetOptionalProperties_loop_none : forall names f,
  lookup "properties" f = None ->
  foldM (fun schemaObject optionalProperty =>
           declared <- get_prop schemaObject "properties" ;;
           property <- (match declared with
                        | JUndef | JNull => Ret JUndef
                        | _ => get_prop declared optionalProperty
                        end) ;;
           if truthy property && negb (is_boolean property) then
             match property with
             | JObj pf =>
                 set_prop2 schemaObject "properties" optionalProperty
                   (JObj (assoc_remove "default" pf))
             | _ => Ret schemaObject
             end
           else Ret schemaObject) names (JObj f) = Ret (JObj f).
Proof.
  induction names as [|name names IH]; intros f Hp; [reflexivity|].
  cbn [foldM]. rewrite get_prop_object, Hp. cbn [bind truthy andb]. now apply IH.
Qed.

Lemma listed_still_required names k l :
  listed k (still_required names l) = listed k l && negb (existsb (String.eqb k) names).
Proof.
  unfold listed, still_required. induction l as [|x l IH]; [reflexivity|].
  cbn [filter existsb]. rewrite existsb_is_string.
  destruct x as [ | | | | s | | ]; cbn [is_string negb existsb orb]; try exact IH.
  destruct (existsb (String.eqb s) names) eqn:Es; cbn [negb existsb is_string].
  - rewrite IH. destruct (String.eqb_spec s k) as [->|]; [|reflexivity].
    rewrite Es. cbn [negb orb]. now rewrite !andb_false_r.
  - rewrite IH. destruct (String.eqb_spec s k) as [->|]; [|reflexivity].
    rewrite Es. reflexivity.
Qed.



(** ** [IntersectProperties] and [OverwriteProperties] *)

Lemma constructible_allOf a b :
  constructible a -> constructible b -> constructible (allOf_pair a b).
Proof.
  intros Ha Hb. apply constructible_object. repeat split; try reflexivity.
  unfold visit_branches.
  cbn [get_prop lookup String.eqb Ascii.eqb Bool.eqb bind truthy array_forEach forEach].
  unfold constructible in *. now rewrite Ha, Hb.
Qed.

(** The loop over the properties of the other schema, for a round that
    stores [join old b] under the key and lists it as [req] says. *)
Section PropertyLoop.

Variable step : value -> value -> string -> outcome value.
Variable join : option value -> value -> value.
Variable req : option value -> bool -> bool -> bool.

Hypothesis step_spec : forall fs1 f f2 key b,
  merge_invariant fs1 f ->
  typed_object f2 = true ->
  lookup key (declared f2) = Some b ->
  constructible b ->
  exists f',
    step (JObj f2) (JObj f) key = Ret (JObj f') /\
    merge_invariant fs1 f' /\
    lookup key (declared f') = Some (join (lookup key (declared f)) b) /\
    listed key (required_list f') =
      req (lookup key (declared f)) (listed key (required_list f))
        (listed key (required_list f2)) /\
    (forall k, k <> key ->
       lookup k (declared f') = lookup k (declared f) /\
       listed k (required_list f') = listed k (required_list f)).

Lemma property_loop fs1 f2 :
  typed_object f2 = true ->
  Forall constructible (map snd (declared f2)) ->
  forall ks, NoDup ks ->
  (forall k, In k ks -> In k (map fst (declared f2))) ->
  forall f, merge_invariant fs1 f ->
  exists f',
    foldM (step (JObj f2)) ks (JObj f) = Ret (JObj f') /\
    merge_invariant fs1 f' /\
    (forall k b, In k ks -> lookup k (declared f2) = Some b ->
       lookup k (declared f') = Some (join (lookup k (declared f)) b) /\
       listed k (required_list f') =
         req (lookup k (declared f)) (listed k (required_list f))
           (listed k (required_list f2))) /\
    (forall k, ~ In k ks ->
       lookup k (declared f') = lookup k (declared f) /\
       listed k (required_list f') = listed k (required_list f)).
Proof.
  intros Ht2 Hv2. induction ks as [|key ks IH]; intros Hnd Hin f Hinv.
  - exists f. split; [reflexivity|]. split; [exact Hinv|]. split.
    + intros k b [].
    + intros k _. split; reflexivity.
  - inversion Hnd as [|? ? Hkey Hnd']; subst.
    assert (Hb : exists b, lookup key (declared f2) = Some b).
    { specialize (Hin key (or_introl eq_refl)). apply has_key_In in Hin.
      unfold has_key in Hin. destruct (lookup key (declared f2)); [eauto | discriminate]. }
    destruct Hb as [b Hb].
    destruct (step_spec fs1 f f2 key b Hinv Ht2 Hb (lookup_values _ _ _ _ Hv2 Hb))
      as (f1 & Estep & Hinv1 & Hk1 & Hl1 & Hother1).
    destruct (IH Hnd' (fun k H => Hin k (or_intror H)) f1 Hinv1)
      as (f' & Eloop & Hinv' & Hin' & Hout').
    exists f'. split; [simpl; now rewrite Estep|]. split; [exact Hinv'|]. split.
    + intros k b' [<-|Hk] Hb'.
      * destruct (Hout' key Hkey) as [E1 E2]. rewrite E1, E2, Hk1, Hl1.
        assert (b' = b) by congruence. subst b'. auto.
      * assert (Hne : k <> key) by (intros ->; contradiction).
        destruct (Hin' k b' Hk Hb') as [E1 E2].
        destruct (Hother1 k Hne) as [E3 E4]. now rewrite E1, E2, E3, E4.
    + intros k Hk. simpl in Hk.
      assert (Hne : k <> key) by (intros ->; apply Hk; auto).
      destruct (Hout' k (fun H => Hk (or_intror H))) as [E1 E2].
      destruct (Hother1 k Hne) as [E3 E4]. now rewrite E1, E2, E3, E4.
Qed.

(** The whole operation, given its unfolding on a simple receiver. *)
Lemma property_operation fs1 fs2 config1 :
  constructible (JObj fs1) ->
  constructible (JObj fs2) ->
  typed_object fs1 = true ->
  typed_object fs2 = true ->
  NoDup (map fst (declared fs2)) ->
  exists fs',
    (properties2 <- get_prop (JObj fs2) "properties" ;;
     schemaObject1 <-
       (if truthy properties2 then
          schemaObject1 <- default_prop (JObj fs1) "properties" (JObj []) ;;
          foldM (step (JObj fs2)) (own_keys properties2) schemaObject1
        else Ret (JObj fs1)) ;;
     new_SchemaBuilder schemaObject1 config1) = Ret (builder fs' config1) /\
    (forall k b, lookup k (declared fs2) = Some b ->
       lookup k (declared fs') = Some (join (lookup k (declared fs1)) b) /\
       listed k (required_list fs') =
         req (lookup k (declared fs1)) (listed k (required_list fs1))
           (listed k (required_list fs2))) /\
    (forall k, lookup k (declared fs2) = None ->
       lookup k (declared fs') = lookup k (declared fs1) /\
       listed k (required_list fs') = listed k (required_list fs1)) /\
    (forall k, k <> "properties" -> k <> "required" -> lookup k fs' = lookup k fs1).
Proof.
  intros Hc1 Hc2 Ht1 Ht2 Hnd. rewrite get_prop_object. cbn [bind].
  pose proof Ht2 as Ht2'. unfold typed_object in Ht2'.
  apply andb_true_iff in Ht2' as [Hp2 _].
  destruct (lookup "properties" fs2) as [p2|] eqn:Ep2.
  - destruct p2 as [ | | | | | | pfs2]; try discriminate. cbn [truthy own_keys].
    assert (Hd2 : declared fs2 = pfs2) by (unfold declared; now rewrite Ep2).
    destruct (invariant_start fs1 Hc1 Ht1) as (Estart & Hinv0 & Hd0 & Hr0).
    rewrite Estart. cbn [bind].
    destruct (property_loop fs1 fs2 Ht2 (constructible_declared fs2 Hc2)
                (map fst pfs2)) with (f := assoc_set "properties" (JObj (declared fs1)) fs1)
      as (fs' & Eloop & Hinv' & Hin' & Hout'); auto.
    { now rewrite <- Hd2. }
    { intros k Hk. now rewrite Hd2. }
    rewrite Eloop. cbn [bind]. rewrite (invariant_finish fs1 fs' config1 Hc1 Hinv').
    exists fs'. split; [reflexivity|]. rewrite Hd0, Hr0 in *. split; [|split].
    + intros k b Hb. apply Hin'; [|exact Hb]. rewrite <- Hd2. eapply lookup_Some_keys; eauto.
    + intros k Hk. apply Hout'. rewrite <- Hd2. now apply lookup_None_keys.
    + now destruct Hinv' as (_ & _ & _ & Ho).
  - cbn [truthy bind]. rewrite (new_SchemaBuilder_constructible _ config1 Hc1).
    exists fs1. split; [reflexivity|]. split; [|split]; auto.
    intros k b Hb. unfold declared in Hb. rewrite Ep2 in Hb. discriminate.
Qed.

End PropertyLoop.

Lemma step_facts f f' key v base (flag : bool) :
  declared f' = assoc_set key v (declared f) ->
  required_list f' = base ++ (if flag then [JStr key] else []) ->
  (forall k, k <> key -> listed k base = listed k (required_list f)) ->
  lookup key (declared f') = Some v /\
  listed key (required_list f') = listed key base || flag /\
  (forall k, k <> key ->
     lookup k (declared f') = lookup k (declared f) /\
     listed k (required_list f') = listed k (required_list f)).
Proof.
  intros Hd Hr Hbase. rewrite Hd, Hr. split; [apply lookup_assoc_set_same|]. split.
  - destruct flag; [now rewrite listed_app, String.eqb_refl|].
    now rewrite app_nil_r, orb_false_r.
  - intros k Hk. split; [apply lookup_assoc_set_other; congruence|].
    rewrite <- (Hbase k Hk). destruct flag; [|now rewrite app_nil_r].
    rewrite listed_app. destruct (String.eqb_spec key k); [congruence|apply orb_false_r].
Qed.

Ltac solve_facts :=
  first [ congruence
        | cbn iota; rewrite ?app_nil_r; congruence
        | intros; reflexivity
        | intros; now apply listed_filter_other ].

Lemma IntersectProperties_step_spec fs1 f f2 key b :
  merge_invariant fs1 f ->
  typed_object f2 = true ->
  lookup key (declared f2) = Some b ->
  constructible b ->
  exists f',
    IntersectProperties_step (JObj f2) (JObj f) key = Ret (JObj f') /\
    merge_invariant fs1 f' /\
    lookup key (declared f') =
      Some ((fun old b => match old with Some a => allOf_pair a b | None => b end)
              (lookup key (declared f)) b) /\
    listed key (required_list f') =
      (fun (_ : option value) l1 l2 => l1 || l2)
        (lookup key (declared f)) (listed key (required_list f))
        (listed key (required_list f2)) /\
    (forall k, k <> key ->
       lookup k (declared f') = lookup k (declared f) /\
       listed k (required_list f') = listed k (required_list f)).
Proof.
  intros Hinv Ht2 Hb Hcb. pose proof Hinv as (Ht & Hp & Hv & Ho).
  pose proof (declared_present f2 key b Ht2 Hb) as Hp2.
  remember (IntersectProperties_step (JObj f2) (JObj f) key) as run eqn:Erun.
  unfold IntersectProperties_step in Erun.
  rewrite !get_prop_object, Hp, Hp2 in Erun. cbn [bind has_prop] in Erun.
  unfold has_key in Erun. cbn beta.
  destruct (lookup key (declared f)) as [a|] eqn:Ea; cbn [bind negb] in Erun.
  - rewrite !get_prop_object, Ea, Hb in Erun. cbn [bind] in Erun.
    fold (allOf_pair a b) in Erun.
    destruct (invariant_declare fs1 f key (allOf_pair a b) Hinv) as (f1 & E1 & Hinv1 & Hd1 & Hl1).
    { apply constructible_allOf; [exact (lookup_values _ _ _ _ Hv Ea)|exact Hcb]. }
    assert (Hr1 : required_list f1 = required_list f) by (unfold required_list; now rewrite Hl1).
    rewrite E1 in Erun. cbn [bind] in Erun.
    rewrite (invariant_lists f2 key Ht2) in Erun. cbn [bind] in Erun.
    destruct (listed key (required_list f2)) eqn:El2; cbn [negb] in Erun.
    + rewrite (invariant_lists f1 key (proj1 Hinv1)), Hr1 in Erun. cbn [bind] in Erun.
      destruct (listed key (required_list f)) eqn:El1.
      * exists f1. split; [exact Erun|]. split; [exact Hinv1|].
        destruct (step_facts f f1 key (allOf_pair a b) (required_list f) false) as (F1 & F2 & F3); [solve_facts..|].
        rewrite F2, El1. auto.
      * destruct (invariant_push fs1 f1 key Hinv1) as (f1' & E2 & Hinv2 & Hd2 & Hr2 & _).
        rewrite E2 in Erun. exists f1'. split; [exact Erun|]. split; [exact Hinv2|].
        destruct (step_facts f f1' key (allOf_pair a b) (required_list f) true) as (F1 & F2 & F3); [solve_facts..|].
        rewrite F2, El1. auto.
    + exists f1. split; [exact Erun|]. split; [exact Hinv1|].
      destruct (step_facts f f1 key (allOf_pair a b) (required_list f) false) as (F1 & F2 & F3); [solve_facts..|].
      rewrite F2. auto.
  - rewrite get_prop_object, Hb in Erun. cbn [bind] in Erun.
    destruct (invariant_declare fs1 f key b Hinv Hcb) as (f1 & E1 & Hinv1 & Hd1 & Hl1).
    assert (Hr1 : required_list f1 = required_list f) by (unfold required_list; now rewrite Hl1).
    rewrite E1 in Erun. cbn [bind] in Erun.
    rewrite (invariant_lists f2 key Ht2) in Erun. cbn [bind] in Erun.
    destruct (listed key (required_list f2)) eqn:El2.
    + destruct (invariant_push fs1 f1 key Hinv1) as (f1' & E2 & Hinv2 & Hd2 & Hr2 & _).
      rewrite E2 in Erun. exists f1'. split; [exact Erun|]. split; [exact Hinv2|].
      destruct (step_facts f f1' key b (required_list f) true) as (F1 & F2 & F3); [solve_facts..|].
      rewrite F2. rewrite orb_true_r. auto.
    + exists f1. split; [exact Erun|]. split; [exact Hinv1|].
      destruct (step_facts f f1 key b (required_list f) false) as (F1 & F2 & F3); [solve_facts..|].
      rewrite F2. auto.
Qed.

Lemma OverwriteProperties_step_spec fs1 f f2 key b :
  merge_invariant fs1 f ->
  typed_object f2 = true ->
  lookup key (declared f2) = Some b ->
  constructible b ->
  exists f',
    OverwriteProperties_step (JObj f2) (JObj f) key = Ret (JObj f') /\
    merge_invariant fs1 f' /\
    lookup key (declared f') = Some ((fun (_ : option value) b => b) (lookup key (declared f)) b) /\
    listed key (required_list f') =
      (fun (old : option value) l1 l2 => match old with Some _ => l2 | None => l1 || l2 end)
        (lookup key (declared f)) (listed key (required_list f))
        (listed key (required_list f2)) /\
    (forall k, k <> key ->
       lookup k (declared f') = lookup k (declared f) /\
       listed k (required_list f') = listed k (required_list f)).
Proof.
  intros Hinv Ht2 Hb Hcb. pose proof Hinv as (Ht & Hp & Hv & Ho).
  pose proof (declared_present f2 key b Ht2 Hb) as Hp2.
  remember (OverwriteProperties_step (JObj f2) (JObj f) key) as run eqn:Erun.
  unfold OverwriteProperties_step in Erun.
  rewrite !get_prop_object, Hp, Hp2 in Erun. cbn [bind has_prop] in Erun.
  unfold has_key in Erun. cbn beta.
  destruct (invariant_declare fs1 f key b Hinv Hcb) as (f1 & E1 & Hinv1 & Hd1 & Hl1).
  assert (Hr1 : required_list f1 = required_list f) by (unfold required_list; now rewrite Hl1).
  destruct (lookup key (declared f)) as [a|] eqn:Ea; cbn [bind negb] in Erun;
    rewrite get_prop_object, Hb in Erun; cbn [bind] in Erun;
    rewrite E1 in Erun; cbn [bind] in Erun.
  - rewrite (invariant_lists f1 key (proj1 Hinv1)), Hr1 in Erun. cbn [bind] in Erun.
    destruct (listed key (required_list f)) eqn:El1.
    + destruct (invariant_unlist fs1 f1 key Hinv1) as (f2' & E2 & Hinv2 & Hd2 & Hr2 & _).
      { unfold has_key. rewrite Hl1.
        pose proof (typed_object_required f Ht) as Htr. unfold typed_required in Htr.
        unfold listed, required_list in El1.
        destruct (lookup "required" f) as [[ | | | | | l | ]|]; try discriminate; reflexivity. }
      rewrite E2 in Erun. cbn [bind] in Erun.
      rewrite (invariant_lists f2 key Ht2) in Erun. cbn [bind] in Erun.
      rewrite Hr1 in Hr2.
      destruct (listed key (required_list f2)) eqn:El2.
      * destruct (invariant_push fs1 f2' key Hinv2) as (f3 & E3 & Hinv3 & Hd3 & Hr3 & _).
        rewrite E3 in Erun. exists f3. split; [exact Erun|]. split; [exact Hinv3|].
        destruct (step_facts f f3 key b
                    (filter (fun p => negb (is_string p key)) (required_list f)) true)
          as (F1 & F2 & F3); auto; [now rewrite Hd3, Hd2|now rewrite Hr3, Hr2|
                                    intros k Hk; now apply listed_filter_other|].
        rewrite F2, orb_true_r. auto.
      * exists f2'. split; [exact Erun|]. split; [exact Hinv2|].
        destruct (step_facts f f2' key b
                    (filter (fun p => negb (is_string p key)) (required_list f)) false)
          as (F1 & F2 & F3); auto; [now rewrite Hd2|now rewrite Hr2, app_nil_r|
                                    intros k Hk; now apply listed_filter_other|].
        rewrite F2, listed_filter_same. auto.
    + cbn [bind] in Erun. rewrite (invariant_lists f2 key Ht2) in Erun. cbn [bind] in Erun.
      destruct (listed key (required_list f2)) eqn:El2.
      * destruct (invariant_push fs1 f1 key Hinv1) as (f3 & E3 & Hinv3 & Hd3 & Hr3 & _).
        rewrite E3 in Erun. exists f3. split; [exact Erun|]. split; [exact Hinv3|].
        destruct (step_facts f f3 key b (required_list f) true) as (F1 & F2 & F3); [solve_facts..|].
        rewrite F2, orb_true_r. auto.
      * exists f1. split; [exact Erun|]. split; [exact Hinv1|].
        destruct (step_facts f f1 key b (required_list f) false) as (F1 & F2 & F3); [solve_facts..|].
        rewrite F2, El1. auto.
  - rewrite (invariant_lists f2 key Ht2) in Erun. cbn [bind] in Erun.
    destruct (listed key (required_list f2)) eqn:El2.
    + destruct (invariant_push fs1 f1 key Hinv1) as (f3 & E3 & Hinv3 & Hd3 & Hr3 & _).
      rewrite E3 in Erun. exists f3. split; [exact Erun|]. split; [exact Hinv3|].
      destruct (step_facts f f3 key b (required_list f) true) as (F1 & F2 & F3); [solve_facts..|].
      rewrite F2, orb_true_r. auto.
    + exists f1. split; [exact Erun|]. split; [exact Hinv1|].
      destruct (step_facts f f1 key b (required_list f) false) as (F1 & F2 & F3); [solve_facts..|].
      rewrite F2. auto.
Qed.





(** ** The three merges on schemas without a common property *)

Lemma steps_agree_on_new_key fs1 f f2 key :
  merge_invariant fs1 f ->
  lookup key (declared f) = None ->
  IntersectProperties_step (JObj f2) (JObj f) key =
    MergeProperties_step (JObj f2) (JObj f) key /\
  OverwriteProperties_step (JObj f2) (JObj f) key =
    MergeProperties_step (JObj f2) (JObj f) key.
Proof.
  intros (Ht & Hp & Hv & Ho) Hk.
  unfold IntersectProperties_step, OverwriteProperties_step, MergeProperties_step,
    lists_required, push_required_name.
  rewrite !get_prop_object, Hp. cbn [bind has_prop]. unfold has_key. rewrite Hk.
  cbn [negb]. split.
  - destruct (get_prop _ key) as [p2| |]; cbn [bind]; try reflexivity;
      destruct (set_prop2 (JObj f) "properties" key p2) as [s1| |]; cbn [bind]; reflexivity.
  - destruct (get_prop _ key) as [p2| |]; cbn [bind]; try reflexivity;
      destruct (set_prop2 (JObj f) "properties" key p2) as [s1| |]; cbn [bind]; reflexivity.
Qed.

Lemma loops_agree_on_new_keys fs1 f2 :
  typed_object f2 = true ->
  Forall constructible (map snd (declared f2)) ->
  forall ks, NoDup ks ->
  (forall k, In k ks -> In k (map fst (declared f2))) ->
  forall f, merge_invariant fs1 f ->
  (forall k, In k ks -> lookup k (declared f) = None) ->
  foldM (IntersectProperties_step (JObj f2)) ks (JObj f) =
    foldM (MergeProperties_step (JObj f2)) ks (JObj f) /\
  foldM (OverwriteProperties_step (JObj f2)) ks (JObj f) =
    foldM (MergeProperties_step (JObj f2)) ks (JObj f).
Proof.
  intros Ht2 Hv2. induction ks as [|key ks IH]; intros Hnd Hin f Hinv Hnew.
  - split; reflexivity.
  - inversion Hnd as [|? ? Hkey Hnd']; subst.
    destruct (steps_agree_on_new_key fs1 f f2 key Hinv (Hnew key (or_introl eq_refl)))
      as [EI EO].
    assert (Hb : exists b, lookup key (declared f2) = Some b).
    { specialize (Hin key (or_introl eq_refl)). apply has_key_In in Hin.
      unfold has_key in Hin. destruct (lookup key (declared f2)); [eauto | discriminate]. }
    destruct Hb as [b Hb].
    destruct (MergeProperties_step_spec fs1 f f2 key b Hinv Ht2 Hb
                (lookup_values _ _ _ _ Hv2 Hb))
      as (f1 & Estep & Hinv1 & _ & _ & Hother1).
    cbn [foldM]. rewrite EI, EO, Estep. cbn [bind].
    apply IH; auto.
    + intros k Hk. apply Hin. now right.
    + intros k Hk. assert (Hne : k <> key) by (intros ->; contradiction).
      destruct (Hother1 k Hne) as [E _]. rewrite E. apply Hnew. now right.
Qed.



(** ** [PickProperties], [OmitProperties] and [PickAdditionalProperties] *)

Lemma listed_kept_required names k l :
  listed k (kept_required names l) = listed k l && existsb (String.eqb k) names.
Proof.
  unfold listed, kept_required. induction l as [|x l IH]; [reflexivity|].
  cbn [filter existsb]. rewrite existsb_is_string.
  destruct x as [ | | | | s | | ]; cbn [is_string existsb orb]; try exact IH.
  destruct (existsb (String.eqb s) names) eqn:Es; cbn [existsb is_string].
  - rewrite IH. destruct (String.eqb_spec s k) as [->|]; [|reflexivity].
    rewrite Es. cbn [orb]. now rewrite andb_true_r.
  - rewrite IH. destruct (String.eqb_spec s k) as [->|]; [|reflexivity].
    rewrite Es. cbn [orb]. now rewrite andb_false_r.
Qed.



Lemma pick_fresh_names pfs : forall names acc,
  NoDup (map fst acc ++ names) ->
  fold_left (fun propertiesMap property =>
               assoc_set property
                 (match lookup property pfs with Some v => v | None => JUndef end)
                 propertiesMap) names acc =
  acc ++ map (fun k => (k, field k pfs)) names.
Proof.
  induction names as [|name names IH]; intros acc Hnd; cbn [fold_left map].
  - now rewrite app_nil_r.
  - assert (Hk : lookup name acc = None).
    { apply lookup_None_keys. intros Hin. apply NoDup_remove_2 in Hnd. apply Hnd.
      apply in_or_app. now left. }
    rewrite (assoc_set_absent _ _ _ Hk), IH.
    + now rewrite <- app_assoc.
    + rewrite map_app, <- app_assoc. exact Hnd.
Qed.

Lemma field_of_declared : forall pfs (g : string -> bool),
  NoDup (map fst pfs) ->
  map (fun k => (k, field k pfs)) (filter g (map fst pfs)) =
  filter (fun kv => g (fst kv)) pfs.
Proof.
  induction pfs as [|[k v] pfs IH]; intros g Hnd; [reflexivity|].
  inversion Hnd as [|? ? Hk Hnd']; subst. cbn [map fst filter].
  assert (Hrest : map (fun k0 => (k0, field k0 ((k, v) :: pfs))) (filter g (map fst pfs)) =
                  filter (fun kv => g (fst kv)) pfs).
  { rewrite <- (IH g Hnd'). apply map_ext_in. intros k' Hk'.
    apply filter_In in Hk' as [Hk' _]. unfold field. cbn [lookup].
    destruct (String.eqb_spec k k') as [->|]; [contradiction|reflexivity]. }
  destruct (g k); cbn [map]; rewrite Hrest; [|reflexivity].
  unfold field. cbn [lookup]. now rewrite String.eqb_refl.
Qed.



(** X19.  [PickAdditionalProperties] refuses a schema that is no object
    schema, has [additionalProperties] set to [false] (in particular a
    simple object schema) or has a combination keyword.  On an object
    schema it accepts, it does with an empty list of additional names
    what [PickProperties] does. *)
Theorem X19_PickAdditionalProperties_closed (this : SchemaBuilder)
  (names : list string) (extra : option (list string)) :
  (IsObjectSchema this = Ret false \/
   (IsObjectSchema this = Ret true /\ HasAdditionalProperties this = Ret false) \/
   (IsObjectSchema this = Ret true /\ HasAdditionalProperties this = Ret true /\
    HasSchemasCombinationKeywords this = Ret true) ->
   PickAdditionalProperties this names extra = Throw (VError pick_additional_error)) /\
  (IsSimpleObjectSchema this = Ret true ->
   PickAdditionalProperties this names extra = Throw (VError pick_additional_error)) /\
  (IsObjectSchema this = Ret true ->
   HasAdditionalProperties this = Ret true ->
   HasSchemasCombinationKeywords this = Ret false ->
   PickAdditionalProperties this names (Some []) = PickProperties this names).
Proof.
  assert (Hrefuse : IsObjectSchema this = Ret false \/
            (IsObjectSchema this = Ret true /\ HasAdditionalProperties this = Ret false) \/
            (IsObjectSchema this = Ret true /\ HasAdditionalProperties this = Ret true /\
             HasSchemasCombinationKeywords this = Ret true) ->
            PickAdditionalProperties this names extra = Throw (VError pick_additional_error)).
  { unfold PickAdditionalProperties. intros [Hobj|[[Hobj Hadd]|(Hobj & Hadd & Hcomb)]];
      rewrite Hobj; cbn [bind negb]; [reflexivity| |].
    - now rewrite Hadd.
    - rewrite Hadd. cbn [bind negb]. now rewrite Hcomb. }
  split; [exact Hrefuse|]. split.
  - intros Hsimple. apply Hrefuse. unfold IsSimpleObjectSchema in Hsimple.
    destruct (IsObjectSchema this) as [[|]| |]; cbn [bind negb] in Hsimple; try discriminate.
    right. left. split; [reflexivity|].
    destruct (HasAdditionalProperties this) as [[|]| |]; cbn [bind] in Hsimple;
      try discriminate; reflexivity.
  - intros Hobj Hadd Hcomb. unfold PickAdditionalProperties, PickProperties.
    rewrite Hobj. cbn [bind negb]. rewrite Hadd. cbn [bind negb]. rewrite Hcomb.
    cbn [bind].
    destruct (get_prop (CloneJSON (schemaObject this)) "additionalProperties") as [a| |] eqn:Ea;
      cbn [bind]; [reflexivity| |].
    + exfalso. unfold IsObjectSchema in Hobj. rewrite CloneJSON_id in Ea.
      destruct (schemaObject this); try discriminate.
    + exfalso. rewrite CloneJSON_id in Ea. destruct (schemaObject this); discriminate.
Qed.

Lemma X19_PickAdditionalProperties_closed_witness :
  PickAdditionalProperties (builder abc_schema None) ["a"] None =
    Throw (VError pick_additional_error) /\
  PickAdditionalProperties (builder open_schema_fields None) ["a"] (Some []) =
    PickProperties (builder open_schema_fields None) ["a"].
Proof.
  split.
  - exact (proj1 (proj2 (X19_PickAdditionalProperties_closed (builder abc_schema None)
                           ["a"] None)) eq_refl).
  - exact (proj2 (proj2 (X19_PickAdditionalProperties_closed
                           (builder open_schema_fields None) ["a"] None))
             eq_refl eq_refl eq_refl).
Defined.

(** ** [GetSubschema]: the content behind the shared node *)

Lemma get_handle_throw st h v k e :
  Heap.read st h = Ret v -> get_prop v k = Throw e -> Heap.get_handle st h k = Throw e.
Proof.
  destruct h as [w|r]; cbn [Heap.read Heap.get_handle].
  - intros [= ->] Hx. now rewrite Hx.
  - intros Hd Hx. now rewrite Hd; cbn [bind]; rewrite Hx.
Qed.

Lemma get_prop_returns_or_throws v k : get_prop v k <> OutOfFuel.
Proof. destruct v; discriminate. Qed.



(** ** The outcomes of the traversal and of the constructor *)

Section TraversalOutcomes.

Variable Q : outcome unit -> Prop.
Variable action : value -> outcome unit.

Hypothesis Q_return : Q (Ret tt).
Hypothesis Q_type_error : Q (Throw TypeError).
Hypothesis Q_bind : forall c k, Q c -> Q (k tt) -> Q (bind c k).
Hypothesis Q_action : forall n, Q (action n).

Lemma forEach_outcome (f : value -> outcome unit) (l : list value) :
  (forall x, In x l -> Q (f x)) -> Q (forEach l f).
Proof.
  induction l as [|x l IH]; intros H; cbn [forEach]; [exact Q_return|].
  apply Q_bind; [apply H; now left|]. apply IH. intros y Hy. apply H. now right.
Qed.

Lemma through_outcome : forall d s, depth s < d -> Q (ThroughJsonSchema s action).
Proof.
  induction d as [|d IH]; intros s Hd; [lia|].
  rewrite ThroughJsonSchema_unfold.
  assert (Hbelow : forall x, depth x < depth s -> Q (ThroughJsonSchema x action)).
  { intros x Hx. apply IH. lia. }
  destruct s as [ | | b | n | str | l | fs ]; cbn [through_step]; try exact Q_return.
  - apply forEach_outcome. intros x Hx. apply Hbelow. now apply depth_elem.
  - assert (Hget : forall k v, get_prop (JObj fs) k = Ret v -> depth v < depth (JObj fs)).
    { intros k v. apply depth_get_prop. }
    assert (Hbranches : forall k,
              Q (visit_branches (fun x => ThroughJsonSchema x action) (JObj fs) k)).
    { intros k. unfold visit_branches. rewrite get_prop_object. cbn [bind].
      specialize (Hget k _ (get_prop_object fs k)).
      destruct (truthy _); [|exact Q_return].
      destruct (match lookup k fs with Some v => v | None => JUndef end) as [ | | | | | l | ];
        cbn [array_forEach]; try exact Q_type_error.
      apply forEach_outcome. intros x Hx. apply Hbelow.
      pose proof (depth_elem x l Hx). lia. }
    assert (Hnode : forall k,
              Q (visit_node (fun x => ThroughJsonSchema x action) (JObj fs) k)).
    { intros k. unfold visit_node. rewrite get_prop_object. cbn [bind].
      destruct (truthy _); [|exact Q_return].
      apply Hbelow. exact (Hget k _ (get_prop_object fs k)). }
    repeat (apply Q_bind; auto).
    + unfold visit_properties. rewrite get_prop_object. cbn [bind].
      destruct (truthy _); [|exact Q_return].
      apply forEach_outcome. intros x Hx. apply Hbelow.
      apply (depth_own_values x _ _ Hx). exact (Hget "properties" _ (get_prop_object fs _)).
    + unfold visit_additional. rewrite get_prop_object. cbn [bind].
      destruct (truthy _ && _); [|exact Q_return].
      apply Hbelow. exact (Hget "additionalProperties" _ (get_prop_object fs _)).
Qed.

End TraversalOutcomes.

(** X21.  The traversal of a document ends: for an action that returns
    or throws on every node, [ThroughJsonSchema] returns or throws, the
    recursion bound taken from the depth of the document is never
    exhausted.  The constructor therefore either returns the builder of
    the document it was given, or throws its [$ref] error, or throws the
    type error of a [forEach] on a combination keyword that holds no
    array. *)
Theorem X21_traversal_ends (s : value) (config : option value) :
  (forall action : value -> outcome unit,
     (forall n, action n <> OutOfFuel) -> ThroughJsonSchema s action <> OutOfFuel) /\
  (new_SchemaBuilder s config = Ret {| schemaObject := s; validationConfig := config |} \/
   new_SchemaBuilder s config = Throw (VError ref_error) \/
   new_SchemaBuilder s config = Throw TypeError).
Proof.
  split.
  - intros action Haction.
    apply (through_outcome (fun c => c <> OutOfFuel) action) with (d := S (depth s)).
    + discriminate.
    + discriminate.
    + intros c k Hc Hk. destruct c as [[]| |]; [exact Hk|discriminate|exact Hc].
    + exact Haction.
    + lia.
  - assert (H : (fun c => c = Ret tt \/ c = Throw (VError ref_error) \/ c = Throw TypeError)
                  (ThroughJsonSchema s reject_ref)).
    { apply through_outcome with (d := S (depth s)).
      - now left.
      - now right; right.
      - intros c k [ -> | [ -> | -> ] ] Hk; [exact Hk|now right; left|now right; right].
      - intros n. unfold reject_ref.
        destruct n as [ | | | | | l | fs]; cbn [has_prop bind];
          try (now right; right).
        + destruct (_ || _); [now right; left|now left].
        + destruct (has_key "$ref" fs); [now right; left|now left].
      - lia. }
    unfold new_SchemaBuilder. cbn beta in H. destruct H as [ -> | [ -> | -> ] ]; auto.
Qed.

Lemma X21_traversal_ends_witness :
  ThroughJsonSchema ref_in_property (fun _ => Ret tt) <> OutOfFuel.
Proof.
  apply (proj1 (X21_traversal_ends ref_in_property None) (fun _ => Ret tt)).
  intros n. discriminate.
Defined.

(** ** The static factories *)

Lemma with_fields_lookup : forall entries base k,
  NoDup (map fst entries) ->
  lookup k (with_fields base entries) =
  match lookup k entries with
  | Some v => Some v
  | None => lookup k base
  end.
Proof.
  induction entries as [|[k1 v1] entries IH]; intros base k Hnd; [reflexivity|].
  inversion Hnd as [|? ? Hk1 Hnd']; subst. unfold with_fields in *.
  cbn [fold_left fst snd lookup]. rewrite (IH _ _ Hnd').
  destruct (String.eqb_spec k1 k) as [->|Hne].
  - apply lookup_None_keys in Hk1. rewrite Hk1. apply lookup_assoc_set_same.
  - now rewrite (lookup_assoc_set_other _ _ _ _ Hne).
Qed.

Lemma definitions_properties : forall defs acc,
  NoDup (map fst acc ++ map fst defs) ->
  fold_left (fun properties (kd : string * property_definition) =>
               assoc_set (fst kd) (definition_schema (snd kd)) properties) defs acc =
  acc ++ map (fun kd => (fst kd, definition_schema (snd kd))) defs.
Proof.
  induction defs as [|[k d] defs IH]; intros acc Hnd; cbn [fold_left map fst snd].
  - now rewrite app_nil_r.
  - assert (Hk : lookup k acc = None).
    { apply lookup_None_keys. intros Hin. cbn [map fst] in Hnd.
      apply NoDup_remove_2 in Hnd. apply Hnd. apply in_or_app. now left. }
    rewrite (assoc_set_absent _ _ _ Hk), IH.
    + now rewrite <- app_assoc.
    + rewrite map_app, <- app_assoc. exact Hnd.
Qed.

Lemma definitions_required : forall defs acc,
  fold_left (fun required (kd : string * property_definition) =>
               if definition_required (snd kd) then required ++ [JStr (fst kd)]
               else required) defs acc =
  acc ++ map (fun kd => JStr (fst kd))
           (filter (fun kd => definition_required (snd kd)) defs).
Proof.
  induction defs as [|[k d] defs IH]; intros acc; cbn [fold_left filter fst snd].
  - now rewrite app_nil_r.
  - rewrite IH. destruct (definition_required d); [|reflexivity].
    cbn [map fst]. now rewrite <- app_assoc.
Qed.

Lemma constructible_anyOf_list (l : list value) :
  Forall constructible l -> constructible (JObj [("anyOf", JArr l)]).
Proof.
  intros H. apply constructible_object. repeat split; try reflexivity.
  unfold visit_branches.
  cbn [get_prop lookup String.eqb Ascii.eqb Bool.eqb bind truthy array_forEach].
  apply forEach_Ret. exact H.
Qed.

Lemma definition_schema_constructible d :
  definition_constructible d -> constructible (definition_schema d).
Proof.
  destruct d as [b|l]; cbn [definition_constructible definition_schema].
  - now rewrite CloneJSON_id.
  - intros H.
    assert (Hall : Forall constructible
                     (map (fun b => CloneJSON (schemaObject b)) (defined_builders l))).
    { rewrite Forall_forall in *. intros y Hy. apply in_map_iff in Hy as (b & <- & Hb).
      rewrite CloneJSON_id. exact (H b Hb). }
    destruct (defined_builders l) as [|b [|b' rest]].
    + now apply constructible_anyOf_list.
    + rewrite CloneJSON_id. now inversion H.
    + now apply constructible_anyOf_list.
Qed.



Lemma infer_type_eq types v :
  infer_type types v =
  match typeof_name v with
  | Some t => if existsb (String.eqb t) types then types else types ++ [t]
  | None => types
  end.
Proof.
  destruct v; unfold infer_type, typeof_name; cbn [andb negb]; try reflexivity;
    destruct (existsb _ types); reflexivity.
Qed.

Lemma infer_types_spec : forall values acc,
  NoDup acc ->
  NoDup (fold_left infer_type values acc) /\
  (forall t, In t (fold_left infer_type values acc) <->
             In t acc \/ exists v, In v values /\ typeof_name v = Some t).
Proof.
  induction values as [|v values IH]; intros acc Hnd; cbn [fold_left].
  - split; [exact Hnd|]. intros t. split; [auto|]. intros [H|(v & [] & _)]. exact H.
  - assert (Hstep : NoDup (infer_type acc v) /\
                    forall t, In t (infer_type acc v) <-> In t acc \/ typeof_name v = Some t).
    { rewrite infer_type_eq. destruct (typeof_name v) as [t0|].
      - destruct (existsb (String.eqb t0) acc) eqn:E.
        + split; [exact Hnd|]. intros t. split; [auto|]. intros [H|[= <-]]; [exact H|].
          now apply existsb_eqb_In.
        + split.
          * apply NoDup_app; [exact Hnd|repeat constructor; intros []|].
            intros x Hx [<-|[]]. apply existsb_eqb_In in Hx. congruence.
          * intros t. rewrite in_app_iff. cbn [In]. split.
            -- intros [H|[<-|[]]]; auto.
            -- intros [H|[= <-]]; auto.
      - split; [exact Hnd|]. intros t. split; [auto|]. now intros [H|H]. }
    destruct Hstep as [Hnd1 Hin1]. destruct (IH _ Hnd1) as [Hnd2 Hin2].
    split; [exact Hnd2|]. intros t. rewrite Hin2, Hin1. cbn [In]. split.
    + intros [[H|H]|(w & Hw & Ht)]; eauto.
    + intros [H|(w & [<-|Hw] & Ht)]; eauto.
Qed.



Lemma constructible_set_items fs fs' v :
  constructible (JObj fs) ->
  constructible v ->
  (forall k, In k ["$ref"; "properties"; "oneOf"; "allOf"; "anyOf"; "not";
                   "additionalProperties"] -> lookup k fs' = lookup k fs) ->
  lookup "items" fs' = Some v ->
  constructible (JObj fs').
Proof.
  intros H Hv Hk Hitems.
  apply constructible_object in H as (H0 & H1 & H2 & H3 & H4 & H5 & H6 & H7).
  apply constructible_object. repeat split.
  - unfold has_key in *. rewrite Hk; [exact H0 | simpl; auto].
  - rewrite (visit_properties_lookup _ fs); [exact H1 | apply Hk; simpl; auto].
  - rewrite (visit_branches_lookup _ fs); [exact H2 | apply Hk; simpl; auto].
  - rewrite (visit_branches_lookup _ fs); [exact H3 | apply Hk; simpl; auto].
  - rewrite (visit_branches_lookup _ fs); [exact H4 | apply Hk; simpl; auto 10].
  - unfold visit_node. rewrite get_prop_object, Hitems. cbn [bind].
    now destruct (truthy v).
  - rewrite (visit_node_lookup _ fs); [exact H6 | apply Hk; simpl; auto 10].
  - rewrite (visit_additional_lookup _ fs); [exact H7 | apply Hk; simpl; auto 10].
Qed.



(** ** Adding a property and reading it back *)

Lemma AddProperty_run fs config name b isRequired :
  constructible (JObj fs) ->
  typed_object fs = true ->
  constructible (Schema b) ->
  IsObjectSchema (builder fs config) = Ret true ->
  has_key name (declared fs) = false ->
  exists fs',
    AddProperty (builder fs config) name b isRequired = Ret (builder fs' config) /\
    merge_invariant fs fs' /\
    declared fs' = assoc_set name (Schema b) (declared fs).
Proof.
  intros Hc Ht Hcb Hobj Hkey.
  destruct (invariant_start fs Hc Ht) as (Estart & Hinv0 & Hd0 & Hr0).
  destruct (declare_and_require fs _ name (Schema b) (required_flag isRequired) config
              Hc Hinv0 Hcb) as (f' & E & Hinv' & Hd' & _).
  exists f'. split; [|split; [exact Hinv'|now rewrite Hd', Hd0]].
  unfold AddProperty. rewrite Hobj.
  cbn [bind negb schemaObject builder validationConfig]. rewrite !CloneJSON_id, Estart.
  cbn [bind]. rewrite get_prop_object.
  destruct Hinv0 as (_ & Hp & _). rewrite Hp, Hd0. cbn [bind has_prop]. rewrite Hkey.
  exact E.
Qed.

Lemma GetSubschema_simple fs config name pfs :
  constructible (JObj fs) ->
  IsSimpleObjectSchema (builder fs config) = Ret true ->
  lookup "properties" fs = Some (JObj pfs) ->
  GetSubschema (builder fs config) name =
    Ret {| schemaObject := field name pfs; validationConfig := None |}.
Proof.
  intros Hc Hs Hp. unfold GetSubschema. rewrite Hs.
  change (Schema (builder fs config)) with (JObj fs).
  cbn [negb truthy is_boolean bind]. rewrite get_prop_object, Hp.
  cbn [bind truthy negb]. rewrite get_prop_object. fold (field name pfs).
  apply new_SchemaBuilder_constructible.
  unfold field. destruct (lookup name pfs) as [v|] eqn:Ev; [|reflexivity].
  pose proof (constructible_declared fs Hc) as Hall.
  unfold declared in Hall. rewrite Hp in Hall.
  exact (lookup_values _ _ _ _ Hall Ev).
Qed.



Lemma X1_cloneJSON_normalises_witness :
  exists cfs,
    cloneJSON (JObj [("a", JUndef); ("b", JArr [JUndef; JNum 1])]) = Ret (JObj cfs) /\
    Forall2 (fun kx kc : string * value =>
               fst kc = fst kx /\ cloneJSON (snd kx) = Ret (snd kc))
      [("b", JArr [JUndef; JNum 1])] cfs.
Proof.
  exact (proj1 (proj2 (proj2 (X1_cloneJSON_normalises
                                (JObj [("a", JUndef); ("b", JArr [JUndef; JNum 1])]))))
           [("a", JUndef); ("b", JArr [JUndef; JNum 1])] eq_refl).
Defined.

(** ** [RenameProperty] of a declared property *)

Lemma assoc_remove_values (P : value -> Prop) k fs :
  Forall P (map snd fs) -> Forall P (map snd (assoc_remove k fs)).
Proof.
  induction fs as [|[k' v] fs IH]; cbn [assoc_remove map snd]; intros H; [constructor|].
  inversion H; subst. destruct (k' =? k); [auto|]. constructor; auto.
Qed.

Lemma invariant_set_declared fs1 f p :
  merge_invariant fs1 f ->
  Forall constructible (map snd p) ->
  merge_invariant fs1 (assoc_set "properties" (JObj p) f) /\
  declared (assoc_set "properties" (JObj p) f) = p /\
  required_list (assoc_set "properties" (JObj p) f) = required_list f.
Proof.
  intros (Ht & Hp & Hv & Ho) Hvp.
  destruct (set_properties_facts f p (typed_object_required f Ht))
    as (H1p & H1d & H1r & H1t & H1o).
  split; [|split; [exact H1d|unfold required_list; now rewrite H1r]].
  split; [exact H1t|]. split; [now rewrite H1d|]. split; [now rewrite H1d|].
  intros k Hk1 Hk2. rewrite H1o by assumption. now apply Ho.
Qed.



(** ** [ToDeepOptionals] *)

Lemma same_kind_refl x : same_kind x x = true.
Proof.
  destruct x; simpl; auto using Z.eqb_refl, String.eqb_refl. now destruct b.
Qed.

Lemma same_kind_truthy x y : same_kind x y = true -> truthy y = truthy x.
Proof.
  destruct x, y; simpl; try discriminate; auto.
  - intros H. apply Bool.eqb_prop in H. now subst.
  - intros H. apply Z.eqb_eq in H. now subst.
  - intros H. apply String.eqb_eq in H. now subst.
Qed.

Lemma same_kind_boolean x y : same_kind x y = true -> is_boolean y = is_boolean x.
Proof. destruct x, y; simpl; try discriminate; auto. Qed.

Lemma same_kind_array x y :
  same_kind x y = true ->
  match x with JArr _ => true | _ => false end = match y with JArr _ => true | _ => false end.
Proof. destruct x, y; simpl; try discriminate; auto. Qed.

Lemma same_kind_object x y :
  same_kind x y = true ->
  match x with JObj _ => true | _ => false end = match y with JObj _ => true | _ => false end.
Proof. destruct x, y; simpl; try discriminate; auto. Qed.

Lemma Forall2_eq {A : Type} (l l' : list A) : Forall2 eq l l' -> l' = l.
Proof. induction 1; congruence. Qed.

Lemma child_rel_same (l l' : list value) :
  Forall2 child_rel l l' ->
  (forall x m, In x l -> visited x m -> all_optional m = true) ->
  l' = l.
Proof.
  induction 1 as [|x x' l l' (_ & _ & Hx & _) _ IH]; intros Hall; [reflexivity|].
  rewrite Hx, IH; auto.
  - intros y m Hy. apply Hall. now right.
  - intros m. apply Hall. now left.
Qed.

Lemma child_rel_visited (l l' : list value) x' m' :
  Forall2 child_rel l l' -> In x' l' -> visited x' m' ->
  exists x m, In x l /\ visited x m /\ node_rel m m'.
Proof.
  induction 1 as [|y y' l l' (_ & Hy & _) _ IH]; intros Hin Hv; [destruct Hin|].
  destruct Hin as [<-|Hin].
  - destruct (Hy m' Hv) as (m & Hm & Hrel). exists y, m. simpl. auto.
  - destruct (IH Hin Hv) as (x & m & Hx & Hm & Hrel). exists x, m. simpl. auto.
Qed.

Section UpdateSteps.

Variable through : value -> outcome value.
Variable ok : value -> Prop.

Hypothesis through_spec :
  forall x, ok x -> exists x', through x = Ret x' /\ child_rel x x'.

Lemma update_list : forall l,
  (forall x, In x l -> ok x) ->
  exists l', mapM through l = Ret l' /\ Forall2 child_rel l l'.
Proof.
  induction l as [|x l IH]; intros H; [exists []; split; [reflexivity|constructor]|].
  destruct (through_spec x (H x (or_introl eq_refl))) as (x' & Ex & Hx).
  destruct IH as (l' & El & Hl); [intros y Hy; apply H; now right|].
  exists (x' :: l'). cbn [mapM]. rewrite Ex. cbn [bind]. rewrite El. cbn [bind].
  split; [reflexivity|now constructor].
Qed.

Lemma update_fields : forall pfs : list (string * value),
  (forall x, In x (map snd pfs) -> ok x) ->
  exists pfs',
    mapM (fun kv => x <- through (snd kv) ;; Ret (fst kv, x)) pfs = Ret pfs' /\
    map fst pfs' = map fst pfs /\
    Forall2 child_rel (map snd pfs) (map snd pfs').
Proof.
  induction pfs as [|[k x] pfs IH]; intros H.
  - exists []. split; [reflexivity|]. split; [reflexivity|constructor].
  - destruct (through_spec x (H x (or_introl eq_refl))) as (x' & Ex & Hx).
    destruct IH as (pfs' & El & Hk & Hl); [intros y Hy; apply H; now right|].
    exists ((k, x') :: pfs'). cbn [mapM fst snd]. rewrite Ex. cbn [bind]. rewrite El.
    cbn [bind map fst snd]. split; [reflexivity|]. split; [now rewrite Hk|now constructor].
Qed.

Lemma fields_same (pfs pfs' : list (string * value)) :
  map fst pfs' = map fst pfs -> map snd pfs' = map snd pfs -> pfs' = pfs.
Proof.
  revert pfs'. induction pfs as [|[k x] pfs IH]; intros [|[k' x'] pfs']; simpl;
    try discriminate; auto.
  intros [= -> Hk] [= -> Hx]. now rewrite (IH pfs').
Qed.

Lemma step_result_none k ch f :
  ch f = [] -> step_result k ch f f.
Proof.
  intros Hch. split; [auto|]. split; [auto|]. split; [apply same_kind_refl|].
  split; [rewrite Hch; constructor|auto].
Qed.

Lemma step_result_set k ch f v v' :
  lookup k f = Some v ->
  same_kind v v' = true ->
  Forall2 child_rel (ch f) (ch (assoc_set k v' f)) ->
  (ch (assoc_set k v' f) = ch f -> v' = v) ->
  step_result k ch f (assoc_set k v' f).
Proof.
  intros Hk Hkind Hch Hsame. split; [|split; [|split; [|split]]].
  - intros k' Hne. apply lookup_assoc_set_other. congruence.
  - unfold has_key. now rewrite lookup_assoc_set_same, Hk.
  - unfold field. now rewrite lookup_assoc_set_same, Hk.
  - exact Hch.
  - intros E. rewrite (Hsame E). now apply assoc_set_lookup_id.
Qed.

Lemma update_properties_spec f :
  node_typed (JObj f) = true ->
  (forall x, In x (property_children f) -> ok x) ->
  exists f',
    update_properties through (JObj f) = Ret (JObj f') /\
    step_result "properties" property_children f f'.
Proof.
  intros Ht Hok. unfold update_properties. rewrite get_prop_object. cbn [bind].
  unfold node_typed in Ht. apply andb_true_iff in Ht as [_ Ht].
  unfold property_children in Hok |- *.
  destruct (lookup "properties" f) as [p|] eqn:Ep.
  - destruct (truthy p) eqn:Etruthy.
    + destruct p as [ | | | | | | pfs]; try discriminate.
      destruct (update_fields pfs Hok) as (pfs' & E & Hfst & Hsnd).
      rewrite E. cbn [bind set_prop]. eexists. split; [reflexivity|].
      apply (step_result_set "properties" property_children f (JObj pfs) (JObj pfs') Ep eq_refl).
      * unfold property_children. now rewrite lookup_assoc_set_same, Ep.
      * unfold property_children. rewrite lookup_assoc_set_same, Ep. cbn [truthy own_values].
        intros Hs. f_equal. now apply fields_same.
    + exists f. split; [reflexivity|]. apply step_result_none.
      unfold property_children. now rewrite Ep, Etruthy.
  - exists f. split; [reflexivity|]. apply step_result_none.
    unfold property_children. now rewrite Ep.
Qed.

Lemma update_branches_spec f k :
  match lookup k f with
  | Some (JArr _) => true
  | Some v => negb (truthy v)
  | None => true
  end = true ->
  (forall x, In x (branch_children f k) -> ok x) ->
  exists f',
    update_branches through (JObj f) k = Ret (JObj f') /\
    step_result k (fun f => branch_children f k) f f'.
Proof.
  intros Ht Hok. unfold update_branches. rewrite get_prop_object. cbn [bind].
  unfold branch_children in Hok |- *.
  destruct (lookup k f) as [b|] eqn:Eb.
  - destruct b as [ | | | | | l | ];
      try (apply negb_true_iff in Ht; rewrite Ht; exists f; split; [reflexivity|];
           apply step_result_none; unfold branch_children; now rewrite Eb).
    cbn [truthy]. destruct (update_list l Hok) as (l' & E & Hl).
    rewrite E. cbn [bind set_prop]. eexists. split; [reflexivity|].
    apply (step_result_set k (fun f => branch_children f k) f (JArr l) (JArr l') Eb eq_refl).
    + unfold branch_children. now rewrite lookup_assoc_set_same, Eb.
    + unfold branch_children. rewrite lookup_assoc_set_same, Eb. now intros ->.
  - exists f. split; [reflexivity|]. apply step_result_none.
    unfold branch_children. now rewrite Eb.
Qed.

Lemma update_node_spec f k :
  (forall x, In x (node_children f k) -> ok x) ->
  exists f',
    update_node through (JObj f) k = Ret (JObj f') /\
    step_result k (fun f => node_children f k) f f'.
Proof.
  intros Hok. unfold update_node. rewrite get_prop_object. cbn [bind].
  unfold node_children in Hok |- *.
  destruct (lookup k f) as [x|] eqn:Ex.
  - destruct (truthy x) eqn:Etruthy.
    + destruct (through_spec x (Hok x (or_introl eq_refl))) as (x' & E & Hx).
      rewrite E. cbn [bind set_prop]. eexists. split; [reflexivity|].
      pose proof Hx as (Hkind & _).
      assert (Etruthy' : truthy x' = true) by (now rewrite (same_kind_truthy x x' Hkind)).
      apply (step_result_set k (fun f => node_children f k) f x x' Ex Hkind).
      * unfold node_children. rewrite lookup_assoc_set_same, Ex, Etruthy, Etruthy'.
        constructor; [exact Hx|constructor].
      * unfold node_children. rewrite lookup_assoc_set_same, Ex, Etruthy, Etruthy'.
        now intros [= ->].
    + exists f. split; [reflexivity|]. apply step_result_none.
      unfold node_children. now rewrite Ex, Etruthy.
  - exists f. split; [reflexivity|]. apply step_result_none.
    unfold node_children. now rewrite Ex.
Qed.

Lemma update_additional_spec f :
  (forall x, In x (additional_children f) -> ok x) ->
  exists f',
    update_additional through (JObj f) = Ret (JObj f') /\
    step_result "additionalProperties" additional_children f f'.
Proof.
  intros Hok. unfold update_additional. rewrite get_prop_object. cbn [bind].
  unfold additional_children in Hok |- *.
  destruct (lookup "additionalProperties" f) as [x|] eqn:Ex.
  - destruct (truthy x && negb (is_boolean x)) eqn:Econd.
    + destruct (through_spec x (Hok x (or_introl eq_refl))) as (x' & E & Hx).
      rewrite E. cbn [bind set_prop]. eexists. split; [reflexivity|].
      pose proof Hx as (Hkind & _).
      assert (Econd' : truthy x' && negb (is_boolean x') = true).
      { now rewrite (same_kind_truthy x x' Hkind), (same_kind_boolean x x' Hkind). }
      apply (step_result_set "additionalProperties" additional_children f x x' Ex Hkind).
      * unfold additional_children. rewrite lookup_assoc_set_same, Ex, Econd, Econd'.
        constructor; [exact Hx|constructor].
      * unfold additional_children. rewrite lookup_assoc_set_same, Ex, Econd, Econd'.
        now intros [= ->].
    + exists f. split; [reflexivity|]. apply step_result_none.
      unfold additional_children. now rewrite Ex, Econd.
  - exists f. split; [reflexivity|]. apply step_result_none.
    unfold additional_children. now rewrite Ex.
Qed.

End UpdateSteps.

Lemma same_kind_trans x y z :
  same_kind x y = true -> same_kind y z = true -> same_kind x z = true.
Proof.
  destruct x, y; simpl; try discriminate; destruct z; simpl; try discriminate; auto.
  - intros H1 H2. apply Bool.eqb_prop in H1. now subst.
  - intros H1 H2. apply Z.eqb_eq in H1. now subst.
  - intros H1 H2. apply String.eqb_eq in H1. now subst.
Qed.

Lemma kind_preserving_refl f : kind_preserving f f.
Proof. intros k. split; [reflexivity|apply same_kind_refl]. Qed.

Lemma kind_preserving_trans f g h :
  kind_preserving f g -> kind_preserving g h -> kind_preserving f h.
Proof.
  intros H1 H2 k. destruct (H1 k) as [A1 B1]. destruct (H2 k) as [A2 B2]. split.
  - now rewrite A2.
  - exact (same_kind_trans _ _ _ B1 B2).
Qed.

Lemma step_result_kind k ch f f' : step_result k ch f f' -> kind_preserving f f'.
Proof.
  intros (Ho & Hk & Hs & _) k'. destruct (String.eqb_spec k' k) as [->|Hne].
  - split; assumption.
  - unfold has_key, field. rewrite (Ho k' Hne). split; [reflexivity|apply same_kind_refl].
Qed.

Lemma kind_preserving_typed f f' :
  kind_preserving f f' -> node_typed (JObj f) = true -> node_typed (JObj f') = true.
Proof.
  intros Hk. unfold node_typed, branches_typed. cbn [forallb].
  assert (Hb : forall k,
            match lookup k f with
            | Some (JArr _) => true
            | Some v => negb (truthy v)
            | None => true
            end = true ->
            match lookup k f' with
            | Some (JArr _) => true
            | Some v => negb (truthy v)
            | None => true
            end = true).
  { intros k. destruct (Hk k) as [Hkey Hkind]. unfold has_key, field in *.
    destruct (lookup k f) as [v|], (lookup k f') as [v'|]; try discriminate; auto.
    - pose proof (same_kind_truthy _ _ Hkind) as Et.
      pose proof (same_kind_array _ _ Hkind) as Ea.
      destruct v, v'; try discriminate; auto; rewrite Et; auto. }
  assert (Hp : match lookup "properties" f with
               | None | Some (JObj _) => true
               | Some v => negb (truthy v)
               end = true ->
               match lookup "properties" f' with
               | None | Some (JObj _) => true
               | Some v => negb (truthy v)
               end = true).
  { destruct (Hk "properties") as [Hkey Hkind]. unfold has_key, field in *.
    destruct (lookup "properties" f) as [v|], (lookup "properties" f') as [v'|];
      try discriminate; auto.
    pose proof (same_kind_truthy _ _ Hkind) as Et.
    pose proof (same_kind_object _ _ Hkind) as Eo.
    destruct v, v'; try discriminate; auto; rewrite Et; auto. }
  rewrite !andb_true_iff. intros [(H1 & H2 & H3 & _) H4].
  repeat split; auto.
Qed.

Lemma property_children_lookup f g :
  lookup "properties" f = lookup "properties" g -> property_children f = property_children g.
Proof. unfold property_children. now intros ->. Qed.

Lemma branch_children_lookup f g k :
  lookup k f = lookup k g -> branch_children f k = branch_children g k.
Proof. unfold branch_children. now intros ->. Qed.

Lemma node_children_lookup f g k :
  lookup k f = lookup k g -> node_children f k = node_children g k.
Proof. unfold node_children. now intros ->. Qed.

Lemma additional_children_lookup f g :
  lookup "additionalProperties" f = lookup "additionalProperties" g ->
  additional_children f = additional_children g.
Proof. unfold additional_children. now intros ->. Qed.

Lemma all_optional_fixed fs :
  all_optional (JObj fs) = true ->
  assoc_remove "default" (assoc_remove "required" fs) = fs.
Proof.
  unfold all_optional, has_key. intros [H1 H2]%andb_true_iff.
  rewrite (assoc_remove_absent "required" fs)
    by (destruct (lookup "required" fs); [discriminate|reflexivity]).
  apply assoc_remove_absent. destruct (lookup "default" fs); [discriminate|reflexivity].
Qed.

Ltac frames :=
  repeat match goal with
         | H : forall k', k' <> _ -> lookup k' ?f' = lookup k' _
           |- context [lookup ?k ?f'] => rewrite (H k) by discriminate
         end.

Lemma update_object_spec (through : value -> outcome value) (fs : list (string * value)) :
  (forall x, In x (schema_children (JObj fs)) ->
             exists x', through x = Ret x' /\ child_rel x x') ->
  node_typed (JObj fs) = true ->
  exists f', update_step through (JObj fs) delete_required_and_default = Ret (JObj f') /\
             child_rel (JObj fs) (JObj f').
Proof.
  intros Hspec Ht.
  set (ok := fun x => In x (schema_children (JObj fs))).
  set (f1 := assoc_remove "default" (assoc_remove "required" fs)).
  assert (H1 : forall k, k <> "required" -> k <> "default" -> lookup k f1 = lookup k fs).
  { intros k Hk1 Hk2. unfold f1. rewrite !lookup_assoc_remove_other by congruence.
    reflexivity. }
  assert (Ht1 : node_typed (JObj f1) = true).
  { revert Ht. unfold node_typed, branches_typed. cbn [forallb].
    now rewrite !H1 by discriminate. }
  pose proof Ht as Htb. unfold node_typed in Htb. apply andb_true_iff in Htb as [Htb _].
  unfold branches_typed in Htb. cbn [forallb] in Htb.
  rewrite !andb_true_iff in Htb. destruct Htb as (Tb1 & Tb2 & Tb3 & _).
  cbn [schema_children] in ok.
  (* properties *)
  destruct (update_properties_spec through ok Hspec f1 Ht1) as (f2 & E2 & S2).
  { intros x Hx. unfold ok. rewrite (property_children_lookup f1 fs) in Hx
      by (apply H1; discriminate). apply in_or_app. now left. }
  pose proof S2 as (Ho2 & _).
  (* oneOf *)
  destruct (update_branches_spec through ok Hspec f2 "oneOf") as (f3 & E3 & S3).
  { frames. now rewrite H1 by discriminate. }
  { intros x Hx. unfold ok. rewrite (branch_children_lookup f2 fs) in Hx
      by (frames; apply H1; discriminate). apply in_or_app. right. apply in_or_app. now left. }
  pose proof S3 as (Ho3 & _).
  (* allOf *)
  destruct (update_branches_spec through ok Hspec f3 "allOf") as (f4 & E4 & S4).
  { frames. now rewrite H1 by discriminate. }
  { intros x Hx. unfold ok. rewrite (branch_children_lookup f3 fs) in Hx
      by (frames; apply H1; discriminate).
    do 2 (apply in_or_app; right). apply in_or_app. now left. }
  pose proof S4 as (Ho4 & _).
  (* anyOf *)
  destruct (update_branches_spec through ok Hspec f4 "anyOf") as (f5 & E5 & S5).
  { frames. now rewrite H1 by discriminate. }
  { intros x Hx. unfold ok. rewrite (branch_children_lookup f4 fs) in Hx
      by (frames; apply H1; discriminate).
    do 3 (apply in_or_app; right). apply in_or_app. now left. }
  pose proof S5 as (Ho5 & _).
  (* items *)
  destruct (update_node_spec through ok Hspec f5 "items") as (f6 & E6 & S6).
  { intros x Hx. unfold ok. rewrite (node_children_lookup f5 fs) in Hx
      by (frames; apply H1; discriminate).
    do 4 (apply in_or_app; right). apply in_or_app. now left. }
  pose proof S6 as (Ho6 & _).
  (* not *)
  destruct (update_node_spec through ok Hspec f6 "not") as (f7 & E7 & S7).
  { intros x Hx. unfold ok. rewrite (node_children_lookup f6 fs) in Hx
      by (frames; apply H1; discriminate).
    do 5 (apply in_or_app; right). apply in_or_app. now left. }
  pose proof S7 as (Ho7 & _).
  (* additionalProperties *)
  destruct (update_additional_spec through ok Hspec f7) as (f8 & E8 & S8).
  { intros x Hx. unfold ok. rewrite (additional_children_lookup f7 fs) in Hx
      by (frames; apply H1; discriminate).
    do 6 (apply in_or_app; right). exact Hx. }
  pose proof S8 as (Ho8 & _).
  exists f8. split.
  { cbn [update_step delete_required_and_default delete_keyword bind]. fold f1.
    rewrite E2. cbn [bind]. rewrite E3. cbn [bind]. rewrite E4. cbn [bind].
    rewrite E5. cbn [bind]. rewrite E6. cbn [bind]. rewrite E7. cbn [bind]. exact E8. }
  assert (Hkind : kind_preserving f1 f8).
  { eapply kind_preserving_trans; [exact (step_result_kind _ _ _ _ S2)|].
    eapply kind_preserving_trans; [exact (step_result_kind _ _ _ _ S3)|].
    eapply kind_preserving_trans; [exact (step_result_kind _ _ _ _ S4)|].
    eapply kind_preserving_trans; [exact (step_result_kind _ _ _ _ S5)|].
    eapply kind_preserving_trans; [exact (step_result_kind _ _ _ _ S6)|].
    eapply kind_preserving_trans; [exact (step_result_kind _ _ _ _ S7)|].
    exact (step_result_kind _ _ _ _ S8). }
  assert (Hchildren : Forall2 child_rel (schema_children (JObj fs)) (schema_children (JObj f8))).
  { cbn [schema_children].
    destruct S2 as (_ & _ & _ & C2 & _). destruct S3 as (_ & _ & _ & C3 & _).
    destruct S4 as (_ & _ & _ & C4 & _). destruct S5 as (_ & _ & _ & C5 & _).
    destruct S6 as (_ & _ & _ & C6 & _). destruct S7 as (_ & _ & _ & C7 & _).
    destruct S8 as (_ & _ & _ & C8 & _).
    repeat apply Forall2_app.
    - rewrite (property_children_lookup fs f1), (property_children_lookup f8 f2);
        [exact C2|frames; reflexivity|symmetry; apply H1; discriminate].
    - rewrite (branch_children_lookup fs f2), (branch_children_lookup f8 f3);
        [exact C3|frames; reflexivity|frames; symmetry; apply H1; discriminate].
    - rewrite (branch_children_lookup fs f3), (branch_children_lookup f8 f4);
        [exact C4|frames; reflexivity|frames; symmetry; apply H1; discriminate].
    - rewrite (branch_children_lookup fs f4), (branch_children_lookup f8 f5);
        [exact C5|frames; reflexivity|frames; symmetry; apply H1; discriminate].
    - rewrite (node_children_lookup fs f5), (node_children_lookup f8 f6);
        [exact C6|frames; reflexivity|frames; symmetry; apply H1; discriminate].
    - rewrite (node_children_lookup fs f6), (node_children_lookup f8 f7);
        [exact C7|frames; reflexivity|frames; symmetry; apply H1; discriminate].
    - rewrite (additional_children_lookup fs f7);
        [exact C8|frames; symmetry; apply H1; discriminate]. }
  assert (Hrel : node_rel (JObj fs) (JObj f8)).
  { split; [|split; [|split]].
    - unfold all_optional. destruct (Hkind "required") as [R1 _].
      destruct (Hkind "default") as [D1 _]. rewrite R1, D1. unfold has_key, f1.
      rewrite lookup_assoc_remove_other, lookup_assoc_remove_same by discriminate.
      now rewrite lookup_assoc_remove_same.
    - unfold carries_ref. destruct (Hkind "$ref") as [R1 _]. rewrite R1.
      unfold has_key. now rewrite H1 by discriminate.
    - intros _. exact (kind_preserving_typed f1 f8 Hkind Ht1).
    - intros k Hk1 Hk2. cbn [fields_of]. destruct (Hkind k) as [A B].
      unfold has_key, field in *. rewrite (H1 k Hk1 Hk2) in A, B.
      split; [exact A|]. split; [exact B|].
      intros Hk. unfold traversal_keywords in Hk. cbn [In] in Hk.
      rewrite (Ho8 k), (Ho7 k), (Ho6 k), (Ho5 k), (Ho4 k), (Ho3 k), (Ho2 k);
        [now apply H1|..]; intros ->; intuition. }
  split; [reflexivity|]. split; [|split; [|now destruct Hrel as (_ & _ & _ & Hkept)]].
  - intros m' Hv. inversion Hv as [fs0|s0 x' n0 Hin Hvx]; subst.
    + exists (JObj fs). split; [constructor|exact Hrel].
    + destruct (child_rel_visited _ _ x' m' Hchildren Hin Hvx) as (x & m & Hx & Hm & Hr).
      exists m. split; [exact (visited_below _ x m Hx Hm)|exact Hr].
  - intros Hclean.
    assert (Hsub : forall x m, In x (schema_children (JObj fs)) -> visited x m ->
                               all_optional m = true).
    { intros x m Hx Hm. apply Hclean. exact (visited_below _ x m Hx Hm). }
    assert (E1 : f1 = fs) by (apply all_optional_fixed, Hclean; constructor).
    assert (Hall : schema_children (JObj f8) = schema_children (JObj fs))
      by exact (child_rel_same _ _ Hchildren Hsub).
    f_equal. transitivity f1; [|exact E1].
    cbn [schema_children] in Hall, Hsub.
    assert (Hpart : forall (ch : list (string * value) -> list value) f g,
              Forall2 child_rel (ch f) (ch g) ->
              (forall x, In x (ch f) -> In x (schema_children (JObj fs))) ->
              ch g = ch f).
    { intros ch f g HF Hin. apply (child_rel_same _ _ HF).
      intros x m Hx Hm. apply Hclean. exact (visited_below _ x m (Hin x Hx) Hm). }
    clear Hall.
    destruct S2 as (_ & _ & _ & C2 & F2). destruct S3 as (_ & _ & _ & C3 & F3).
    destruct S4 as (_ & _ & _ & C4 & F4). destruct S5 as (_ & _ & _ & C5 & F5).
    destruct S6 as (_ & _ & _ & C6 & F6). destruct S7 as (_ & _ & _ & C7 & F7).
    destruct S8 as (_ & _ & _ & C8 & F8).
    assert (E2' : f2 = f1).
    { apply F2, (Hpart property_children f1 f2 C2). intros x Hx.
      rewrite (property_children_lookup f1 fs) in Hx by (apply H1; discriminate).
      cbn [schema_children]. apply in_or_app. now left. }
    assert (E3' : f3 = f2).
    { apply F3, (Hpart (fun f => branch_children f "oneOf") f2 f3 C3). intros x Hx.
      rewrite (branch_children_lookup f2 fs) in Hx by (frames; apply H1; discriminate).
      cbn [schema_children]. apply in_or_app. right. apply in_or_app. now left. }
    assert (E4' : f4 = f3).
    { apply F4, (Hpart (fun f => branch_children f "allOf") f3 f4 C4). intros x Hx.
      rewrite (branch_children_lookup f3 fs) in Hx by (frames; apply H1; discriminate).
      cbn [schema_children]. do 2 (apply in_or_app; right). apply in_or_app. now left. }
    assert (E5' : f5 = f4).
    { apply F5, (Hpart (fun f => branch_children f "anyOf") f4 f5 C5). intros x Hx.
      rewrite (branch_children_lookup f4 fs) in Hx by (frames; apply H1; discriminate).
      cbn [schema_children]. do 3 (apply in_or_app; right). apply in_or_app. now left. }
    assert (E6' : f6 = f5).
    { apply F6, (Hpart (fun f => node_children f "items") f5 f6 C6). intros x Hx.
      rewrite (node_children_lookup f5 fs) in Hx by (frames; apply H1; discriminate).
      cbn [schema_children]. do 4 (apply in_or_app; right). apply in_or_app. now left. }
    assert (E7' : f7 = f6).
    { apply F7, (Hpart (fun f => node_children f "not") f6 f7 C7). intros x Hx.
      rewrite (node_children_lookup f6 fs) in Hx by (frames; apply H1; discriminate).
      cbn [schema_children]. do 5 (apply in_or_app; right). apply in_or_app. now left. }
    assert (E8' : f8 = f7).
    { apply F8, (Hpart additional_children f7 f8 C8). intros x Hx.
      rewrite (additional_children_lookup f7 fs) in Hx by (frames; apply H1; discriminate).
      cbn [schema_children]. do 6 (apply in_or_app; right). exact Hx. }
    congruence.
Qed.

Lemma node_kept_refl v : node_kept v v.
Proof. intros k _ _. split; [reflexivity|]. split; [apply same_kind_refl|auto]. Qed.

Lemma update_spec : forall n s,
  depth s < n ->
  (forall m, visited s m -> node_typed m = true) ->
  exists r,
    UpdateJsonSchema_fuel n s delete_required_and_default = Ret r /\ child_rel s r.
Proof.
  induction n as [|n IH]; intros s Hd Ht; [lia|].
  assert (Hspec : forall x, In x (schema_children s) ->
            exists x', UpdateJsonSchema_fuel n x delete_required_and_default = Ret x' /\
                       child_rel x x').
  { intros x Hx. apply IH.
    - pose proof (depth_children x s Hx). lia.
    - intros m Hm. apply Ht. exact (visited_below s x m Hx Hm). }
  assert (Hprim : forall v, schema_children v = [] ->
            match v with JObj _ => False | _ => True end -> child_rel v v).
  { intros v Hch Hv. split; [apply same_kind_refl|].
    split; [|split; [reflexivity|apply node_kept_refl]].
    intros m' Hm'. inversion Hm' as [fs0|s0 x' n0 Hin Hvx]; subst; [destruct Hv|].
    rewrite Hch in Hin. destruct Hin. }
  cbn [UpdateJsonSchema_fuel].
  destruct s as [ | | b | z | str | l | fs ];
    try (eexists; split; [reflexivity|]; apply Hprim; [reflexivity|exact I]).
  - cbn [update_step].
    destruct (update_list _ (fun x => In x l) Hspec l (fun x H => H)) as (l' & E & Hl).
    rewrite E. cbn [bind]. eexists. split; [reflexivity|].
    split; [reflexivity|]. split; [|split].
    + intros m' Hm'. inversion Hm' as [|s0 x' n0 Hin Hvx]; subst.
      destruct (child_rel_visited _ _ x' m' Hl Hin Hvx) as (x & m & Hx & Hm & Hr).
      exists m. split; [exact (visited_below (JArr l) x m Hx Hm)|exact Hr].
    + intros Hclean. f_equal. apply (child_rel_same _ _ Hl).
      intros x m Hx Hm. apply Hclean. exact (visited_below (JArr l) x m Hx Hm).
    + intros k _ _. cbn [fields_of]. split; [reflexivity|]. split; [reflexivity|auto].
  - destruct (update_object_spec _ fs Hspec (Ht _ (visited_here fs))) as (f' & E & Hrel).
    exists (JObj f'). split; [exact E|exact Hrel].
Qed.

Lemma node_typed_branches m : node_typed m = true -> branches_typed m = true.
Proof. unfold node_typed. now intros [H _]%andb_true_iff. Qed.

Lemma ToDeepOptionals_run fs config :
  constructible (JObj fs) ->
  (forall m, visited (JObj fs) m -> node_typed m = true) ->
  exists fs',
    ToDeepOptionals (builder fs config) = Ret (builder fs' config) /\
    child_rel (JObj fs) (JObj fs') /\
    constructible (JObj fs') /\
    (forall m, visited (JObj fs') m -> node_typed m = true).
Proof.
  intros Hc Ht.
  destruct (update_spec (S (depth (JObj fs))) (JObj fs) (Nat.lt_succ_diag_r _) Ht)
    as (r & E & Hrel).
  pose proof Hrel as (Hkind & Hvis & _).
  destruct r as [ | | | | | | fs']; try discriminate.
  assert (Ht' : forall m, visited (JObj fs') m -> node_typed m = true).
  { intros m' Hm'. destruct (Hvis m' Hm') as (m & Hm & _ & _ & Htyped & _).
    apply Htyped, Ht, Hm. }
  assert (Hnoref : ~ reaches_ref (JObj fs)).
  { destruct (through_dichotomy (S (depth (JObj fs))) (JObj fs) (Nat.lt_succ_diag_r _))
      as [[_ H]|[H _]]; [intros m Hm; apply node_typed_branches, Ht, Hm|exact H|].
    unfold constructible in Hc. rewrite Hc in H. discriminate. }
  assert (Hc' : constructible (JObj fs')).
  { destruct (through_dichotomy (S (depth (JObj fs'))) (JObj fs') (Nat.lt_succ_diag_r _))
      as [[H _]|[_ H]]; [intros m Hm; apply node_typed_branches, Ht', Hm|exact H|].
    exfalso. apply Hnoref. destruct H as (m' & Hm' & Href).
    destruct (Hvis m' Hm') as (m & Hm & _ & Hr & _).
    exists m. split; [exact Hm|].
    destruct (carries_ref m) eqn:Em; [reflexivity|]. rewrite (Hr eq_refl) in Href.
    discriminate. }
  exists fs'. split; [|split; [exact Hrel|split; [exact Hc'|exact Ht']]].
  unfold ToDeepOptionals. cbn [schemaObject builder validationConfig].
  rewrite CloneJSON_id. unfold UpdateJsonSchema. rewrite E. cbn [bind].
  now apply new_SchemaBuilder_constructible.
Qed.


